(** * FragmentLoader (src/loader/fragment-loader.ts)

    A shallow embedding of the fragment loader of hls.js: the selection of
    the independent part, the merge of part statistics into fragment
    statistics, and the event-driven loading protocol (whole fragment or a
    chain of parts) as a transition system over an explicit world state. *)

From Stdlib Require Import ZArith QArith Qround Qabs Qpower Lia Lqa String Floats.
From stdpp Require Import gmap strings list fin_maps.

Local Open Scope Z_scope.

(** ** JavaScript numbers

    A [number] is an IEEE 754 binary64 value in the source.  The embedding
    keeps the special values (NaN, the two infinities and the two zeros) and
    names a finite non-zero value by the rational it denotes.  Addition,
    subtraction, multiplication and division round their exact result to
    the nearest double, ties to even, with gradual underflow and overflow
    to an infinity ([round64]); comparison, [Math.max] and [Math.round]
    are exact on doubles. *)

Module JsNumber.

Inductive number :=
  | NaN
  | Infinity (neg : bool)
  | Zero (neg : bool)
  | Num (q : Q).

(** [Num q] stands for a finite non-zero value; [of_Q] builds the reduced
    representative of a value that is a double (an integer below 2^53, a
    dyadic fraction) and falls back to a zero of the given sign. *)
Definition of_Q (neg : bool) (q : Q) : number :=
  if Qeq_bool q 0 then Zero neg else Num (Qred q).

Definition canon (x : number) : number :=
  match x with
  | Num q => of_Q false q
  | _ => x
  end.

Definition of_Z (z : Z) : number := of_Q false (inject_Z z).

Definition Qneg (q : Q) : bool := (Qnum q <? 0)%Z.

Definition sign (x : number) : bool :=
  match x with
  | NaN => false
  | Infinity s | Zero s => s
  | Num q => Qneg q
  end.

Definition is_finite (x : number) : bool :=
  match x with
  | NaN | Infinity _ => false
  | Zero _ | Num _ => true
  end.

Definition is_zero (x : number) : bool :=
  match canon x with
  | Zero _ => true
  | _ => false
  end.

(** ToBoolean: NaN, +0 and -0 are falsy. *)
Definition truthy (x : number) : bool :=
  match canon x with
  | NaN | Zero _ => false
  | _ => true
  end.

Definition neg (x : number) : number :=
  match canon x with
  | NaN => NaN
  | Infinity s => Infinity (negb s)
  | Zero s => Zero (negb s)
  | Num q => Num (Qred (- q))
  end.

(** *** Rounding to binary64 *)

Definition pow2 (e : Z) : Q := Qpower 2 e.

(** The binary exponent of a positive rational: [2^k <= q < 2^(k+1)]. *)
Definition ilog2 (q : Q) : Z :=
  let k := Z.log2 (Qnum q) - Z.log2 (Z.pos (Qden q)) in
  if Qle_bool (pow2 k) q then k else k - 1.

(** The nearest integer, ties to the even one. *)
Definition round_half_even (x : Q) : Z :=
  let f := Qfloor x in
  match Qcompare (x - inject_Z f) (1 # 2) with
  | Lt => f
  | Gt => f + 1
  | Eq => if Z.even f then f else f + 1
  end.

(** The double nearest to [q]: a 53-bit significand [m] at the exponent [e]
    of the last place, no lower than that of the subnormals (2^-1074); a
    significand rounded down to 0 is an underflow to a zero of the sign of
    [q], a result of 2^1024 or more an overflow to an infinity.  [s] is the
    sign of the zero returned for [q = 0]. *)
Definition round64 (s : bool) (q : Q) : number :=
  if Qeq_bool q 0 then Zero s
  else
    let a := Qabs q in
    let e := Z.max (ilog2 a - 52) (-1074) in
    let m := round_half_even (a / pow2 e) in
    if (m =? 0)%Z then Zero (Qneg q)
    else if (1024 <=? Z.log2 m + e)%Z then Infinity (Qneg q)
    else Num (Qred ((if Qneg q then - inject_Z m else inject_Z m) * pow2 e)).

(** The value of a decimal literal. *)
Definition of_decimal (q : Q) : number := round64 false q.

(** A binary64 value of the machine, read as a [number]: the primitive
    floats of the proof assistant are IEEE 754 doubles, against which the
    operations below are checked at sample operands. *)
Definition of_float (f : float) : number :=
  match Prim2SF f with
  | S754_zero s => Zero s
  | S754_infinity s => Infinity s
  | S754_nan => NaN
  | S754_finite s m e =>
      Num (Qred ((if s then - inject_Z (Z.pos m) else inject_Z (Z.pos m)) * pow2 e))
  end.

Definition same (x y : number) : bool :=
  match x, y with
  | NaN, NaN => true
  | Infinity a, Infinity b | Zero a, Zero b => Bool.eqb a b
  | Num p, Num q => Qeq_bool p q
  | _, _ => false
  end.

Definition add (x y : number) : number :=
  match canon x, canon y with
  | NaN, _ | _, NaN => NaN
  | Infinity a, Infinity b => if Bool.eqb a b then Infinity a else NaN
  | Infinity a, _ => Infinity a
  | _, Infinity b => Infinity b
  | Zero a, Zero b => Zero (a && b)
  | Zero _, Num q => Num q
  | Num p, Zero _ => Num p
  | Num p, Num q => round64 false (p + q)
  end.

Definition sub (x y : number) : number := add x (neg y).

Definition mul (x y : number) : number :=
  match canon x, canon y with
  | NaN, _ | _, NaN => NaN
  | Infinity _, Zero _ | Zero _, Infinity _ => NaN
  | Infinity a, cy => Infinity (xorb a (sign cy))
  | cx, Infinity b => Infinity (xorb (sign cx) b)
  | Zero a, cy => Zero (xorb a (sign cy))
  | cx, Zero b => Zero (xorb (sign cx) b)
  | Num p, Num q => round64 (xorb (Qneg p) (Qneg q)) (p * q)
  end.

Definition div (x y : number) : number :=
  match canon x, canon y with
  | NaN, _ | _, NaN => NaN
  | Infinity _, Infinity _ => NaN
  | Infinity a, cy => Infinity (xorb a (sign cy))
  | cx, Infinity b => Zero (xorb (sign cx) b)
  | Zero _, Zero _ => NaN
  | Zero a, Num q => Zero (xorb a (Qneg q))
  | Num p, Zero b => Infinity (xorb (Qneg p) b)
  | Num p, Num q => round64 (xorb (Qneg p) (Qneg q)) (p / q)
  end.

(** Math.round: the nearest integer, ties towards +Infinity; a value in
    [-0.5, 0) rounds to -0. *)
Definition Math_round (x : number) : number :=
  match canon x with
  | Num q =>
      let z := Qfloor (q + (1 # 2)) in
      if (z =? 0)%Z then Zero (Qneg q) else Num (inject_Z z)
  | cx => cx
  end.

(** The relational operator [<]: false as soon as an operand is NaN. *)
Definition lt (x y : number) : bool :=
  match canon x, canon y with
  | NaN, _ | _, NaN => false
  | Infinity a, Infinity b => a && negb b
  | Infinity a, _ => a
  | _, Infinity b => negb b
  | Zero _, Zero _ => false
  | Zero _, Num q => negb (Qneg q)
  | Num p, Zero _ => Qneg p
  | Num p, Num q => match Qcompare p q with Lt => true | _ => false end
  end.

(** Math.max of two arguments: NaN if either is, and +0 above -0. *)
Definition Math_max (x y : number) : number :=
  match canon x, canon y with
  | NaN, _ | _, NaN => NaN
  | Zero a, Zero b => Zero (a && b)
  | cx, cy => if lt cx cy then cy else cx
  end.

(** [x || 0] for a [number | null]. *)
Definition or_zero (x : option number) : number :=
  match x with
  | Some v => if truthy v then v else Zero false
  | None => Zero false
  end.

End JsNumber.

Import JsNumber.

(** ** Object identities

    Fragments, transports (loaders), promises and statistics records are
    JavaScript objects compared by reference: each is named by an
    identifier into a store of the world state. *)

Definition FragId := nat.
Definition LoaderId := nat.
Definition PromiseId := nat.
Definition StatsId := nat.

(** A value of type [any]: the transport's diagnostic details. *)
Inductive JsAny :=
  | JsNull
  | JsUndefined
  | JsRef (n : nat).

Definition ArrayBuffer := list Byte.byte.

(** ** Records of the data model *)

Module Loading.
Record t := mk { start : number; first : number; end_ : number }.
End Loading.

Module LoaderStats.
Record t := mk {
  aborted : bool;
  loaded : number;
  total : number;
  loading : Loading.t
}.
End LoaderStats.

Module Fragment.
Record t := mk {
  url : option string;
  start : number;
  duration : number;
  byteRangeStartOffset : option number;
  byteRangeEndOffset : option number;
  stats : StatsId;
  loader : option LoaderId
}.
End Fragment.

Module Part.
Record t := mk {
  fragment : FragId;
  index : Z;
  start : number;
  duration : number;
  independent : bool;
  url : option string;
  byteRangeStartOffset : option number;
  byteRangeEndOffset : option number;
  stats : StatsId
}.
End Part.

Module LevelDetails.
Record t := mk { partList : option (list Part.t) }.
End LevelDetails.

(** ** Independent-part selection *)

(** The body of the [for] loop of [findIndependentPart], from position [i]
    on, with the current value of [independentPart]. *)
Fixpoint findIndependentPart_from (rest : list Part.t) (i : Z)
    (independentPart : Z) (frag : FragId) (targetBufferTime : number) : Z :=
  match rest with
  | [] => independentPart
  | part :: rest' =>
      if lt targetBufferTime (Part.start part) then independentPart
      else
        findIndependentPart_from rest' (i + 1)
          (if Part.independent part && bool_decide (Part.fragment part = frag)
           then i else independentPart)
          frag targetBufferTime
  end.

Definition findIndependentPart (partList : list Part.t) (frag : FragId)
    (targetBufferTime : number) : Z :=
  findIndependentPart_from partList 0 (-1) frag targetBufferTime.

(** ** Statistics merge *)

(** [updateStatsFromPart] on the two statistics records it reads: the
    result is the fragment's record after the call. *)
Definition updateStats (fragStats partStats : LoaderStats.t)
    (fragDuration partDuration : number) : LoaderStats.t :=
  let partTotal := LoaderStats.total partStats in
  let loaded' := add (LoaderStats.loaded fragStats) (LoaderStats.loaded partStats) in
  let total' :=
    if truthy partTotal then
      let estLoadedParts := Math_round (div loaded' partTotal) in
      let estTotalParts := Math_round (div fragDuration partDuration) in
      let estRemainingParts := sub estTotalParts estLoadedParts in
      add (add loaded' (LoaderStats.total partStats))
          (mul estRemainingParts (Math_round (div loaded' estLoadedParts)))
    else LoaderStats.total fragStats in
  let fragLoading := LoaderStats.loading fragStats in
  let partLoading := LoaderStats.loading partStats in
  let loading' :=
    if truthy (Loading.start fragLoading) then
      Loading.mk
        (add (Loading.start fragLoading)
             (sub (Loading.start partLoading) (Loading.end_ fragLoading)))
        (add (Loading.first fragLoading)
             (sub (Loading.first partLoading) (Loading.end_ fragLoading)))
        (Loading.end_ partLoading)
    else
      Loading.mk (Loading.start partLoading) (Loading.first partLoading)
        (Loading.end_ partLoading) in
  LoaderStats.mk (LoaderStats.aborted fragStats) loaded' total' loading'.

(** ** Configuration, requests and results *)

(** A transport class ([config.loader], [config.fLoader]). *)
Definition LoaderClass := nat.

Module HlsConfig.
Record t := mk {
  fLoader : option LoaderClass;
  loader : LoaderClass;
  fragLoadingTimeOut : Z;
  fragLoadingMaxRetryTimeout : Z
}.
End HlsConfig.

Module LoaderConfiguration.
Record t := mk {
  timeout : Z;
  maxRetry : Z;
  retryDelay : Z;
  maxRetryDelay : Z;
  highWaterMark : Z
}.
End LoaderConfiguration.

Definition MIN_CHUNK_SIZE : Z := 2 ^ 17.

Module FragmentLoaderContext.
Record t := mk {
  frag : FragId;
  part : option Part.t;
  responseType : string;
  url : option string;
  rangeStart : number;
  rangeEnd : number
}.
End FragmentLoaderContext.

Module FragLoadedData.
Record t := mk {
  frag : FragId;
  part : option Part.t;
  payload : ArrayBuffer;
  networkDetails : JsAny
}.
End FragLoadedData.

(** The object a load resolves with: [{ frag }] for a whole fragment,
    [{ frag, partsLoaded: [] }] extended with one property per part index
    for a chain of parts. *)
Module FragLoadedEndData.
Record t := mk {
  frag : FragId;
  partsLoaded : option (list FragLoadedData.t);
  byIndex : gmap Z FragLoadedData.t
}.
End FragLoadedEndData.

Module Response.
Record t := mk { code : Z; text : string }.
End Response.

Module FragLoadFailResult.
Record t := mk {
  type : string;
  details : string;
  fatal : bool;
  frag : FragId;
  part : option Part.t;
  response : option Response.t;
  networkDetails : JsAny
}.
End FragLoadFailResult.

Module LoadError.
Record t := mk {
  data : FragLoadFailResult.t;
  message : option string
}.
End LoadError.

(** What a promise is rejected with: a [LoadError], or the [TypeError] the
    engine raises when a property of [undefined] or [null] is read inside a
    promise executor or handler. *)
Inductive Reason :=
  | ReasonLoadError (e : LoadError.t)
  | ReasonTypeError.

(** What a call of a method comes to: it returns a value, or the engine
    raises a [TypeError] that leaves the method and reaches the caller. *)
Inductive Outcome (A : Type) :=
  | Returned (a : A)
  | Threw.
Arguments Returned {A} a.
Arguments Threw {A}.

Inductive PromiseState :=
  | Pending
  | Resolved (value : option FragLoadedEndData.t)
  | Rejected (reason : Reason).

(** ** Closures

    The variables captured by the closures of [loadFragmentParts]: the
    part list, the index the chain starts at, the fragment, the transport
    read from [this.loader], the request configuration, and the promise
    whose [resolve] and [reject] they call. *)
Module Chain.
Record t := mk {
  partList : list Part.t;
  partIndex : nat;
  frag : FragId;
  loader : option LoaderId;
  loaderConfig : LoaderConfiguration.t;
  promise : PromiseId
}.
End Chain.

(** The callbacks object handed to [loader.load]. *)
Inductive LoaderCallbacks :=
  | FragCallbacks (frag : FragId) (loader : LoaderId) (promise : PromiseId)
      (onProgress : bool)
  | PartCallbacks (chain : Chain.t) (index : nat) (part : Part.t)
      (loader : LoaderId).

Inductive TimerCallback :=
  | Watchdog (chain : Chain.t).

Module Timer.
Record t := mk { deadline : Z; callback : TimerCallback }.
End Timer.

(** ** The transport

    Modelled from the spec: the transport capability ([Loader] of
    '../types/loader') is outside this file.  An instance keeps the
    statistics record assigned to [loader.stats], the callbacks of the
    request in flight, whether [abort()] has been signalled, its
    diagnostic handle [loader.loader], and [loader.context]: the context of
    the last request handed to [load()], undefined on an instance that was
    never given one. *)
Module Transport.
Record t := mk {
  stats : option StatsId;
  callbacks : option LoaderCallbacks;
  aborting : bool;
  native : JsAny;
  context : option FragmentLoaderContext.t
}.
End Transport.

(** Calls that leave the loader: to a transport, to the timer service and
    to the consumer's progress callback. *)
Inductive Effect :=
  | NewLoader (cls : LoaderClass) (l : LoaderId)
  | LoaderLoad (l : LoaderId) (context : FragmentLoaderContext.t)
      (config : LoaderConfiguration.t)
  | LoaderAbort (l : LoaderId)
  | SetTimeout (id : Z) (delay : Z)
  | ClearTimeout (id : Z)
  | Progress (data : FragLoadedData.t).

(** ** World state *)

(** The fields of the [FragmentLoader] instance. *)
Module FragmentLoader.
Record t := mk {
  config : HlsConfig.t;
  loader : option LoaderId;
  partLoadTimeout : Z
}.
End FragmentLoader.

Record World := mkWorld {
  this : FragmentLoader.t;
  fragments : gmap FragId Fragment.t;
  statsHeap : gmap StatsId LoaderStats.t;
  transports : gmap LoaderId Transport.t;
  timers : gmap Z Timer.t;
  promises : gmap PromiseId PromiseState;
  results : gmap PromiseId FragLoadedEndData.t;
  effects : list Effect;
  now : Z;
  nextLoader : LoaderId;
  nextTimer : Z;
  nextPromise : PromiseId
}.

Definition with_this (f : FragmentLoader.t -> FragmentLoader.t) (w : World) : World :=
  mkWorld (f (this w)) (fragments w) (statsHeap w) (transports w) (timers w)
    (promises w) (results w) (effects w) (now w) (nextLoader w) (nextTimer w)
    (nextPromise w).

Definition with_fragments (f : gmap FragId Fragment.t -> gmap FragId Fragment.t)
    (w : World) : World :=
  mkWorld (this w) (f (fragments w)) (statsHeap w) (transports w) (timers w)
    (promises w) (results w) (effects w) (now w) (nextLoader w) (nextTimer w)
    (nextPromise w).

Definition with_statsHeap (f : gmap StatsId LoaderStats.t -> gmap StatsId LoaderStats.t)
    (w : World) : World :=
  mkWorld (this w) (fragments w) (f (statsHeap w)) (transports w) (timers w)
    (promises w) (results w) (effects w) (now w) (nextLoader w) (nextTimer w)
    (nextPromise w).

Definition with_transports (f : gmap LoaderId Transport.t -> gmap LoaderId Transport.t)
    (w : World) : World :=
  mkWorld (this w) (fragments w) (statsHeap w) (f (transports w)) (timers w)
    (promises w) (results w) (effects w) (now w) (nextLoader w) (nextTimer w)
    (nextPromise w).

Definition with_timers (f : gmap Z Timer.t -> gmap Z Timer.t) (w : World) : World :=
  mkWorld (this w) (fragments w) (statsHeap w) (transports w) (f (timers w))
    (promises w) (results w) (effects w) (now w) (nextLoader w) (nextTimer w)
    (nextPromise w).

Definition with_promises (f : gmap PromiseId PromiseState -> gmap PromiseId PromiseState)
    (w : World) : World :=
  mkWorld (this w) (fragments w) (statsHeap w) (transports w) (timers w)
    (f (promises w)) (results w) (effects w) (now w) (nextLoader w) (nextTimer w)
    (nextPromise w).

Definition with_results
    (f : gmap PromiseId FragLoadedEndData.t -> gmap PromiseId FragLoadedEndData.t)
    (w : World) : World :=
  mkWorld (this w) (fragments w) (statsHeap w) (transports w) (timers w)
    (promises w) (f (results w)) (effects w) (now w) (nextLoader w) (nextTimer w)
    (nextPromise w).

Definition emit (e : Effect) (w : World) : World :=
  mkWorld (this w) (fragments w) (statsHeap w) (transports w) (timers w)
    (promises w) (results w) (effects w ++ [e]) (now w) (nextLoader w) (nextTimer w)
    (nextPromise w).

Definition advance (dt : Z) (w : World) : World :=
  mkWorld (this w) (fragments w) (statsHeap w) (transports w) (timers w)
    (promises w) (results w) (effects w) (now w + dt) (nextLoader w) (nextTimer w)
    (nextPromise w).

Definition set_this_loader (l : option LoaderId) : World -> World :=
  with_this (fun t =>
    FragmentLoader.mk (FragmentLoader.config t) l (FragmentLoader.partLoadTimeout t)).

Definition set_partLoadTimeout (id : Z) : World -> World :=
  with_this (fun t =>
    FragmentLoader.mk (FragmentLoader.config t) (FragmentLoader.loader t) id).

(** [frag.loader = l] *)
Definition set_frag_loader (frag : FragId) (l : option LoaderId) : World -> World :=
  with_fragments (alter (fun f =>
    Fragment.mk (Fragment.url f) (Fragment.start f) (Fragment.duration f)
      (Fragment.byteRangeStartOffset f) (Fragment.byteRangeEndOffset f)
      (Fragment.stats f) l) frag).

Definition set_aborted (b : bool) (s : LoaderStats.t) : LoaderStats.t :=
  LoaderStats.mk b (LoaderStats.loaded s) (LoaderStats.total s) (LoaderStats.loading s).

(** [frag.stats.aborted = b] *)
Definition set_frag_aborted (frag : FragId) (b : bool) (w : World) : World :=
  match fragments w !! frag with
  | Some f => with_statsHeap (alter (set_aborted b) (Fragment.stats f)) w
  | None => w
  end.

(** ** Completed requests

    One successful part request as the environment sees it: time passes,
    the transport fills the statistics record and its handle, and calls
    [onSuccess] with the response data. *)
Module Completion.
Record t := mk {
  elapsed : Z;
  stats : LoaderStats.t;
  native : JsAny;
  data : ArrayBuffer;
  networkDetails : JsAny
}.
End Completion.

(** ** The loader *)

Section Protocol.

(** The constants of '../errors' the loader uses ([ErrorTypes.NETWORK_ERROR]
    and three members of [ErrorDetails]); [FragLoadFailResult] types both
    fields as strings. *)
Variable NETWORK_ERROR : string.
Variable FRAG_LOAD_ERROR : string.
Variable FRAG_LOAD_TIMEOUT : string.
Variable INTERNAL_ABORTED : string.

(** *** Promises *)

Definition new_promise (w : World) : PromiseId * World :=
  let p := nextPromise w in
  (p, mkWorld (this w) (fragments w) (statsHeap w) (transports w) (timers w)
        (<[p := Pending]> (promises w)) (results w) (effects w) (now w)
        (nextLoader w) (nextTimer w) (S p)).

(** A promise is settled once: [resolve] and [reject] do nothing on a
    promise that is no longer pending. *)
Definition settle (p : PromiseId) (s : PromiseState) (w : World) : World :=
  match promises w !! p with
  | Some Pending => with_promises <[p := s]> w
  | _ => w
  end.

Definition resolve (p : PromiseId) (v : option FragLoadedEndData.t) : World -> World :=
  settle p (Resolved v).

Definition reject (p : PromiseId) (r : Reason) : World -> World :=
  settle p (Rejected r).

(** *** Timers *)

Definition setTimeout (cb : TimerCallback) (delay : Z) (w : World) : Z * World :=
  let id := nextTimer w in
  (id, emit (SetTimeout id delay)
         (mkWorld (this w) (fragments w) (statsHeap w) (transports w)
            (<[id := Timer.mk (now w + delay) cb]> (timers w))
            (promises w) (results w) (effects w) (now w)
            (nextLoader w) (id + 1) (nextPromise w))).

Definition clearTimeout (id : Z) (w : World) : World :=
  emit (ClearTimeout id) (with_timers (delete id) w).

(** *** Calls into the transport *)

(** [new cls(config)] *)
Definition new_loader (cls : LoaderClass) (w : World) : LoaderId * World :=
  let l := nextLoader w in
  (l, emit (NewLoader cls l)
        (mkWorld (this w) (fragments w) (statsHeap w)
           (<[l := Transport.mk None None false JsUndefined None]> (transports w))
           (timers w) (promises w) (results w) (effects w) (now w)
           (S l) (nextTimer w) (nextPromise w))).

(** [loader.stats = stats] *)
Definition set_loader_stats (l : LoaderId) (stats : StatsId) : World -> World :=
  with_transports (alter (fun t =>
    Transport.mk (Some stats) (Transport.callbacks t) (Transport.aborting t)
      (Transport.native t) (Transport.context t)) l).

(** [loader.load(context, config, callbacks)]: the request is in flight
    until the transport calls one of the terminal callbacks. *)
Definition loader_load (l : LoaderId) (context : FragmentLoaderContext.t)
    (config : LoaderConfiguration.t) (callbacks : LoaderCallbacks) (w : World) : World :=
  emit (LoaderLoad l context config)
    (with_transports (alter (fun t =>
       Transport.mk (Transport.stats t) (Some callbacks) (Transport.aborting t)
         (Transport.native t) (Some context)) l) w).

(** [loader.abort()]: cancellation is cooperative, the transport is
    signalled and answers later through its abort callback. *)
Definition loader_abort (l : LoaderId) (w : World) : World :=
  emit (LoaderAbort l)
    (with_transports (alter (fun t =>
       Transport.mk (Transport.stats t) (Transport.callbacks t) true
         (Transport.native t) (Transport.context t)) l) w).

(** [loader.loader] *)
Definition loader_native (l : LoaderId) (w : World) : JsAny :=
  match transports w !! l with
  | Some t => Transport.native t
  | None => JsUndefined
  end.

(** [loader.context] *)
Definition loader_context (l : LoaderId) (w : World) : option FragmentLoaderContext.t :=
  transports w !! l ≫= Transport.context.

(** *** Methods of [FragmentLoader] *)

(** [abort()].  Before it tells the tracked transport to abort, the log
    line reads [this.loader.context.url]: on a transport that was never
    given a request [context] is undefined and the read raises a
    TypeError, which leaves [abort] with nothing done.  The text sent to the
    console is not recorded. *)
Definition abort (w : World) : Outcome World :=
  match FragmentLoader.loader (this w) with
  | Some l =>
      match loader_context l w with
      | Some _ => Returned (loader_abort l w)
      | None => Threw
      end
  | None => Returned w
  end.

Definition resetLoader (frag : FragId) (loader : option LoaderId) (w : World) : World :=
  let w := set_frag_loader frag None w in
  if decide (FragmentLoader.loader (this w) = loader) then
    let w := clearTimeout (FragmentLoader.partLoadTimeout (this w)) w in
    set_this_loader None w
  else w.

(** [Number.isFinite] on a possibly undefined offset. *)
Definition Number_isFinite (x : option number) : bool :=
  match x with
  | Some v => is_finite v
  | None => false
  end.

Definition createLoaderContext (frag : FragId) (part : option Part.t) (w : World)
    : FragmentLoaderContext.t :=
  let '(url, start, end_) :=
    match part with
    | Some p => (Part.url p, Part.byteRangeStartOffset p, Part.byteRangeEndOffset p)
    | None =>
        match fragments w !! frag with
        | Some f => (Fragment.url f, Fragment.byteRangeStartOffset f,
                     Fragment.byteRangeEndOffset f)
        | None => (None, None, None)
        end
    end in
  match start, end_ with
  | Some s, Some e =>
      if Number_isFinite start && Number_isFinite end_
      then FragmentLoaderContext.mk frag part "arraybuffer" url s e
      else FragmentLoaderContext.mk frag part "arraybuffer" url (Zero false) (Zero false)
  | _, _ => FragmentLoaderContext.mk frag part "arraybuffer" url (Zero false) (Zero false)
  end.

Definition mkLoadError (details : string) (frag : FragId) (part : option Part.t)
    (response : option Response.t) (networkDetails : JsAny)
    (message : option string) : Reason :=
  ReasonLoadError
    (LoadError.mk
       (FragLoadFailResult.mk NETWORK_ERROR details false frag part response
          networkDetails)
       message).

Definition updateStatsFromPart (frag : FragId) (part : Part.t) (w : World) : World :=
  match fragments w !! frag with
  | Some f =>
      match statsHeap w !! Fragment.stats f, statsHeap w !! Part.stats part with
      | Some fragStats, Some partStats =>
          with_statsHeap
            <[Fragment.stats f :=
                updateStats fragStats partStats (Fragment.duration f) (Part.duration part)]> w
      | _, _ => w
      end
  | None => w
  end.

(** [loadPart]: the executor of the part promise.  With no transport in
    [loader], [loader.stats = part.stats] raises a TypeError, which rejects
    the part promise and, through [.catch(reject)], the chain. *)
Definition loadPart (c : Chain.t) (index : nat) (part : Part.t) (w : World) : World :=
  match Chain.loader c with
  | Some l =>
      let loaderContext := createLoaderContext (Chain.frag c) (Some part) w in
      let w := set_loader_stats l (Part.stats part) w in
      loader_load l loaderContext (Chain.loaderConfig c) (PartCallbacks c index part l) w
  | None => reject (Chain.promise c) ReasonTypeError w
  end.

(** [loadPartIndex(index)]: reading [partList[index]] out of range gives
    [undefined], and [loadPart] then raises a TypeError in its executor. *)
Definition loadPartIndex (c : Chain.t) (index : nat) (w : World) : World :=
  match Chain.partList c !! index with
  | Some part => loadPart c index part w
  | None => reject (Chain.promise c) ReasonTypeError w
  end.

(** [fragLoadedEndData[part.index] = partLoadedData] *)
Definition record_part (p : PromiseId) (key : Z) (d : FragLoadedData.t) : World -> World :=
  with_results (alter (fun r =>
    FragLoadedEndData.mk (FragLoadedEndData.frag r) (FragLoadedEndData.partsLoaded r)
      (<[key := d]> (FragLoadedEndData.byIndex r))) p).

(** The [then] handler of a part promise. *)
Definition partLoaded (c : Chain.t) (index : nat) (part : Part.t)
    (partLoadedData : FragLoadedData.t) (w : World) : World :=
  let frag := Chain.frag c in
  let w := record_part (Chain.promise c) (Part.index part) partLoadedData w in
  if Z.of_nat (length (Chain.partList c)) - 1 <=? Z.of_nat index then
    let w := resetLoader frag (Chain.loader c) w in
    let w := set_frag_aborted frag true w in
    reject (Chain.promise c)
      (mkLoadError INTERNAL_ABORTED frag (FragLoadedData.part partLoadedData) None
         (FragLoadedData.networkDetails partLoadedData) None) w
  else
    match Chain.partList c !! (index + 1)%nat with
    | Some nextPart =>
        if decide (Part.fragment nextPart = frag) then
          loadPartIndex c (index + 1)%nat w
        else
          let w := resetLoader frag (Chain.loader c) w in
          resolve (Chain.promise c) (results w !! Chain.promise c) w
    | None => reject (Chain.promise c) ReasonTypeError w
    end.

(** The callbacks of a part request. *)
Definition part_onSuccess (c : Chain.t) (index : nat) (part : Part.t)
    (data : ArrayBuffer) (networkDetails : JsAny) (w : World) : World :=
  let frag := Chain.frag c in
  let w := updateStatsFromPart frag part w in
  let partLoadedData := FragLoadedData.mk frag (Some part) data networkDetails in
  let w := emit (Progress partLoadedData) w in
  partLoaded c index part partLoadedData w.

Definition part_onError (c : Chain.t) (part : Part.t) (loader : LoaderId)
    (response : Response.t) (networkDetails : JsAny) (w : World) : World :=
  let w := resetLoader (Chain.frag c) (Some loader) w in
  reject (Chain.promise c)
    (mkLoadError FRAG_LOAD_ERROR (Chain.frag c) (Some part) (Some response)
       networkDetails None) w.

Definition part_onAbort (c : Chain.t) (part : Part.t) (loader : LoaderId)
    (networkDetails : JsAny) (w : World) : World :=
  let w :=
    match statsHeap w !! Part.stats part with
    | Some partStats => set_frag_aborted (Chain.frag c) (LoaderStats.aborted partStats) w
    | None => w
    end in
  let w := resetLoader (Chain.frag c) (Some loader) w in
  reject (Chain.promise c)
    (mkLoadError INTERNAL_ABORTED (Chain.frag c) (Some part) None networkDetails None) w.

Definition part_onTimeout (c : Chain.t) (part : Part.t) (loader : LoaderId)
    (networkDetails : JsAny) (w : World) : World :=
  let w := resetLoader (Chain.frag c) (Some loader) w in
  reject (Chain.promise c)
    (mkLoadError FRAG_LOAD_TIMEOUT (Chain.frag c) (Some part) None networkDetails None) w.

(** The callback of the timer armed by [loadFragmentParts]. *)
Definition watchdog (c : Chain.t) (w : World) : World :=
  let w := resetLoader (Chain.frag c) (Chain.loader c) w in
  match Chain.loader c with
  | Some l =>
      reject (Chain.promise c)
        (mkLoadError FRAG_LOAD_TIMEOUT (Chain.frag c)
           (Chain.partList c !! Chain.partIndex c) None (loader_native l w) None) w
  | None => w
  end.

Definition loadFragmentParts (partList : list Part.t) (partIndex : nat) (frag : FragId)
    (loaderConfig : LoaderConfiguration.t) (w : World) : PromiseId * World :=
  let '(promise, w) := new_promise w in
  let c := Chain.mk partList partIndex frag (FragmentLoader.loader (this w))
             loaderConfig promise in
  let '(id, w) := setTimeout (Watchdog c) (LoaderConfiguration.timeout loaderConfig) w in
  let w := set_partLoadTimeout id w in
  let w := with_results <[promise := FragLoadedEndData.mk frag (Some []) ∅]> w in
  (promise, loadPartIndex c partIndex w).

(** A URL is falsy when it is missing or empty. *)
Definition falsy_url (u : option string) : bool :=
  match u with
  | Some s => bool_decide (s = EmptyString)
  | None => true
  end.

(** Lines 63 to 127 of [load]: the whole-fragment request. *)
Definition loadFragment (frag : FragId) (fragObj : Fragment.t) (loader : LoaderId)
    (loaderConfig : LoaderConfiguration.t) (onProgress : bool) (w : World)
    : PromiseId * World :=
  let url := Fragment.url fragObj in
  if falsy_url url then
    let '(p, w) := new_promise w in
    (p, reject p
          (mkLoadError FRAG_LOAD_ERROR frag None None JsNull
             (Some ("Fragment does not have a "
                    ++ (if falsy_url url then "url" else "part list"))%string)) w)
  else
    let loaderContext := createLoaderContext frag None w in
    let '(p, w) := new_promise w in
    let w := set_loader_stats loader (Fragment.stats fragObj) w in
    (p, loader_load loader loaderContext loaderConfig
          (FragCallbacks frag loader p onProgress) w).

(** [load]: the promise it returns and the state it leaves, or the
    TypeError that [this.abort()] raised, in which case nothing was written.
    [None] only for a fragment reference that names no object. *)
Definition load (frag : FragId) (levelDetails : option LevelDetails.t)
    (targetBufferTime : option number) (onProgress : bool) (w : World)
    : option (Outcome (PromiseId * World)) :=
  match fragments w !! frag with
  | None => None
  | Some fragObj =>
      let config := FragmentLoader.config (this w) in
      match abort w with
      | Threw => Some Threw
      | Returned w =>
          let cls :=
            match HlsConfig.fLoader config with
            | Some c => c
            | None => HlsConfig.loader config
            end in
          let '(loader, w) := new_loader cls w in
          let w := set_frag_loader frag (Some loader) w in
          let w := set_this_loader (Some loader) w in
          let loaderConfig :=
            LoaderConfiguration.mk (HlsConfig.fragLoadingTimeOut config) 0 0
              (HlsConfig.fragLoadingMaxRetryTimeout config) MIN_CHUNK_SIZE in
          let targetBufferTime :=
            Math_max (Fragment.start fragObj) (or_zero targetBufferTime) in
          Some (Returned
            match levelDetails ≫= LevelDetails.partList, onProgress with
            | Some partList, true =>
                let partIndex := findIndependentPart partList frag targetBufferTime in
                if -1 <? partIndex then
                  loadFragmentParts partList (Z.to_nat partIndex) frag loaderConfig w
                else if falsy_url (Fragment.url fragObj) then
                  let w := resetLoader frag (FragmentLoader.loader (this w)) w in
                  let '(p, w) := new_promise w in
                  (p, resolve p None w)
                else loadFragment frag fragObj loader loaderConfig onProgress w
            | _, _ => loadFragment frag fragObj loader loaderConfig onProgress w
            end)
      end
  end.

(** The callbacks of the whole-fragment request. *)
Definition frag_onSuccess (frag : FragId) (loader : LoaderId) (p : PromiseId)
    (w : World) : World :=
  let w := resetLoader frag (Some loader) w in
  resolve p (Some (FragLoadedEndData.mk frag None ∅)) w.

Definition frag_onError (frag : FragId) (loader : LoaderId) (p : PromiseId)
    (response : Response.t) (networkDetails : JsAny) (w : World) : World :=
  let w := resetLoader frag (Some loader) w in
  reject p (mkLoadError FRAG_LOAD_ERROR frag None (Some response) networkDetails None) w.

Definition frag_onAbort (frag : FragId) (loader : LoaderId) (p : PromiseId)
    (networkDetails : JsAny) (w : World) : World :=
  let w := resetLoader frag (Some loader) w in
  reject p (mkLoadError INTERNAL_ABORTED frag None None networkDetails None) w.

Definition frag_onTimeout (frag : FragId) (loader : LoaderId) (p : PromiseId)
    (networkDetails : JsAny) (w : World) : World :=
  let w := resetLoader frag (Some loader) w in
  reject p (mkLoadError FRAG_LOAD_TIMEOUT frag None None networkDetails None) w.

Definition frag_onProgress (frag : FragId) (onProgress : bool) (data : ArrayBuffer)
    (networkDetails : JsAny) (w : World) : World :=
  if onProgress then emit (Progress (FragLoadedData.mk frag None data networkDetails)) w
  else w.

(** ** The environment

    The consumer calls [load] and [abort]; a transport updates the
    statistics record it was given and its diagnostic handle, and calls
    back; a timer fires once its delay has elapsed; time passes. *)
Inductive Event :=
  | CallLoad (frag : FragId) (levelDetails : option LevelDetails.t)
      (targetBufferTime : option number) (onProgress : bool)
  | CallAbort
  | TransportUpdate (l : LoaderId) (stats : LoaderStats.t) (native : JsAny)
  | OnSuccess (l : LoaderId) (data : ArrayBuffer) (networkDetails : JsAny)
  | OnError (l : LoaderId) (response : Response.t) (networkDetails : JsAny)
  | OnAbort (l : LoaderId) (networkDetails : JsAny)
  | OnTimeout (l : LoaderId) (networkDetails : JsAny)
  | OnProgress (l : LoaderId) (data : ArrayBuffer) (networkDetails : JsAny)
  | TimerFire (id : Z)
  | Tick (dt : Z).

(** Modelled from the spec: a transport calls back only for a request in
    flight, a terminal callback ends the request, and once [abort()] has
    been signalled the transport answers through its abort callback. *)
Definition in_flight (l : LoaderId) (w : World) : option (LoaderCallbacks * bool) :=
  match transports w !! l with
  | Some t =>
      match Transport.callbacks t with
      | Some cbs => Some (cbs, Transport.aborting t)
      | None => None
      end
  | None => None
  end.

Definition end_request (l : LoaderId) : World -> World :=
  with_transports (alter (fun t =>
    Transport.mk (Transport.stats t) None (Transport.aborting t) (Transport.native t)
      (Transport.context t)) l).

Definition transport_update (l : LoaderId) (stats : LoaderStats.t) (native : JsAny)
    (w : World) : option World :=
  match transports w !! l with
  | Some t =>
      let w :=
        with_transports
          <[l := Transport.mk (Transport.stats t) (Transport.callbacks t)
                   (Transport.aborting t) native (Transport.context t)]> w in
      Some match Transport.stats t with
           | Some sid => with_statsHeap <[sid := stats]> w
           | None => w
           end
  | None => None
  end.

(** One event.  A call of [load] or [abort] that raises leaves the state as
    it was: the exception reaches the consumer, and the run goes on. *)
Definition step (w : World) (e : Event) : option World :=
  match e with
  | CallLoad frag levelDetails targetBufferTime onProgress =>
      match load frag levelDetails targetBufferTime onProgress w with
      | Some (Returned (_, w')) => Some w'
      | Some Threw => Some w
      | None => None
      end
  | CallAbort =>
      match abort w with
      | Returned w' => Some w'
      | Threw => Some w
      end
  | TransportUpdate l stats native => transport_update l stats native w
  | OnSuccess l data nd =>
      match in_flight l w with
      | Some (FragCallbacks frag loader p _, false) =>
          Some (frag_onSuccess frag loader p (end_request l w))
      | Some (PartCallbacks c index part _, false) =>
          Some (part_onSuccess c index part data nd (end_request l w))
      | _ => None
      end
  | OnError l response nd =>
      match in_flight l w with
      | Some (FragCallbacks frag loader p _, false) =>
          Some (frag_onError frag loader p response nd (end_request l w))
      | Some (PartCallbacks c _ part loader, false) =>
          Some (part_onError c part loader response nd (end_request l w))
      | _ => None
      end
  | OnTimeout l nd =>
      match in_flight l w with
      | Some (FragCallbacks frag loader p _, false) =>
          Some (frag_onTimeout frag loader p nd (end_request l w))
      | Some (PartCallbacks c _ part loader, false) =>
          Some (part_onTimeout c part loader nd (end_request l w))
      | _ => None
      end
  | OnAbort l nd =>
      match in_flight l w with
      | Some (FragCallbacks frag loader p _, _) =>
          Some (frag_onAbort frag loader p nd (end_request l w))
      | Some (PartCallbacks c _ part loader, _) =>
          Some (part_onAbort c part loader nd (end_request l w))
      | None => None
      end
  | OnProgress l data nd =>
      match in_flight l w with
      | Some (FragCallbacks frag _ _ onProgress, false) =>
          Some (frag_onProgress frag onProgress data nd w)
      | Some (PartCallbacks _ _ _ _, false) => Some w
      | _ => None
      end
  | TimerFire id =>
      match timers w !! id with
      | Some (Timer.mk deadline (Watchdog c)) =>
          if deadline <=? now w then Some (watchdog c (with_timers (delete id) w))
          else None
      | None => None
      end
  | Tick dt => if 0 <=? dt then Some (advance dt w) else None
  end.

Fixpoint run (w : World) (es : list Event) : option World :=
  match es with
  | [] => Some w
  | e :: es' =>
      match step w e with
      | Some w' => run w' es'
      | None => None
      end
  end.

(** The state of a fresh [FragmentLoader] over a heap of fragments and
    statistics records. *)
Definition init (config : HlsConfig.t) (frags : gmap FragId Fragment.t)
    (stats : gmap StatsId LoaderStats.t) : World :=
  mkWorld (FragmentLoader.mk config None (-1)) frags stats ∅ ∅ ∅ ∅ [] 0 0%nat 1 0%nat.


(** ** Vocabulary of the statements *)

(** The promise a callbacks object settles. *)
Definition cb_promise (cbs : LoaderCallbacks) : PromiseId :=
  match cbs with
  | FragCallbacks _ _ p _ => p
  | PartCallbacks c _ _ _ => Chain.promise c
  end.

Definition part_done (l : LoaderId) (x : Completion.t) : list Event :=
  [Tick (Completion.elapsed x);
   TransportUpdate l (Completion.stats x) (Completion.native x);
   OnSuccess l (Completion.data x) (Completion.networkDetails x)].

Definition parts_done (l : LoaderId) (xs : list Completion.t) : list Event :=
  concat (map (part_done l) xs).

(** The per-part result [onSuccess] builds for a part. *)
Definition part_result (frag : FragId) (part : Part.t) (x : Completion.t)
    : FragLoadedData.t :=
  FragLoadedData.mk frag (Some part) (Completion.data x) (Completion.networkDetails x).

(** The properties written into the result object by the completions [xs]
    of the parts [ps], in order. *)
Fixpoint recorded (frag : FragId) (ps : list Part.t) (xs : list Completion.t)
    (acc : gmap Z FragLoadedData.t) : gmap Z FragLoadedData.t :=
  match ps, xs with
  | p :: ps', x :: xs' =>
      recorded frag ps' xs' (<[Part.index p := part_result frag p x]> acc)
  | _, _ => acc
  end.

Definition timer_effect (e : Effect) : bool :=
  match e with
  | SetTimeout _ _ | ClearTimeout _ => true
  | _ => false
  end.

Definition abort_effect (e : Effect) : bool :=
  match e with
  | LoaderAbort _ => true
  | _ => false
  end.

Definition request_effect (e : Effect) : bool :=
  match e with
  | LoaderLoad _ _ _ => true
  | _ => false
  end.

Definition new_effect (e : Effect) : bool :=
  match e with
  | NewLoader _ _ => true
  | _ => false
  end.

(** A chain of parts is waiting for the request of the part at position
    [i]: the request is in flight on the tracked transport [l], the promise
    is pending, the result object holds the properties [A], the watchdog
    armed at the start is still set with deadline [D], and since the
    effects [E0] no timer was set or cleared and no transport aborted. *)
Record chain_at (w : World) (c : Chain.t) (l : LoaderId) (i : nat) (part : Part.t)
    (A : gmap Z FragLoadedData.t) (D : Z) (E0 : list Effect) : Prop := {
  ca_loader : Chain.loader c = Some l;
  ca_part : Chain.partList c !! i = Some part;
  ca_transport : exists t,
    transports w !! l = Some t /\
    Transport.callbacks t = Some (PartCallbacks c i part l) /\
    Transport.aborting t = false /\
    is_Some (Transport.context t);
  ca_tracked : FragmentLoader.loader (this w) = Some l;
  ca_pending : promises w !! Chain.promise c = Some Pending;
  ca_results : results w !! Chain.promise c
               = Some (FragLoadedEndData.mk (Chain.frag c) (Some []) A);
  ca_timer : timers w !! FragmentLoader.partLoadTimeout (this w)
             = Some (Timer.mk D (Watchdog c));
  ca_effects : exists es,
    effects w = E0 ++ es /\
    forallb (fun e => negb (timer_effect e || abort_effect e || new_effect e)) es = true
}.

(** [abort] returns: no transport is tracked, or the tracked one has been
    given a request, so that its [context] can be read. *)
Definition tracked_has_context (w : World) : bool :=
  match FragmentLoader.loader (this w) with
  | Some l => bool_decide (is_Some (loader_context l w))
  | None => true
  end.

(** The state [abort] leaves when it returns: the tracked transport, if
    any, has been told to abort. *)
Definition after_abort (w : World) : World :=
  match FragmentLoader.loader (this w) with
  | Some l => loader_abort l w
  | None => w
  end.

(** The fragment's [loader] field. *)
Definition frag_loader (w : World) (frag : FragId) : option (option LoaderId) :=
  Fragment.loader <$> fragments w !! frag.

(** The transport is released: neither the fragment nor the loader keeps a
    reference to one, and the timer named by [partLoadTimeout] is not set. *)
Definition released (w : World) (frag : FragId) : Prop :=
  frag_loader w frag = Some None /\
  FragmentLoader.loader (this w) = None /\
  timers w !! FragmentLoader.partLoadTimeout (this w) = None.

(** The effects of [load] up to the arming of the watchdog. *)
Definition chain_prologue (w : World) : list Effect :=
  let config := FragmentLoader.config (this w) in
  effects w
  ++ match FragmentLoader.loader (this w) with
     | Some l0 => [LoaderAbort l0]
     | None => []
     end
  ++ [NewLoader (match HlsConfig.fLoader config with
                 | Some cls => cls
                 | None => HlsConfig.loader config
                 end) (nextLoader w);
      SetTimeout (nextTimer w) (HlsConfig.fragLoadingTimeOut config)].

Definition loaderConfig_of (config : HlsConfig.t) : LoaderConfiguration.t :=
  LoaderConfiguration.mk (HlsConfig.fragLoadingTimeOut config) 0 0
    (HlsConfig.fragLoadingMaxRetryTimeout config) MIN_CHUNK_SIZE.

Definition chain_of (w : World) (partList : list Part.t) (s : nat) (frag : FragId)
    : Chain.t :=
  Chain.mk partList s frag (Some (nextLoader w))
    (loaderConfig_of (FragmentLoader.config (this w))) (nextPromise w).

Definition elapsed_total (xs : list Completion.t) : Z :=
  foldr (fun x acc => Completion.elapsed x + acc) 0 xs.

(** The effects added between two states of a run. *)
Definition effects_since (w w' : World) : list Effect :=
  drop (length (effects w)) (effects w').

(** The envelope of the structural failure of [load]. *)
Definition no_url_error (frag : FragId) : Reason :=
  ReasonLoadError
    (LoadError.mk
       (FragLoadFailResult.mk NETWORK_ERROR FRAG_LOAD_ERROR false frag None None JsNull)
       (Some "Fragment does not have a url"%string)).

(** What [load] does before it chooses a protocol: the transport in
    [this.loader], if any, is told to abort, and a transport of the
    configured class is created. *)
Definition load_prologue (w : World) : list Effect :=
  match FragmentLoader.loader (this w) with
  | Some l0 => [LoaderAbort l0]
  | None => []
  end
  ++ [NewLoader (match HlsConfig.fLoader (FragmentLoader.config (this w)) with
                 | Some cls => cls
                 | None => HlsConfig.loader (FragmentLoader.config (this w))
                 end) (nextLoader w)].

(** ** Invariants of the reachable states *)

(** The envelope every rejection of [load] carries. *)
Definition envelope_ok (r : Reason) : Prop :=
  match r with
  | ReasonLoadError e =>
      FragLoadFailResult.type (LoadError.data e) = NETWORK_ERROR /\
      (FragLoadFailResult.details (LoadError.data e) = FRAG_LOAD_ERROR \/
       FragLoadFailResult.details (LoadError.data e) = FRAG_LOAD_TIMEOUT \/
       FragLoadFailResult.details (LoadError.data e) = INTERNAL_ABORTED) /\
      FragLoadFailResult.fatal (LoadError.data e) = false
  | ReasonTypeError => False
  end.

(** The callbacks in flight on the transport [l] were built for [l], and
    those of a part request name a part of their list. *)
Definition callbacks_ok (l : LoaderId) (cbs : LoaderCallbacks) : Prop :=
  match cbs with
  | FragCallbacks _ loader _ _ => loader = l
  | PartCallbacks c i part loader =>
      loader = l /\ Chain.loader c = Some l /\ Chain.partList c !! i = Some part
  end.

(** A transport is active when it has a request in flight for a load whose
    promise is still pending and it has not been told to abort. *)
Definition active (w : World) (l : LoaderId) : Prop :=
  exists t cbs, transports w !! l = Some t /\
    Transport.callbacks t = Some cbs /\ Transport.aborting t = false /\
    promises w !! cb_promise cbs = Some Pending.

Record Inv (w : World) : Prop := {
  inv_rejected : forall p r, promises w !! p = Some (Rejected r) -> envelope_ok r;
  inv_callbacks : forall l t cbs,
    transports w !! l = Some t -> Transport.callbacks t = Some cbs ->
    callbacks_ok l cbs /\ (cb_promise cbs < nextPromise w)%nat;
  inv_transports : forall l t, transports w !! l = Some t -> (l < nextLoader w)%nat;
  inv_tracked : forall l, FragmentLoader.loader (this w) = Some l ->
    (l < nextLoader w)%nat;
  inv_timers : forall id d c, timers w !! id = Some (Timer.mk d (Watchdog c)) ->
    exists l, Chain.loader c = Some l /\ (l < nextLoader w)%nat /\
      forall t cbs, transports w !! l = Some t -> Transport.callbacks t = Some cbs ->
        cb_promise cbs = Chain.promise c;
  inv_single : forall l t cbs,
    transports w !! l = Some t -> Transport.callbacks t = Some cbs ->
    Transport.aborting t = false ->
    promises w !! cb_promise cbs = Some Pending ->
    FragmentLoader.loader (this w) = Some l
}.

(** The state of [load] once the new transport is installed. *)
Record installed (W : World) (l : LoaderId) : Prop := {
  ins_inv : Inv W;
  ins_tracked : FragmentLoader.loader (this W) = Some l;
  ins_idle : exists t, transports W !! l = Some t /\ Transport.callbacks t = None /\
                       Transport.aborting t = false;
  ins_fresh : (l < nextLoader W)%nat;
  ins_timers : forall id d c, timers W !! id = Some (Timer.mk d (Watchdog c)) ->
                 Chain.loader c <> Some l
}.

(** What the rest of [load] leaves of the state [W] in which the new
    transport [l] is installed: it adds effects that neither create nor
    abort a transport, keeps [l] tracked and assigned to the fragment (or,
    for a fragment hint, releases it and resolves with null), and touches
    no other transport and no other promise than the one it returns. *)
Record load_outcome (W w' : World) (l : LoaderId) (frag : FragId) (p : PromiseId)
    : Prop := {
  lo_effects : exists rest,
    effects w' = effects W ++ rest /\
    forallb (fun e => negb (new_effect e || abort_effect e)) rest = true;
  lo_tracked :
    (FragmentLoader.loader (this w') = Some l /\
     frag_loader w' frag = Some (Some l)) \/
    (FragmentLoader.loader (this w') = None /\
     frag_loader w' frag = Some None /\
     promises w' !! p = Some (Resolved None));
  lo_transports : forall l0, l0 <> l -> transports w' !! l0 = transports W !! l0;
  lo_promises : forall q, q <> p -> promises w' !! q = promises W !! q;
  lo_promise : is_Some (promises w' !! p)
}.

Definition reachable (w : World) : Prop :=
  exists config frags stats es, run (init config frags stats) es = Some w.

(** ** Sample data

    A fragment [0] without URL (a live hint) and a fragment [1] with one,
    their statistics records, and part lists over them. *)

Definition ex_stats : LoaderStats.t :=
  LoaderStats.mk false (Zero false) (Zero false)
    (Loading.mk (Zero false) (Zero false) (Zero false)).

Definition ex_part_stats (loaded total : Z) : LoaderStats.t :=
  LoaderStats.mk false (of_Z loaded) (of_Z total)
    (Loading.mk (of_Z 10) (of_Z 20) (of_Z 30)).

Definition ex_frags : gmap FragId Fragment.t :=
  <[0%nat := Fragment.mk None (Zero false) (of_Z 4) None None 0%nat None]>
    (<[1%nat := Fragment.mk (Some "seg1.m4s"%string) (of_Z 4) (of_Z 4) None None 1%nat None]>
       ∅).

Definition ex_heap : gmap StatsId LoaderStats.t :=
  <[0%nat := ex_stats]>
    (<[1%nat := ex_stats]>
       (<[10%nat := ex_part_stats 1000 1000]>
          (<[11%nat := ex_part_stats 1000 1000]>
             (<[12%nat := ex_part_stats 1000 1000]> ∅)))).

Definition ex_part (frag : FragId) (index start : Z) (independent : bool)
    (stats : StatsId) : Part.t :=
  Part.mk frag index (of_Z start) (of_Z 1) independent (Some "part.m4s"%string)
    None None stats.

(** Three parts of fragment [0] followed by a part of fragment [1]. *)
Definition ex_partList : list Part.t :=
  [ex_part 0 0 0 true 10; ex_part 0 1 1 false 11; ex_part 0 2 2 false 12;
   ex_part 1 0 3 true 10]%nat.


(** A window in which fragment [0] has no independent part. *)
Definition ex_partList_hint : list Part.t :=
  [ex_part 1 0 0 true 10; ex_part 0 0 1 false 11]%nat.

(** Parts starting at 0, 2, 4 and 6, those at positions 1 and 3
    independent, all of fragment [0]. *)
Definition ex_partList_times : list Part.t :=
  [ex_part 0 0 0 false 10; ex_part 0 1 2 true 11; ex_part 0 2 4 false 12;
   ex_part 0 3 6 true 10]%nat.

Definition ex_config : HlsConfig.t := HlsConfig.mk None 7%nat 5000 64000.

Definition ex_world : World := init ex_config ex_frags ex_heap.

Definition ex_details (partList : list Part.t) : option LevelDetails.t :=
  Some (LevelDetails.mk (Some partList)).

(** A part request that takes [elapsed] time units. *)
Definition ex_completion (elapsed : Z) (n : nat) : Completion.t :=
  Completion.mk elapsed (ex_part_stats 1000 1000) (JsRef 100) [] (JsRef n).

(** The state after the events [es], from the sample world. *)
Definition ex_after (es : list Event) : World :=
  match run ex_world es with
  | Some w => w
  | None => ex_world
  end.

(** The statistics of the arithmetic example: nothing loaded yet, and a
    part that reports 1000 loaded bytes out of [total]. *)
Definition ex_merge_world (total : Z) : World :=
  init ex_config ex_frags (<[10%nat := ex_part_stats 1000 total]> ex_heap).

(** ** Vocabulary of the further properties *)

(** The rational a finite number stands for. *)
Definition value (x : number) : option Q :=
  match x with
  | Zero _ => Some 0%Q
  | Num q => Some q
  | _ => None
  end.

(** The finite number [x] is the integer [z]. *)
Definition is_int (x : number) (z : Z) : Prop :=
  exists q, value x = Some q /\ (q == inject_Z z)%Q.

(** The segment [createLoaderContext] reads the URL and the byte range
    from: the part when there is one, the fragment otherwise. *)
Definition segment_url (f : Fragment.t) (part : option Part.t) : option string :=
  match part with
  | Some p => Part.url p
  | None => Fragment.url f
  end.

Definition segment_range (f : Fragment.t) (part : option Part.t)
    : option number * option number :=
  match part with
  | Some p => (Part.byteRangeStartOffset p, Part.byteRangeEndOffset p)
  | None => (Fragment.byteRangeStartOffset f, Fragment.byteRangeEndOffset f)
  end.

(** Promise identifiers in use are below the next one to be handed out. *)
Definition promises_bounded (w : World) : Prop :=
  forall p, is_Some (promises w !! p) -> (p < nextPromise w)%nat.

(** From [w] to [w'] no promise known to [w] is dropped or overwritten once
    settled; promises are only added at new identifiers. *)
Record promises_kept (w w' : World) : Prop := {
  pk_next : (nextPromise w <= nextPromise w')%nat;
  pk_settled : forall p s, (p < nextPromise w)%nat ->
    promises w !! p = Some s -> s <> Pending -> promises w' !! p = Some s;
  pk_present : forall p, (p < nextPromise w)%nat ->
    is_Some (promises w !! p) -> is_Some (promises w' !! p);
  pk_new : forall p, is_Some (promises w' !! p) ->
    is_Some (promises w !! p) \/ (nextPromise w <= p < nextPromise w')%nat
}.

(** A whole-fragment request is in flight on the tracked transport [l]
    for the pending promise [p]; [op] tells whether the caller gave a
    progress callback. *)
Record whole_at (w : World) (l : LoaderId) (frag : FragId) (p : PromiseId)
    (op : bool) : Prop := {
  wa_transport : exists t,
    transports w !! l = Some t /\
    Transport.callbacks t = Some (FragCallbacks frag l p op) /\
    Transport.aborting t = false /\
    is_Some (Transport.context t);
  wa_tracked : FragmentLoader.loader (this w) = Some l;
  wa_pending : promises w !! p = Some Pending;
  wa_frag : is_Some (fragments w !! frag)
}.

(** No part chain applies to a call of [load]: there is no part list, or
    no progress callback, or no independent part of the fragment at or
    before the target. *)
Definition no_chain (fragObj : Fragment.t) (frag : FragId)
    (levelDetails : option LevelDetails.t) (targetBufferTime : option number)
    (onProgress : bool) : Prop :=
  levelDetails ≫= LevelDetails.partList = None \/ onProgress = false \/
  exists partList,
    levelDetails ≫= LevelDetails.partList = Some partList /\
    findIndependentPart partList frag
      (Math_max (Fragment.start fragObj) (or_zero targetBufferTime)) = -1.

(** The request a chain issues for a part. *)
Definition part_request (w : World) (c : Chain.t) (l : LoaderId) (p : Part.t) : Effect :=
  LoaderLoad l (createLoaderContext (Chain.frag c) (Some p) w) (Chain.loaderConfig c).

(** The calls of a chain for the parts [ps] completed by [xs]: for each
    part its request, then the progress callback with its result. *)
Fixpoint chain_trace (w : World) (c : Chain.t) (l : LoaderId) (ps : list Part.t)
    (xs : list Completion.t) : list Effect :=
  match ps, xs with
  | p :: ps', x :: xs' =>
      part_request w c l p :: Progress (part_result (Chain.frag c) p x)
        :: chain_trace w c l ps' xs'
  | _, _ => []
  end.

(** The fragment and the transport a callbacks object was built for. *)
Definition cb_frag (cbs : LoaderCallbacks) : FragId :=
  match cbs with
  | FragCallbacks frag _ _ _ => frag
  | PartCallbacks c _ _ _ => Chain.frag c
  end.

Definition cb_loader (cbs : LoaderCallbacks) : LoaderId :=
  match cbs with
  | FragCallbacks _ loader _ _ => loader
  | PartCallbacks _ _ _ loader => loader
  end.

(** The transport [l] was given the statistics record [sid]
    ([loader.stats = ...]): what it reports is written there. *)
Definition reports_to (w : World) (l : LoaderId) (sid : StatsId) : Prop :=
  exists t, transports w !! l = Some t /\ Transport.stats t = Some sid.

(** *** Further sample data *)

(** A part with a byte range, and one whose range lacks its end. *)
Definition ex_part_ranged : Part.t :=
  Part.mk 0%nat 0 (Zero false) (of_Z 1) true (Some "part.m4s"%string)
    (Some (of_Z 100)) (Some (of_Z 200)) 10%nat.

Definition ex_part_half_range : Part.t :=
  Part.mk 0%nat 1 (of_Z 1) (of_Z 1) false (Some "part.m4s"%string)
    (Some (of_Z 200)) None 11%nat.

(** Statistics of a fragment whose earlier parts loaded from time 100 to
    200 (first byte at 120), and of a part that loaded from 250 to 300
    (first byte at 260); the part's total is unknown. *)
Definition ex_timing_heap : gmap StatsId LoaderStats.t :=
  <[0%nat := LoaderStats.mk false (of_Z 1000) (of_Z 4000)
               (Loading.mk (of_Z 100) (of_Z 120) (of_Z 200))]>
    (<[10%nat := LoaderStats.mk false (of_Z 500) (Zero false)
                   (Loading.mk (of_Z 250) (of_Z 260) (of_Z 300))]> ex_heap).

Definition ex_timing_world : World := init ex_config ex_frags ex_timing_heap.

(** Doubles at which the arithmetic is compared with the machine's: small
    integers, the doubles nearest to 0.1, 0.2, 0.4, 100.8, 200.3, 250.4 and
    300.6, the double below one half, the largest double, the smallest
    subnormal and normal ones, the infinity and NaN. *)
Definition ex_floats : list float :=
  [0; -0; 1; 3; 1000; 4000; 2.5; 12.5; 0.5; -7.25; 9007199254740992;
   0x1.999999999999ap-4; 0x1.999999999999ap-3; 0x1.999999999999ap-2;
   0x1.9333333333333p+6; 0x1.909999999999ap+7; 0x1.f4ccccccccccdp+7;
   0x1.2c9999999999ap+8; 0x1.fffffffffffffp-2; 0x1.fffffffffffffp+1023;
   0x1p-1074; 0x1p-1022; infinity; nan]%float.

Definition agrees (op : number -> number -> number) (fop : float -> float -> float)
    (x y : float) : bool :=
  same (op (of_float x) (of_float y)) (of_float (fop x y)).


(** ** Independent-part selection *)

Lemma findIndependentPart_from_spec (rest : list Part.t) (frag : FragId)
    (targetBufferTime : number) :
  forall (i independentPart : Z),
  exists n : nat,
    (n <= length rest)%nat /\
    (forall j p, (j < n)%nat -> rest !! j = Some p ->
       lt targetBufferTime (Part.start p) = false) /\
    (forall p, rest !! n = Some p -> lt targetBufferTime (Part.start p) = true) /\
    ((findIndependentPart_from rest i independentPart frag targetBufferTime
        = independentPart /\
      forall j p, (j < n)%nat -> rest !! j = Some p ->
        ~ (Part.independent p = true /\ Part.fragment p = frag))
     \/
     (exists k p,
        findIndependentPart_from rest i independentPart frag targetBufferTime
          = i + Z.of_nat k /\
        (k < n)%nat /\ rest !! k = Some p /\
        Part.independent p = true /\ Part.fragment p = frag /\
        forall j q, (k < j < n)%nat -> rest !! j = Some q ->
          ~ (Part.independent q = true /\ Part.fragment q = frag))).
Proof.
  induction rest as [|part rest IH]; intros i acc; simpl.
  - exists 0%nat. repeat split; try (intros; lia); try discriminate.
    left. split; [reflexivity | intros; lia].
  - destruct (lt targetBufferTime (Part.start part)) eqn:Hlt.
    + exists 0%nat. repeat split; try (intros; lia).
      * intros p [= <-]. exact Hlt.
      * left. split; [reflexivity | intros; lia].
    + set (acc' := if Part.independent part && bool_decide (Part.fragment part = frag)
                   then i else acc).
      destruct (IH (i + 1) acc') as (n & Hn & Hbelow & Hstop & Hres).
      exists (S n). split; [simpl; lia|]. split; [|split].
      * intros [|j] p Hj; simpl; [intros [= <-]; exact Hlt | apply Hbelow; lia].
      * intros p. simpl. apply Hstop.
      * destruct Hres as [[Heq Hnone] | (k & p & Heq & Hk & Hp & Hi & Hf & Hlater)].
        -- subst acc'.
           destruct (Part.independent part && bool_decide (Part.fragment part = frag))
             eqn:Hq.
           ++ right. exists 0%nat, part. apply andb_prop in Hq as [Hi Hf].
              apply bool_decide_eq_true in Hf.
              split; [rewrite Heq; lia|]. split; [lia|]. split; [reflexivity|].
              split; [exact Hi|]. split; [exact Hf|].
              intros [|j] q Hj; [lia|]. simpl. apply Hnone. lia.
           ++ left. split; [exact Heq|].
              intros [|j] p Hj; simpl.
              ** intros [= <-] [Hi Hf]. rewrite Hi in Hq. simpl in Hq.
                 apply bool_decide_eq_false in Hq. contradiction.
              ** apply Hnone. lia.
        -- right. exists (S k), p. split; [rewrite Heq; lia|]. split; [lia|].
           split; [exact Hp|]. split; [exact Hi|]. split; [exact Hf|].
           intros [|j] q Hj; [lia|]. simpl. apply Hlater. lia.
Qed.

(** C3. [findIndependentPart] scans the list in ascending order up to, and
    excluding, the first part whose start strictly exceeds the target
    buffer time ([n] parts are scanned; a part whose start equals the
    target is scanned), and returns the greatest scanned position whose
    part is independent and owned by [frag], or -1 when no scanned part is. *)
Theorem findIndependentPart_spec (partList : list Part.t) (frag : FragId)
    (targetBufferTime : number) :
  exists n : nat,
    (n <= length partList)%nat /\
    (forall j p, (j < n)%nat -> partList !! j = Some p ->
       lt targetBufferTime (Part.start p) = false) /\
    (forall p, partList !! n = Some p -> lt targetBufferTime (Part.start p) = true) /\
    ((findIndependentPart partList frag targetBufferTime = -1 /\
      forall j p, (j < n)%nat -> partList !! j = Some p ->
        ~ (Part.independent p = true /\ Part.fragment p = frag))
     \/
     (exists k p,
        findIndependentPart partList frag targetBufferTime = Z.of_nat k /\
        (k < n)%nat /\ partList !! k = Some p /\
        Part.independent p = true /\ Part.fragment p = frag /\
        forall j q, (k < j < n)%nat -> partList !! j = Some q ->
          ~ (Part.independent q = true /\ Part.fragment q = frag))).
Proof.
  unfold findIndependentPart.
  destruct (findIndependentPart_from_spec partList frag targetBufferTime 0 (-1))
    as (n & Hn & Hbelow & Hstop & Hres).
  exists n. split; [exact Hn|]. split; [exact Hbelow|]. split; [exact Hstop|].
  destruct Hres as [H | (k & p & Heq & H)]; [left; exact H|].
  right. exists k, p. split; [rewrite Heq; lia | exact H].
Qed.

(** A position returned by [findIndependentPart] names an independent part
    of the fragment. *)
Lemma findIndependentPart_found (partList : list Part.t) (frag : FragId)
    (targetBufferTime : number) (s : nat) :
  findIndependentPart partList frag targetBufferTime = Z.of_nat s ->
  exists part, partList !! s = Some part /\
    Part.independent part = true /\ Part.fragment part = frag.
Proof.
  unfold findIndependentPart. intros Hfind.
  destruct (findIndependentPart_from_spec partList frag targetBufferTime 0 (-1))
    as (n & _ & _ & _ & [[E _] | (k & p & E & _ & Hp & Hi & Hf & _)]).
  - rewrite Hfind in E. lia.
  - rewrite Hfind in E. assert (k = s) by lia. subst k. exists p. auto.
Qed.

(** ** Arithmetic of the statistics merge *)

Local Ltac qlra :=
  try clear NETWORK_ERROR FRAG_LOAD_ERROR FRAG_LOAD_TIMEOUT INTERNAL_ABORTED; lra.
Local Ltac qnra :=
  try clear NETWORK_ERROR FRAG_LOAD_ERROR FRAG_LOAD_TIMEOUT INTERNAL_ABORTED; nra.

Example round_quarter : Math_round (div (of_Z 1000) (of_Z 4000)) = Zero false.
Proof. reflexivity. Qed.

Example round_ties : Math_round (Num (5 # 2)) = of_Z 3 /\ Math_round (Num (- 1 # 2)) = Zero true
  /\ Math_round (Num (- 3 # 2)) = of_Z (-1).
Proof. vm_compute. auto. Qed.

Lemma canon_cases (x : number) :
  canon x = NaN \/ (exists s, canon x = Infinity s) \/ (exists s, canon x = Zero s)
  \/ (exists q, canon x = Num q /\ ~ (q == 0)%Q /\ canon (Num q) = Num q).
Proof.
  destruct x as [|s|s|q]; simpl; eauto 6.
  unfold of_Q. destruct (Qeq_bool q 0) eqn:Hq; eauto 6.
  right; right; right. exists (Qred q).
  assert (Hne : ~ (Qred q == 0)%Q).
  { rewrite Qred_correct. apply Qeq_bool_neq. exact Hq. }
  split; [reflexivity|]. split; [exact Hne|].
  simpl. unfold of_Q. destruct (Qeq_bool (Qred q) 0) eqn:Hq'.
  - apply Qeq_bool_eq in Hq'. contradiction.
  - rewrite Qcanon.Qred_involutive. reflexivity.
Qed.

Lemma not_finite_cases (x : number) :
  is_finite x = false -> x = NaN \/ exists s, x = Infinity s.
Proof. destruct x; simpl; intros H; try discriminate; eauto. Qed.

Lemma div_by_zero_not_finite (x y : number) :
  is_zero y = true -> is_finite (div x y) = false.
Proof.
  unfold is_zero, div. intros Hy.
  destruct (canon y) as [| |b|]; try discriminate.
  destruct (canon x); reflexivity.
Qed.

Lemma round_not_finite (x : number) :
  is_finite x = false -> is_finite (Math_round x) = false.
Proof.
  intros H. destruct (not_finite_cases x H) as [-> | [s ->]]; reflexivity.
Qed.

Lemma mul_not_finite (x y : number) :
  is_finite y = false -> is_finite (mul x y) = false.
Proof.
  intros H. unfold mul.
  destruct (not_finite_cases y H) as [-> | [s ->]]; simpl;
    destruct (canon x); reflexivity.
Qed.

Lemma add_not_finite (x y : number) :
  is_finite y = false -> is_finite (add x y) = false.
Proof.
  intros H. unfold add.
  destruct (not_finite_cases y H) as [-> | [s ->]]; simpl.
  - destruct (canon x); reflexivity.
  - destruct (canon x) as [|a| |]; try reflexivity.
    destruct (Bool.eqb a s); reflexivity.
Qed.

Lemma updateStats_loaded (fragStats partStats : LoaderStats.t) (fD pD : number) :
  LoaderStats.loaded (updateStats fragStats partStats fD pD)
  = add (LoaderStats.loaded fragStats) (LoaderStats.loaded partStats).
Proof. reflexivity. Qed.

Lemma updateStats_total (fragStats partStats : LoaderStats.t) (fD pD : number) :
  truthy (LoaderStats.total partStats) = true ->
  let loaded' := LoaderStats.loaded (updateStats fragStats partStats fD pD) in
  let partTotal := LoaderStats.total partStats in
  LoaderStats.total (updateStats fragStats partStats fD pD)
  = add (add loaded' partTotal)
        (mul (sub (Math_round (div fD pD)) (Math_round (div loaded' partTotal)))
             (Math_round (div loaded' (Math_round (div loaded' partTotal))))).
Proof. intros H. unfold updateStats. simpl. rewrite H. reflexivity. Qed.

Lemma of_Q_nonzero (s : bool) (q : Q) : ~ (q == 0)%Q -> of_Q s q = Num (Qred q).
Proof.
  intros H. unfold of_Q. destruct (Qeq_bool q 0) eqn:E; [|reflexivity].
  apply Qeq_bool_eq in E. contradiction.
Qed.

Lemma of_Q_zero (s : bool) (q : Q) : (q == 0)%Q -> of_Q s q = Zero s.
Proof. intros H. unfold of_Q. rewrite (Qeq_eq_bool _ _ H). reflexivity. Qed.

Lemma canon_of_Q (s : bool) (q : Q) : canon (of_Q s q) = of_Q s q.
Proof.
  unfold of_Q at 1. destruct (Qeq_bool q 0) eqn:E.
  - rewrite of_Q_zero; [reflexivity | apply Qeq_bool_eq; exact E].
  - simpl. apply Qeq_bool_neq in E.
    rewrite !of_Q_nonzero; try assumption.
    + rewrite Qcanon.Qred_involutive. reflexivity.
    + rewrite Qred_correct. exact E.
Qed.

Lemma Qfloor_zero_iff (x : Q) : Qfloor x = 0 <-> (0 <= x < 1)%Q.
Proof.
  pose proof (Qfloor_le x) as Hle. pose proof (Qlt_floor x) as Hlt.
  split.
  - intros E. rewrite E in Hle, Hlt. simpl in Hlt. split; [exact Hle | exact Hlt].
  - intros [H0 H1].
    assert (Qfloor x < 1)%Z.
    { rewrite Zlt_Qlt. eapply Qle_lt_trans; [exact Hle | exact H1]. }
    assert (0 < Qfloor x + 1)%Z.
    { rewrite Zlt_Qlt. eapply Qle_lt_trans; [exact H0 | exact Hlt]. }
    lia.
Qed.

(** Rounding a finite non-zero value gives a zero exactly on [-1/2, 1/2). *)
Lemma round_Num_is_zero (q : Q) :
  ~ (q == 0)%Q ->
  is_zero (Math_round (Num q)) = true <-> (- (1 # 2) <= q < 1 # 2)%Q.
Proof.
  intros Hq. unfold Math_round, canon. rewrite (of_Q_nonzero _ _ Hq).
  rewrite (Qfloor_comp _ (q + (1 # 2))) by (rewrite Qred_correct; reflexivity).
  remember (Qfloor (q + (1 # 2))) as z eqn:Hz.
  destruct (z =? 0)%Z eqn:E.
  - apply Z.eqb_eq in E. split; [intros _ | reflexivity].
    rewrite E in Hz. symmetry in Hz. apply Qfloor_zero_iff in Hz. clear - Hz. lra.
  - apply Z.eqb_neq in E. split.
    + unfold is_zero, canon. rewrite of_Q_nonzero; [discriminate|].
      intros H. apply E. unfold Qeq in H. simpl in H. lia.
    + intros H. exfalso. apply E. rewrite Hz. apply Qfloor_zero_iff. clear - H. lra.
Qed.

Lemma round_Num_value (q : Q) :
  ~ (q == 0)%Q ->
  is_zero (Math_round (Num q)) = false ->
  Math_round (Num q) = Num (inject_Z (Qfloor (q + (1 # 2)))).
Proof.
  intros Hq. unfold Math_round, canon. rewrite (of_Q_nonzero _ _ Hq).
  rewrite (Qfloor_comp _ (q + (1 # 2))) by (rewrite Qred_correct; reflexivity).
  destruct (Qfloor (q + (1 # 2)) =? 0)%Z; [discriminate | reflexivity].
Qed.

(** ** Rounding to the nearest double *)

Lemma pow2_pos e : (0 < pow2 e)%Q.
Proof. apply Qpower_0_lt. reflexivity. Qed.

Lemma pow2_nonneg_Z (n : Z) : 0 <= n -> (pow2 n == inject_Z (2 ^ n))%Q.
Proof. intros H. unfold pow2. rewrite Zpower_Qpower by exact H. reflexivity. Qed.

Lemma pow2_plus (a b : Z) : (pow2 (a + b) == pow2 a * pow2 b)%Q.
Proof. unfold pow2. apply Qpower_plus. discriminate. Qed.

Lemma pow2_opp (a : Z) : (pow2 (- a) == / pow2 a)%Q.
Proof. unfold pow2. apply Qpower_opp. Qed.

Lemma pow2_le (a b : Z) : a <= b -> (pow2 a <= pow2 b)%Q.
Proof. intros H. unfold pow2. apply Qpower_le_compat_l; [exact H | discriminate]. Qed.

Lemma pow2_lt (a b : Z) : a < b -> (pow2 a < pow2 b)%Q.
Proof. intros H. unfold pow2. apply Qpower_lt_compat_l; [exact H | reflexivity]. Qed.

Lemma pow2_lt_inv (a b : Z) : (pow2 a < pow2 b)%Q -> a < b.
Proof.
  intros H. destruct (Z_lt_le_dec a b) as [|Hle]; [assumption|].
  apply pow2_le in Hle. qlra.
Qed.

Lemma pow2_succ (a : Z) : (pow2 (a + 1) == 2 * pow2 a)%Q.
Proof. rewrite pow2_plus. change (pow2 1) with 2%Q. ring. Qed.

Lemma pow2_minus (a b : Z) : (pow2 (a - b) == pow2 a / pow2 b)%Q.
Proof.
  replace (a - b) with (a + - b) by lia. rewrite pow2_plus, pow2_opp. reflexivity.
Qed.

Lemma Qdiv_lt_cross (a b c d : Q) :
  (0 < b)%Q -> (0 < d)%Q -> (a * d < c * b)%Q -> (a / b < c / d)%Q.
Proof.
  intros Hb Hd H. apply Qlt_shift_div_r; [exact Hb|].
  setoid_replace (c / d * b)%Q with ((c * b) / d)%Q using relation Qeq by (field; qlra).
  apply Qlt_shift_div_l; assumption.
Qed.

Lemma Qdiv_le_cross (a b c d : Q) :
  (0 < b)%Q -> (0 < d)%Q -> (a * d <= c * b)%Q -> (a / b <= c / d)%Q.
Proof.
  intros Hb Hd H. apply Qle_shift_div_r; [exact Hb|].
  setoid_replace (c / d * b)%Q with ((c * b) / d)%Q using relation Qeq by (field; qlra).
  apply Qle_shift_div_l; assumption.
Qed.

(** [ilog2 q] is the binary exponent of a positive [q]. *)
Lemma ilog2_spec (q : Q) :
  (0 < q)%Q -> (pow2 (ilog2 q) <= q /\ q < pow2 (ilog2 q + 1))%Q.
Proof.
  intros Hq. destruct q as [n d]. unfold ilog2. cbn [Qnum Qden].
  assert (Hn : 0 < n) by (unfold Qlt in Hq; simpl in Hq; lia).
  destruct (Z.log2_spec n Hn) as [Hn1 Hn2].
  destruct (Z.log2_spec (Z.pos d) (Pos2Z.is_pos d)) as [Hd1 Hd2].
  pose proof (Z.log2_nonneg n) as Hln. pose proof (Z.log2_nonneg (Z.pos d)) as Hld.
  set (a := Z.log2 n) in *. set (b := Z.log2 (Z.pos d)) in *.
  assert (Hq' : (n # d == inject_Z n / inject_Z (Z.pos d))%Q) by apply Qmake_Qdiv.
  assert (Hdpos : (0 < inject_Z (Z.pos d))%Q) by reflexivity.
  assert (Ha : (pow2 a <= inject_Z n /\ inject_Z n < 2 * pow2 a)%Q).
  { rewrite <- pow2_succ. rewrite !pow2_nonneg_Z by lia. rewrite <- Zle_Qle, <- Zlt_Qlt.
    replace (a + 1) with (Z.succ a) by lia. auto. }
  assert (Hb : (pow2 b <= inject_Z (Z.pos d) /\ inject_Z (Z.pos d) < 2 * pow2 b)%Q).
  { rewrite <- pow2_succ. rewrite !pow2_nonneg_Z by lia. rewrite <- Zle_Qle, <- Zlt_Qlt.
    replace (b + 1) with (Z.succ b) by lia. auto. }
  pose proof (pow2_pos a) as HA. pose proof (pow2_pos b) as HB.
  set (N := inject_Z n) in *. set (D := inject_Z (Z.pos d)) in *.
  set (A := pow2 a) in *. set (B := pow2 b) in *.
  assert (Hlow : (pow2 (a - b - 1) < n # d)%Q).
  { replace (a - b - 1) with (a - (b + 1)) by lia.
    rewrite pow2_minus, pow2_succ, Hq'. fold A B.
    apply Qdiv_lt_cross; [qlra | exact Hdpos | qnra]. }
  assert (Hhigh : (n # d < pow2 (a - b + 1))%Q).
  { replace (a - b + 1) with ((a + 1) - b) by lia.
    rewrite pow2_minus, pow2_succ, Hq'. fold A B.
    apply Qdiv_lt_cross; [exact Hdpos | qlra | qnra]. }
  destruct (Qle_bool (pow2 (a - b)) (n # d)) eqn:E.
  - apply Qle_bool_iff in E. split; assumption.
  - replace (a - b - 1 + 1) with (a - b) by lia. split; [qlra|].
    apply Qnot_le_lt. intros H. apply Qle_bool_iff in H. congruence.
Qed.

(** The exponent is the only one: a bound by powers of two fixes it. *)
Lemma ilog2_unique (q : Q) (k : Z) :
  (pow2 k <= q)%Q -> (q < pow2 (k + 1))%Q -> ilog2 q = k.
Proof.
  intros H1 H2. pose proof (pow2_pos k) as Hk.
  destruct (ilog2_spec q) as [H3 H4]; [qlra|].
  assert (ilog2 q < k + 1) by (apply pow2_lt_inv; qlra).
  assert (k < ilog2 q + 1) by (apply pow2_lt_inv; qlra).
  lia.
Qed.

Lemma round_half_even_bounds (x : Q) :
  (inject_Z (round_half_even x) <= x + (1 # 2) /\ x - (1 # 2) <= inject_Z (round_half_even x))%Q
  /\ Qfloor x <= round_half_even x <= Qfloor x + 1.
Proof.
  pose proof (Qfloor_le x) as Hle. pose proof (Qlt_floor x) as Hlt.
  rewrite inject_Z_plus in Hlt. change (inject_Z 1) with 1%Q in Hlt.
  unfold round_half_even.
  destruct (Qcompare_spec (x - inject_Z (Qfloor x)) (1 # 2)) as [E|E|E].
  - destruct (Z.even (Qfloor x)); split; try lia;
      rewrite ?inject_Z_plus; change (inject_Z 1) with 1%Q; qlra.
  - split; [qlra | lia].
  - split; [|lia]. rewrite inject_Z_plus. change (inject_Z 1) with 1%Q. qlra.
Qed.

Lemma round_half_even_Z (n : Z) : round_half_even (inject_Z n) = n.
Proof.
  unfold round_half_even. rewrite Qfloor_Z.
  destruct (Qcompare_spec (inject_Z n - inject_Z n) (1 # 2)) as [E|E|E];
    [qlra | reflexivity | qlra].
Qed.

Lemma round_half_even_comp (x y : Q) : (x == y)%Q -> round_half_even x = round_half_even y.
Proof.
  intros H. unfold round_half_even. rewrite (Qfloor_comp _ _ H).
  assert (E : (x - inject_Z (Qfloor y) ?= 1 # 2)%Q = (y - inject_Z (Qfloor y) ?= 1 # 2)%Q).
  { apply Qcompare_comp; [rewrite H; reflexivity | reflexivity]. }
  rewrite E. reflexivity.
Qed.

Lemma Qabs_pos_eq (q : Q) : (0 < q)%Q -> Qabs q = q /\ Qneg q = false /\ Qeq_bool q 0 = false.
Proof.
  intros H. destruct q as [n d]. unfold Qlt in H. simpl in H.
  assert (0 < n) by lia. split; [|split].
  - unfold Qabs. rewrite Z.abs_eq by lia. reflexivity.
  - unfold Qneg. simpl. apply Z.ltb_ge. lia.
  - destruct (Qeq_bool (n # d) 0) eqn:E; [|reflexivity].
    apply Qeq_bool_eq in E. unfold Qeq in E. simpl in E. lia.
Qed.

(** A quotient of at least one half rounds to a double of at least one half
    (or overflows). *)
Lemma round64_ge_half (s : bool) (q : Q) :
  (1 # 2 <= q)%Q ->
  round64 s q = Infinity false \/ exists v, round64 s q = Num v /\ (1 # 2 <= v)%Q.
Proof.
  intros Hq. assert (Hpos : (0 < q)%Q) by qlra.
  destruct (Qabs_pos_eq q Hpos) as (Ha & Hn & Hz).
  unfold round64. rewrite Hz, Ha, Hn.
  destruct (ilog2_spec q Hpos) as [Hk1 Hk2].
  set (k := ilog2 q) in *.
  assert (Hk : -1 <= k).
  { assert (-1 < k + 1); [|lia]. apply pow2_lt_inv. change (pow2 (-1)) with (1 # 2)%Q. qlra. }
  rewrite Z.max_l by lia.
  set (e := k - 52). pose proof (pow2_pos e) as He.
  set (m := round_half_even (q / pow2 e)).
  assert (Hm : 2 ^ 52 <= m).
  { destruct (round_half_even_bounds (q / pow2 e)) as [_ [Hf _]]. fold m in Hf.
    etransitivity; [|exact Hf].
    rewrite <- (Qfloor_Z (2 ^ 52)). apply Qfloor_resp_le.
    apply Qle_shift_div_l; [exact He|].
    rewrite <- pow2_nonneg_Z by lia. rewrite <- pow2_plus.
    replace (52 + e) with k by (unfold e; lia). exact Hk1. }
  destruct (m =? 0) eqn:E0; [apply Z.eqb_eq in E0; lia|].
  destruct (1024 <=? Z.log2 m + e); [left; reflexivity|].
  right. eexists. split; [reflexivity|]. rewrite Qred_correct.
  apply Qle_trans with (pow2 k).
  - change (1 # 2)%Q with (pow2 (-1)). apply pow2_le. exact Hk.
  - replace k with (52 + e) by (unfold e; lia). rewrite pow2_plus.
    rewrite pow2_nonneg_Z by lia.
    apply Qmult_le_compat_r; [|qlra]. rewrite <- Zle_Qle. exact Hm.
Qed.

(** A positive quotient below the double that precedes one half rounds to a
    double below one half (or underflows to a zero). *)
Lemma round64_lt_half (s : bool) (q : Q) :
  (0 < q)%Q -> (q <= (1 # 2) - pow2 (-54))%Q ->
  (exists s', round64 s q = Zero s')
  \/ exists v, round64 s q = Num v /\ (0 < v < 1 # 2)%Q.
Proof.
  intros Hpos Hq.
  destruct (Qabs_pos_eq q Hpos) as (Ha & Hn & Hz).
  unfold round64. rewrite Hz, Ha, Hn.
  destruct (ilog2_spec q Hpos) as [Hk1 Hk2].
  set (k := ilog2 q) in *.
  pose proof (pow2_pos (-54)) as H54.
  assert (Hk : k <= -2).
  { assert (k < -1); [|lia]. apply pow2_lt_inv. change (pow2 (-1)) with (1 # 2)%Q. qlra. }
  set (e := Z.max (k - 52) (-1074)).
  assert (He1 : e <= -54) by (unfold e; lia).
  assert (He2 : -1074 <= e) by (unfold e; lia).
  pose proof (pow2_pos e) as He.
  set (m := round_half_even (q / pow2 e)).
  destruct (round_half_even_bounds (q / pow2 e)) as [[Hup _] [Hf _]]. fold m in Hup, Hf.
  assert (Hx0 : (0 <= q / pow2 e)%Q) by (apply Qle_shift_div_l; qlra).
  assert (Hm0 : 0 <= m).
  { etransitivity; [|exact Hf]. change 0 with (Qfloor 0). apply Qfloor_resp_le. exact Hx0. }
  assert (Hx : (q / pow2 e <= pow2 (-1 - e) - pow2 (-54 - e))%Q).
  { apply Qle_shift_div_r; [exact He|].
    setoid_replace ((pow2 (-1 - e) - pow2 (-54 - e)) * pow2 e)%Q
      with (pow2 (-1 - e) * pow2 e - pow2 (-54 - e) * pow2 e)%Q using relation Qeq by ring.
    rewrite <- !pow2_plus.
    replace (-1 - e + e) with (-1) by lia. replace (-54 - e + e) with (-54) by lia.
    exact Hq. }
  assert (H1 : (1 <= pow2 (-54 - e))%Q).
  { change 1%Q with (pow2 0). apply pow2_le. lia. }
  assert (Hmlt : m < 2 ^ (-1 - e)).
  { rewrite Zlt_Qlt. rewrite <- pow2_nonneg_Z by lia. qlra. }
  destruct (m =? 0) eqn:E0; [left; eexists; reflexivity|].
  apply Z.eqb_neq in E0.
  assert (Hlog : Z.log2 m < -1 - e) by (apply Z.log2_lt_pow2; lia).
  destruct (1024 <=? Z.log2 m + e) eqn:E1; [apply Z.leb_le in E1; lia|].
  right. eexists. split; [reflexivity|]. rewrite Qred_correct. split.
  - apply Qmult_lt_0_compat; [|exact He]. change 0%Q with (inject_Z 0).
    rewrite <- Zlt_Qlt. lia.
  - change (1 # 2)%Q with (pow2 (-1)). replace (-1) with (-1 - e + e) by lia.
    rewrite pow2_plus. apply Qmult_lt_compat_r; [exact He|].
    rewrite pow2_nonneg_Z by lia. rewrite <- Zlt_Qlt. exact Hmlt.
Qed.

(** Integers of magnitude below 2^53 are doubles: rounding keeps them. *)
Lemma round64_Z (s : bool) (z : Z) :
  Z.abs z < 2 ^ 53 -> round64 s (inject_Z z) = of_Q s (inject_Z z).
Proof.
  intros Hz. unfold round64, of_Q.
  destruct (Qeq_bool (inject_Z z) 0) eqn:E; [reflexivity|].
  apply Qeq_bool_neq in E.
  assert (Hz0 : z <> 0) by (intros ->; apply E; reflexivity).
  change (Qabs (inject_Z z)) with (inject_Z (Z.abs z)).
  assert (Hapos : 0 < Z.abs z) by lia.
  destruct (Z.log2_spec _ Hapos) as [Hl1 Hl2].
  pose proof (Z.log2_nonneg (Z.abs z)) as Hl0.
  set (k := Z.log2 (Z.abs z)) in *.
  assert (Hk : k < 53) by (apply Z.log2_lt_pow2; lia).
  assert (Hil : ilog2 (inject_Z (Z.abs z)) = k).
  { apply ilog2_unique; rewrite pow2_nonneg_Z by lia.
    - rewrite <- Zle_Qle. exact Hl1.
    - rewrite <- Zlt_Qlt. replace (k + 1) with (Z.succ k) by lia. exact Hl2. }
  rewrite Hil, Z.max_l by lia.
  set (e := k - 52). pose proof (pow2_pos e) as He.
  assert (Hx : (inject_Z (Z.abs z) / pow2 e == inject_Z (Z.abs z * 2 ^ (- e)))%Q).
  { rewrite inject_Z_mult, <- pow2_nonneg_Z by (unfold e; lia).
    rewrite pow2_opp. field. qlra. }
  rewrite (round_half_even_comp _ _ Hx), round_half_even_Z.
  set (m := Z.abs z * 2 ^ (- e)).
  assert (Hp : 0 < 2 ^ (- e)) by (apply Z.pow_pos_nonneg; unfold e; lia).
  assert (Hm : 0 < m) by (unfold m; lia).
  destruct (m =? 0) eqn:E0; [apply Z.eqb_eq in E0; lia|].
  assert (Hlm : Z.log2 m = 52).
  { unfold m. rewrite Z.log2_mul_pow2 by (unfold e; lia). fold k. unfold e. lia. }
  rewrite Hlm.
  destruct (1024 <=? 52 + e) eqn:E1; [apply Z.leb_le in E1; unfold e in E1; lia|].
  f_equal. apply Qred_complete.
  assert (Hval : (inject_Z m * pow2 e == inject_Z (Z.abs z))%Q).
  { unfold m. rewrite inject_Z_mult, <- pow2_nonneg_Z by (unfold e; lia).
    rewrite pow2_opp. field. qlra. }
  unfold Qneg. simpl Qnum.
  destruct (z <? 0) eqn:Es.
  - apply Z.ltb_lt in Es.
    setoid_replace (- inject_Z m * pow2 e)%Q with (- (inject_Z m * pow2 e))%Q using relation Qeq by ring.
    rewrite Hval. rewrite Z.abs_neq by lia. rewrite inject_Z_opp. ring.
  - apply Z.ltb_ge in Es. rewrite Hval, Z.abs_eq by lia. reflexivity.
Qed.

Lemma Qneg_lt0 (q : Q) : Qneg q = true <-> (q < 0)%Q.
Proof.
  unfold Qneg, Qlt. simpl. rewrite Z.ltb_lt. lia.
Qed.

Lemma Qneg_comp (p q : Q) : (p == q)%Q -> Qneg p = Qneg q.
Proof.
  intros H. destruct (Qneg p) eqn:Ep, (Qneg q) eqn:Eq; try reflexivity.
  - apply Qneg_lt0 in Ep. rewrite H in Ep. apply Qneg_lt0 in Ep. congruence.
  - apply Qneg_lt0 in Eq. rewrite <- H in Eq. apply Qneg_lt0 in Eq. congruence.
Qed.

(** [round64] reads the value of its argument, not its representation. *)
Lemma round64_comp (s : bool) (p q : Q) : (p == q)%Q -> round64 s p = round64 s q.
Proof.
  intros H. unfold round64.
  assert (E0 : Qeq_bool p 0 = Qeq_bool q 0).
  { destruct (Qeq_bool p 0) eqn:Ep, (Qeq_bool q 0) eqn:Eq; try reflexivity.
    - apply Qeq_bool_eq in Ep. rewrite H in Ep. apply Qeq_eq_bool in Ep. congruence.
    - apply Qeq_bool_eq in Eq. rewrite <- H in Eq. apply Qeq_eq_bool in Eq. congruence. }
  rewrite <- E0. destruct (Qeq_bool p 0) eqn:Ep; [reflexivity|].
  apply Qeq_bool_neq in Ep.
  assert (Hab : (Qabs p == Qabs q)%Q) by (rewrite H; reflexivity).
  assert (Hpos : (0 < Qabs p)%Q).
  { pose proof (Qabs_nonneg p) as H0.
    destruct (Qeq_dec (Qabs p) 0) as [E|E]; [|qlra].
    exfalso. apply Ep. revert E. apply Qabs_case; intros ? E; qlra. }
  assert (Hil : ilog2 (Qabs p) = ilog2 (Qabs q)).
  { destruct (ilog2_spec (Qabs q)) as [H1 H2]; [rewrite <- Hab; exact Hpos|].
    apply ilog2_unique; rewrite Hab; assumption. }
  rewrite <- Hil. rewrite <- (Qneg_comp _ _ H).
  set (e := Z.max (ilog2 (Qabs p) - 52) (-1074)).
  assert (Hm : round_half_even (Qabs p / pow2 e) = round_half_even (Qabs q / pow2 e)).
  { apply round_half_even_comp. rewrite Hab. reflexivity. }
  rewrite <- Hm. reflexivity.
Qed.

(** The quotient of two byte counters, [0 <= a] and [0 < b < 2^53].  It is
    rounded to a double; below one half, [a / b] is at most
    [1/2 - 1/(2b)], which lies under the double that precedes one half. *)
Lemma Qneg_nonneg (q : Q) : (0 <= q)%Q -> Qneg q = false.
Proof.
  intros H. unfold Qneg. apply Z.ltb_ge. unfold Qle in H. simpl in H. lia.
Qed.

Lemma of_Z_pos (z : Z) : 0 < z -> of_Z z = Num (inject_Z z) /\ canon (of_Z z) = Num (inject_Z z).
Proof.
  intros Hz. assert (E : of_Z z = Num (inject_Z z)).
  { unfold of_Z. rewrite of_Q_nonzero.
    - f_equal. apply Qcanon.Qred_identity. simpl. apply Z.gcd_1_r.
    - intros H. unfold Qeq in H. simpl in H. lia. }
  split; [exact E|]. rewrite E. simpl. exact E.
Qed.

Lemma div_counters (a b : Z) :
  0 <= a -> 0 < b < 2 ^ 53 ->
  (a = 0 /\ div (of_Z a) (of_Z b) = Zero false)
  \/ (0 < 2 * a < b /\
      ((exists s, div (of_Z a) (of_Z b) = Zero s)
       \/ exists v, div (of_Z a) (of_Z b) = Num v /\ (0 < v < 1 # 2)%Q))
  \/ (b <= 2 * a /\
      (div (of_Z a) (of_Z b) = Infinity false
       \/ exists v, div (of_Z a) (of_Z b) = Num v /\ (1 # 2 <= v)%Q)).
Proof.
  intros Ha Hb.
  destruct (of_Z_pos b) as [_ Eb]; [lia|].
  destruct (Z.eq_dec a 0) as [-> | Ha0].
  - left. split; [reflexivity|]. unfold div. rewrite Eb.
    change (canon (of_Z 0)) with (Zero false). cbn [xorb]. f_equal.
    unfold Qneg. simpl. apply Z.ltb_ge. lia.
  - right. destruct (of_Z_pos a) as [_ Ea]; [lia|].
    assert (Hdiv : div (of_Z a) (of_Z b) = round64 false (inject_Z a / inject_Z b)).
    { unfold div. rewrite Ea, Eb. f_equal.
      unfold Qneg. simpl. destruct (a <? 0) eqn:E1; [apply Z.ltb_lt in E1; lia|].
      destruct (b <? 0) eqn:E2; [apply Z.ltb_lt in E2; lia|]. reflexivity. }
    rewrite Hdiv.
    assert (HB : (0 < inject_Z b)%Q) by (change 0%Q with (inject_Z 0); rewrite <- Zlt_Qlt; lia).
    assert (HA : (0 < inject_Z a)%Q) by (change 0%Q with (inject_Z 0); rewrite <- Zlt_Qlt; lia).
    destruct (Z_lt_le_dec (2 * a) b) as [Hlt | Hge].
    + left. split; [lia|]. apply round64_lt_half.
      * apply Qlt_shift_div_l; [exact HB | qlra].
      * apply Qle_shift_div_r; [exact HB|].
        assert (H2a : (inject_Z (2 * a) <= inject_Z (b + -1))%Q) by (rewrite <- Zle_Qle; lia).
        rewrite inject_Z_mult, inject_Z_plus in H2a.
        change (inject_Z 2) with 2%Q in H2a. change (inject_Z (-1)) with (- (1))%Q in H2a.
        set (B := inject_Z b) in *. set (A := inject_Z a) in *.
        assert (H54 : (pow2 (-54) * B <= 1 # 2)%Q).
        { change (pow2 (-54)) with (/ inject_Z (2 ^ 54))%Q.
          setoid_replace (/ inject_Z (2 ^ 54) * B)%Q
            with (B / inject_Z (2 ^ 54))%Q using relation Qeq by (unfold Qdiv; ring).
          apply Qle_shift_div_r; [reflexivity|].
          apply Qle_trans with (inject_Z (2 ^ 53)).
          - unfold B. rewrite <- Zle_Qle. lia.
          - unfold Qle. simpl. lia. }
        setoid_replace (((1 # 2) - pow2 (-54)) * B)%Q
          with ((1 # 2) * B - pow2 (-54) * B)%Q using relation Qeq by ring.
        set (X := (pow2 (-54) * B)%Q) in *. qlra.
    + right. split; [exact Hge|]. apply round64_ge_half.
      apply Qle_shift_div_l; [exact HB|].
      assert (H2a : (inject_Z b <= inject_Z (2 * a))%Q) by (rewrite <- Zle_Qle; lia).
      rewrite inject_Z_mult in H2a. change (inject_Z 2) with 2%Q in *. qlra.
Qed.

Lemma round_small (v : Q) : (0 < v < 1 # 2)%Q -> Math_round (Num v) = Zero false.
Proof.
  intros Hv. unfold Math_round, canon. rewrite of_Q_nonzero by qlra.
  rewrite (Qfloor_comp _ (v + (1 # 2))) by (rewrite Qred_correct; reflexivity).
  assert (E : Qfloor (v + (1 # 2)) = 0) by (apply Qfloor_zero_iff; qlra).
  rewrite E. simpl. f_equal. apply Qneg_nonneg. rewrite Qred_correct. qlra.
Qed.

Lemma round_large (v : Q) :
  (1 # 2 <= v)%Q -> exists z : Z, 1 <= z /\ Math_round (Num v) = Num (inject_Z z).
Proof.
  intros Hv. unfold Math_round, canon. rewrite of_Q_nonzero by qlra.
  rewrite (Qfloor_comp _ (v + (1 # 2))) by (rewrite Qred_correct; reflexivity).
  assert (H1 : Qfloor 1%Q <= Qfloor (v + (1 # 2))) by (apply Qfloor_resp_le; qlra).
  change (Qfloor 1%Q) with 1 in H1.
  destruct (Qfloor (v + (1 # 2)) =? 0) eqn:E; [apply Z.eqb_eq in E; lia|].
  eexists. split; [exact H1 | reflexivity].
Qed.

(** For byte counters the estimate of loaded parts is a zero exactly when
    the loaded count is below half of the part's total. *)
Lemma estLoadedParts_zero_iff (a b : Z) :
  0 <= a -> 0 < b < 2 ^ 53 ->
  is_zero (Math_round (div (of_Z a) (of_Z b))) = true <-> 2 * a < b.
Proof.
  intros Ha Hb.
  destruct (div_counters a b Ha Hb)
    as [[-> ->] | [[Hlt [[s ->] | (v & -> & Hv)]] | [Hge [-> | (v & -> & Hv)]]]].
  - split; [lia | reflexivity].
  - split; [lia | reflexivity].
  - rewrite (round_small v Hv). split; [lia | reflexivity].
  - split; [discriminate | lia].
  - destruct (round_large v Hv) as (z & Hz & ->). split; [|lia].
    unfold is_zero, canon. rewrite of_Q_nonzero; [discriminate|].
    intros H. unfold Qeq in H. simpl in H. lia.
Qed.

(** The estimate of loaded parts of two byte counters: a zero, an integer of
    at least 1, or +Infinity when the quotient overflows. *)
Lemma estLoadedParts_cases (a b : Z) :
  0 <= a -> 0 < b < 2 ^ 53 ->
  is_zero (Math_round (div (of_Z a) (of_Z b))) = true
  \/ Math_round (div (of_Z a) (of_Z b)) = Infinity false
  \/ exists z : Z, 1 <= z /\ Math_round (div (of_Z a) (of_Z b)) = Num (inject_Z z).
Proof.
  intros Ha Hb.
  destruct (div_counters a b Ha Hb)
    as [[-> ->] | [[Hlt [[s ->] | (v & -> & Hv)]] | [Hge [-> | (v & -> & Hv)]]]].
  - left; reflexivity.
  - left; reflexivity.
  - left. rewrite (round_small v Hv). reflexivity.
  - right; left; reflexivity.
  - right; right. apply round_large. exact Hv.
Qed.

(** ** The part chain, step by step *)

Ltac wred :=
  cbn [this fragments statsHeap transports timers promises results effects now
       nextLoader nextTimer nextPromise
       FragmentLoader.loader FragmentLoader.partLoadTimeout FragmentLoader.config
       fst snd
       with_this with_fragments with_statsHeap with_transports with_timers
       with_promises with_results emit advance set_this_loader set_partLoadTimeout
       set_frag_loader clearTimeout loader_load loader_abort set_loader_stats
       end_request record_part new_promise setTimeout new_loader].

Ltac wred_in H :=
  cbn [this fragments statsHeap transports timers promises results effects now
       nextLoader nextTimer nextPromise
       FragmentLoader.loader FragmentLoader.partLoadTimeout FragmentLoader.config
       fst snd
       with_this with_fragments with_statsHeap with_transports with_timers
       with_promises with_results emit advance set_this_loader set_partLoadTimeout
       set_frag_loader clearTimeout loader_load loader_abort set_loader_stats
       end_request record_part new_promise setTimeout new_loader] in H.

(** The operations with a test inside, at the cases the proofs meet. *)
Lemma updateStatsFromPart_frame frag part w :
  exists h, updateStatsFromPart frag part w = with_statsHeap (fun _ => h) w /\
    forall sid, is_Some (statsHeap w !! sid) -> is_Some (h !! sid).
Proof.
  unfold updateStatsFromPart. destruct w as [t fr sh tr ti pr re ef nw nl nt np].
  cbn [fragments statsHeap].
  destruct (fr !! frag) as [f|]; [|exists sh; split; [reflexivity | auto]].
  destruct (sh !! Fragment.stats f); [|exists sh; split; [reflexivity | auto]].
  destruct (sh !! Part.stats part); [|exists sh; split; [reflexivity | auto]].
  eexists. split; [reflexivity|].
  intros sid H. rewrite lookup_insert. case_decide; [eauto | exact H].
Qed.

Lemma settle_pending p s w :
  promises w !! p = Some Pending -> settle p s w = with_promises <[p := s]> w.
Proof. intros H. unfold settle. rewrite H. reflexivity. Qed.

Lemma settle_effects p s w : effects (settle p s w) = effects w.
Proof. unfold settle. destruct (promises w !! p) as [[]|]; reflexivity. Qed.

Lemma resetLoader_tracked frag loader w :
  FragmentLoader.loader (this w) = loader ->
  resetLoader frag loader w
  = set_this_loader None
      (clearTimeout (FragmentLoader.partLoadTimeout (this w))
         (set_frag_loader frag None w)).
Proof.
  intros H. unfold resetLoader. wred. rewrite decide_True by exact H. reflexivity.
Qed.

Lemma resetLoader_nextPromise frag loader w :
  nextPromise (resetLoader frag loader w) = nextPromise w.
Proof.
  unfold resetLoader. cbn zeta.
  destruct (decide (FragmentLoader.loader (this (set_frag_loader frag None w)) = loader));
    reflexivity.
Qed.

Lemma resetLoader_untracked frag loader w :
  FragmentLoader.loader (this w) <> loader ->
  resetLoader frag loader w = set_frag_loader frag None w.
Proof.
  intros H. unfold resetLoader. wred. rewrite decide_False by exact H. reflexivity.
Qed.

Lemma set_frag_aborted_found frag b w f :
  fragments w !! frag = Some f ->
  set_frag_aborted frag b w = with_statsHeap (alter (set_aborted b) (Fragment.stats f)) w.
Proof. intros H. unfold set_frag_aborted. rewrite H. reflexivity. Qed.

Lemma chain_at_tick w c l i part A D E0 dt :
  chain_at w c l i part A D E0 -> 0 <= dt ->
  step w (Tick dt) = Some (advance dt w) /\
  chain_at (advance dt w) c l i part A D E0.
Proof.
  intros H Hdt. split.
  - simpl. destruct (0 <=? dt) eqn:E; [reflexivity | lia].
  - destruct H. constructor; assumption.
Qed.

Lemma chain_at_update w c l i part A D E0 st native :
  chain_at w c l i part A D E0 ->
  exists w', step w (TransportUpdate l st native) = Some w' /\
             chain_at w' c l i part A D E0 /\
             this w' = this w /\
             fragments w' = fragments w /\ now w' = now w /\
             (forall sid, is_Some (statsHeap w !! sid) ->
                          is_Some (statsHeap w' !! sid)).
Proof.
  intros [Hl Hp (t & Ht & Hcb & Hab & Hctx) Htr Hpe Hre Hti Hef].
  cbn [step]. unfold transport_update. rewrite Ht.
  eexists. split; [reflexivity|].
  destruct (Transport.stats t) as [s0|].
  all: split;
    [constructor; wred; try assumption;
     eexists; (split; [apply lookup_insert_eq | repeat split; assumption]) |].
  all: split; [reflexivity | split; [reflexivity | split; [reflexivity|]]].
  all: intros sid Hsid; wred.
  - rewrite lookup_insert. case_decide; eauto.
  - exact Hsid.
Qed.

Lemma in_flight_chain w c l i part A D E0 :
  chain_at w c l i part A D E0 ->
  in_flight l w = Some (PartCallbacks c i part l, false).
Proof.
  intros [_ _ (t & Ht & Hcb & Hab & Hctx) _ _ _ _ _].
  unfold in_flight. rewrite Ht, Hcb, Hab. reflexivity.
Qed.

Lemma lookup_lt_length {A} (l : list A) (i : nat) (x : A) :
  l !! i = Some x ->
  (Z.of_nat (length l) - 1 <=? Z.of_nat i) = (length l =? S i)%nat.
Proof.
  intros H. apply lookup_lt_Some in H.
  destruct (Nat.eqb_spec (length l) (S i)).
  - apply Z.leb_le. lia.
  - apply Z.leb_gt. lia.
Qed.

(** A part succeeds and the next list entry belongs to the same fragment:
    the result is recorded and the next part is requested. *)
Lemma chain_at_continue w c l i part A D E0 data nd next :
  chain_at w c l i part A D E0 ->
  Chain.partList c !! S i = Some next ->
  Part.fragment next = Chain.frag c ->
  exists w', step w (OnSuccess l data nd) = Some w' /\
    chain_at w' c l (S i) next
      (<[Part.index part := FragLoadedData.mk (Chain.frag c) (Some part) data nd]> A)
      D E0 /\
    this w' = this w /\
    fragments w' = fragments w /\ now w' = now w /\
    (forall sid, is_Some (statsHeap w !! sid) -> is_Some (statsHeap w' !! sid)).
Proof.
  intros H Hnext Hfrag. pose proof (in_flight_chain _ _ _ _ _ _ _ _ H) as Hfl.
  destruct H as [Hl Hp (t & Ht & Hcb & Hab & Hctx) Htr Hpe Hre Hti (es & Hes & Hquiet)].
  cbn [step]. rewrite Hfl. eexists. split; [reflexivity|].
  unfold part_onSuccess.
  destruct (updateStatsFromPart_frame (Chain.frag c) part (end_request l w))
    as (h & -> & Hh).
  unfold partLoaded. cbn zeta.
  rewrite (lookup_lt_length _ _ _ Hp).
  assert (Hlen : (length (Chain.partList c) =? S i)%nat = false).
  { apply Nat.eqb_neq. apply lookup_lt_Some in Hnext. lia. }
  rewrite Hlen. replace (i + 1)%nat with (S i) by lia. rewrite Hnext.
  rewrite decide_True by exact Hfrag.
  unfold loadPartIndex, loadPart. rewrite Hnext, Hl.
  split; [|split; [reflexivity | split; [reflexivity | split; [reflexivity | exact Hh]]]].
  constructor; wred; try assumption.
  - eexists. split.
    + rewrite !lookup_alter. rewrite !decide_True by reflexivity. rewrite Ht.
      reflexivity.
    + split; [reflexivity | split; [exact Hab | eauto]].
  - rewrite lookup_alter, decide_True by reflexivity. rewrite Hre. reflexivity.
  - eexists. split; [rewrite Hes, <- !app_assoc; reflexivity|].
    rewrite forallb_app, Hquiet. reflexivity.
Qed.

(** A part succeeds and the next list entry belongs to another fragment:
    the chain is complete. *)
Lemma chain_at_boundary w c l i part A D E0 data nd next :
  chain_at w c l i part A D E0 ->
  Chain.partList c !! S i = Some next ->
  Part.fragment next <> Chain.frag c ->
  is_Some (fragments w !! Chain.frag c) ->
  exists w', step w (OnSuccess l data nd) = Some w' /\
    promises w' !! Chain.promise c
      = Some (Resolved (Some (FragLoadedEndData.mk (Chain.frag c) (Some [])
           (<[Part.index part := FragLoadedData.mk (Chain.frag c) (Some part) data nd]> A))))
    /\ released w' (Chain.frag c)
    /\ forallb (fun e => negb (abort_effect e)) (effects w') =
       forallb (fun e => negb (abort_effect e)) (effects w).
Proof.
  intros H Hnext Hfrag [f Hf]. pose proof (in_flight_chain _ _ _ _ _ _ _ _ H) as Hfl.
  destruct H as [Hl Hp (t & Ht & Hcb & Hab & Hctx) Htr Hpe Hre Hti (es & Hes & Hquiet)].
  cbn [step]. rewrite Hfl. eexists. split; [reflexivity|].
  unfold part_onSuccess.
  destruct (updateStatsFromPart_frame (Chain.frag c) part (end_request l w))
    as (h & -> & Hh).
  unfold partLoaded. cbn zeta.
  rewrite (lookup_lt_length _ _ _ Hp).
  assert (Hlen : (length (Chain.partList c) =? S i)%nat = false).
  { apply Nat.eqb_neq. apply lookup_lt_Some in Hnext. lia. }
  rewrite Hlen. replace (i + 1)%nat with (S i) by lia. rewrite Hnext.
  rewrite decide_False by exact Hfrag.
  rewrite Hl. rewrite resetLoader_tracked by (wred; exact Htr).
  unfold resolve. rewrite settle_pending by (wred; exact Hpe).
  split; [|split].
  - wred. rewrite lookup_insert_eq, lookup_alter, decide_True by reflexivity.
    rewrite Hre. reflexivity.
  - unfold released, frag_loader. wred. split; [|split; [reflexivity|]].
    + rewrite lookup_alter, decide_True by reflexivity. rewrite Hf. reflexivity.
    + apply lookup_delete_eq.
  - wred. rewrite !forallb_app. simpl. rewrite !andb_true_r. reflexivity.
Qed.


(** The watchdog fires while the chain is waiting for a part. *)
Lemma chain_at_timeout w c l i part A D E0 :
  chain_at w c l i part A D E0 ->
  D <= now w ->
  is_Some (fragments w !! Chain.frag c) ->
  exists w', step w (TimerFire (FragmentLoader.partLoadTimeout (this w))) = Some w' /\
    promises w' !! Chain.promise c
      = Some (Rejected (mkLoadError FRAG_LOAD_TIMEOUT (Chain.frag c)
                          (Chain.partList c !! Chain.partIndex c) None
                          (loader_native l w) None))
    /\ released w' (Chain.frag c)
    /\ transports w' = transports w
    /\ forallb (fun e => negb (abort_effect e)) (effects w') =
       forallb (fun e => negb (abort_effect e)) (effects w).
Proof.
  intros H Hdue [f Hf].
  destruct H as [Hl Hp (t & Ht & Hcb & Hab & Hctx) Htr Hpe Hre Hti (es & Hes & Hquiet)].
  cbn [step]. rewrite Hti. destruct (D <=? now w) eqn:E; [|lia].
  eexists. split; [reflexivity|].
  unfold watchdog. rewrite Hl. cbn zeta.
  rewrite resetLoader_tracked by (wred; exact Htr).
  unfold reject. rewrite settle_pending by (wred; exact Hpe).
  split; [|split; [|split]].
  - wred. rewrite lookup_insert_eq. reflexivity.
  - unfold released, frag_loader. wred. split; [|split; [reflexivity|]].
    + rewrite lookup_alter, decide_True by reflexivity. rewrite Hf. reflexivity.
    + apply lookup_delete_eq.
  - reflexivity.
  - wred. rewrite !forallb_app. simpl. rewrite !andb_true_r. reflexivity.
Qed.

(** [abort] returns, with the tracked transport told to abort, exactly when
    that transport's context can be read; otherwise it raises. *)
Lemma abort_spec w :
  abort w = if tracked_has_context w then Returned (after_abort w) else Threw.
Proof.
  unfold abort, tracked_has_context, after_abort.
  destruct (FragmentLoader.loader (this w)) as [l|]; [|reflexivity].
  destruct (loader_context l w) as [c|].
  - rewrite bool_decide_eq_true_2 by eauto. reflexivity.
  - rewrite bool_decide_eq_false_2 by (intros [? ?]; discriminate). reflexivity.
Qed.

Lemma abort_returns w :
  tracked_has_context w = true -> abort w = Returned (after_abort w).
Proof. intros H. rewrite abort_spec, H. reflexivity. Qed.

Lemma abort_throws w : tracked_has_context w = false -> abort w = Threw.
Proof. intros H. rewrite abort_spec, H. reflexivity. Qed.

Lemma abort_frame w :
  this (after_abort w) = this w /\ fragments (after_abort w) = fragments w /\
  statsHeap (after_abort w) = statsHeap w /\ timers (after_abort w) = timers w /\
  promises (after_abort w) = promises w /\ results (after_abort w) = results w /\
  now (after_abort w) = now w /\ nextLoader (after_abort w) = nextLoader w /\
  nextTimer (after_abort w) = nextTimer w /\ nextPromise (after_abort w) = nextPromise w /\
  effects (after_abort w)
  = effects w ++ match FragmentLoader.loader (this w) with
                 | Some l0 => [LoaderAbort l0]
                 | None => []
                 end.
Proof.
  unfold after_abort. destruct (FragmentLoader.loader (this w)); wred;
    rewrite ?app_nil_r; repeat split; reflexivity.
Qed.

(** [load] with a part list, a progress callback and an independent part
    at position [s] starts the chain at [s]. *)
Lemma load_starts_chain w frag fragObj ld tbt pl s part :
  fragments w !! frag = Some fragObj ->
  tracked_has_context w = true ->
  ld ≫= LevelDetails.partList = Some pl ->
  findIndependentPart pl frag (Math_max (Fragment.start fragObj) (or_zero tbt))
    = Z.of_nat s ->
  pl !! s = Some part ->
  exists w', load frag ld tbt true w = Some (Returned (nextPromise w, w')) /\
    chain_at w' (chain_of w pl s frag) (nextLoader w) s part ∅
      (now w + HlsConfig.fragLoadingTimeOut (FragmentLoader.config (this w)))
      (chain_prologue w) /\
    FragmentLoader.partLoadTimeout (this w') = nextTimer w /\
    (exists f', fragments w' !! frag = Some f' /\
                Fragment.stats f' = Fragment.stats fragObj /\
                Fragment.loader f' = Some (nextLoader w)) /\
    now w' = now w /\ statsHeap w' = statsHeap w.
Proof.
  intros Hf Htc Hpl Hfind Hpart.
  destruct (abort_frame w)
    as (Ha1 & Ha2 & Ha3 & Ha4 & Ha5 & Ha6 & Ha7 & Ha8 & Ha9 & Ha10 & Ha11).
  unfold load. rewrite Hf, (abort_returns w Htc), Hpl. cbn zeta.
  unfold new_loader. cbn zeta. rewrite Hfind.
  destruct (-1 <? Z.of_nat s) eqn:E; [|lia]. rewrite Nat2Z.id.
  unfold loadFragmentParts, new_promise, setTimeout. cbn zeta. wred.
  rewrite Ha1, Ha8, Ha9, Ha10.
  eexists. split; [reflexivity|].
  unfold loadPartIndex. cbn [Chain.partList]. rewrite Hpart.
  unfold loadPart. cbn [Chain.loader Chain.frag Chain.promise Chain.loaderConfig].
  unfold chain_of, loaderConfig_of, chain_prologue.
  split; [constructor; wred;
          cbn [Chain.partList Chain.loader Chain.frag Chain.promise Chain.loaderConfig
               LoaderConfiguration.timeout] |].
  - reflexivity.
  - exact Hpart.
  - eexists. split.
    + rewrite !lookup_alter, !decide_True by reflexivity.
      rewrite lookup_insert_eq. reflexivity.
    + split; [reflexivity | split; [reflexivity | eauto]].
  - reflexivity.
  - rewrite lookup_insert_eq. reflexivity.
  - rewrite lookup_insert_eq. reflexivity.
  - rewrite lookup_insert_eq, Ha7. reflexivity.
  - eexists. split; [rewrite Ha11, <- !app_assoc; reflexivity | reflexivity].
  - wred. split; [reflexivity|]. split; [|split; [rewrite Ha7; reflexivity | exact Ha3]].
    eexists. split;
      [rewrite lookup_alter, decide_True by reflexivity; rewrite Ha2, Hf; reflexivity|].
    split; reflexivity.
Qed.

Lemma run_app w es1 es2 :
  run w (es1 ++ es2) = run w es1 ≫= fun w' => run w' es2.
Proof.
  revert w. induction es1 as [|e es1 IH]; intros w; simpl; [reflexivity|].
  destruct (step w e); [apply IH | reflexivity].
Qed.

(** The sum of the times the completions took. *)
Lemma chain_run c l D E0 xs :
  forall w i part A,
  chain_at w c l i part A D E0 ->
  Forall (fun x => 0 <= Completion.elapsed x) xs ->
  (forall j, (j < length xs)%nat ->
     exists p, Chain.partList c !! (S i + j)%nat = Some p /\
               Part.fragment p = Chain.frag c) ->
  exists w' part',
    run w (parts_done l xs) = Some w' /\
    chain_at w' c l (i + length xs) part'
      (recorded (Chain.frag c) (take (length xs) (drop i (Chain.partList c))) xs A)
      D E0 /\
    this w' = this w /\
    fragments w' = fragments w /\
    now w' = now w + elapsed_total xs /\
    (forall sid, is_Some (statsHeap w !! sid) -> is_Some (statsHeap w' !! sid)).
Proof.
  induction xs as [|x xs IH]; intros w i part A H Hdt Hparts.
  - exists w, part. simpl. rewrite Nat.add_0_r, Z.add_0_r.
    split; [reflexivity|]. split; [exact H|]. auto.
  - inversion Hdt as [|? ? Hx Hxs]; subst.
    destruct (Hparts 0%nat) as (next & Hnext & Hfrag); [simpl; lia|].
    rewrite Nat.add_0_r in Hnext.
    destruct (chain_at_tick _ _ _ _ _ _ _ _ _ H Hx) as [Hs1 H1].
    destruct (chain_at_update _ _ _ _ _ _ _ _ (Completion.stats x)
                (Completion.native x) H1) as (w2 & Hs2 & H2 & Ht2 & Hf2 & Hn2 & Hst2).
    destruct (chain_at_continue _ _ _ _ _ _ _ _ (Completion.data x)
                (Completion.networkDetails x) next H2 Hnext Hfrag)
      as (w3 & Hs3 & H3 & Ht3 & Hf3 & Hn3 & Hst3).
    destruct (IH w3 (S i) next _ H3 Hxs)
      as (w' & part' & Hrun & H' & Ht' & Hf' & Hn' & Hst').
    { intros j Hj. destruct (Hparts (S j)) as (p & Hp & Hpf); [simpl; lia|].
      exists p. split; [|exact Hpf]. rewrite <- Hp. f_equal. lia. }
    exists w', part'. split; [|split; [|split; [|split; [|split]]]].
    + unfold parts_done. simpl. fold (parts_done l xs).
      destruct (0 <=? Completion.elapsed x) eqn:E; [|lia].
      simpl in Hs2, Hs3. rewrite Hs2. simpl. rewrite Hs3. exact Hrun.
    + replace (i + length (x :: xs))%nat with (S i + length xs)%nat by (simpl; lia).
      pose proof (ca_part _ _ _ _ _ _ _ _ H) as Hpart.
      rewrite (drop_S _ _ _ Hpart). simpl.
      exact H'.
    + rewrite Ht', Ht3, Ht2. reflexivity.
    + rewrite Hf', Hf3, Hf2. reflexivity.
    + rewrite Hn', Hn3, Hn2. simpl. unfold elapsed_total. simpl. lia.
    + auto.
Qed.




Lemma run_part_done w l x w1 w2 w3 :
  step w (Tick (Completion.elapsed x)) = Some w1 ->
  step w1 (TransportUpdate l (Completion.stats x) (Completion.native x)) = Some w2 ->
  step w2 (OnSuccess l (Completion.data x) (Completion.networkDetails x)) = Some w3 ->
  run w (part_done l x) = Some w3.
Proof.
  intros H1 H2 H3. unfold part_done. cbn [run]. rewrite H1, H2, H3. reflexivity.
Qed.



Lemma quiet_no_timer (es : list Effect) :
  forallb (fun e => negb (timer_effect e || abort_effect e || new_effect e)) es = true ->
  filter (fun e => timer_effect e = true) es = [] /\
  filter (fun e => abort_effect e = true) es = [].
Proof.
  induction es as [|e es IH]; simpl; [auto|].
  intros H. apply andb_prop in H as [He Hes]. destruct (IH Hes) as [IH1 IH2].
  apply negb_true_iff in He. apply orb_false_elim in He as [He Hn].
  apply orb_false_elim in He as [Ht Ha].
  rewrite !filter_cons, Ht, Ha. split; assumption.
Qed.

(** C4. The part chain arms one watchdog, with the configured timeout, when
    it begins; while parts complete and further parts are requested the
    timer is neither set again nor cleared and keeps its deadline; when it
    fires with the chain still waiting for a part, the transport is
    detached without being aborted and the promise is rejected with a
    load-timeout envelope, however short each part request was. *)
Theorem watchdog_spans_chain w frag fragObj ld tbt pl s xs dt :
  fragments w !! frag = Some fragObj ->
  tracked_has_context w = true ->
  ld ≫= LevelDetails.partList = Some pl ->
  findIndependentPart pl frag (Math_max (Fragment.start fragObj) (or_zero tbt))
    = Z.of_nat s ->
  (forall j, (j < length xs)%nat ->
     exists p, pl !! (S s + j)%nat = Some p /\ Part.fragment p = frag) ->
  Forall (fun y => 0 <= Completion.elapsed y) xs ->
  0 <= dt ->
  HlsConfig.fragLoadingTimeOut (FragmentLoader.config (this w))
    <= elapsed_total xs + dt ->
  let T := HlsConfig.fragLoadingTimeOut (FragmentLoader.config (this w)) in
  let id := nextTimer w in
  let l := nextLoader w in
  let since w' := drop (length (effects w)) (effects w') in
  exists w1 w2 w3,
    step w (CallLoad frag ld tbt true) = Some w1 /\
    filter (fun e => timer_effect e = true) (since w1) = [SetTimeout id T] /\
    timers w1 !! id = Some (Timer.mk (now w + T) (Watchdog (chain_of w pl s frag))) /\
    run w1 (parts_done l xs) = Some w2 /\
    filter (fun e => timer_effect e = true) (since w2) = [SetTimeout id T] /\
    timers w2 !! id = Some (Timer.mk (now w + T) (Watchdog (chain_of w pl s frag))) /\
    promises w2 !! nextPromise w = Some Pending /\
    run w2 [Tick dt; TimerFire id] = Some w3 /\
    promises w3 !! nextPromise w
      = Some (Rejected (ReasonLoadError (LoadError.mk
           (FragLoadFailResult.mk NETWORK_ERROR FRAG_LOAD_TIMEOUT false frag (pl !! s)
              None (loader_native l w2))
           None))) /\
    released w3 frag /\
    in_flight l w3 = in_flight l w2 /\
    is_Some (in_flight l w3) /\
    filter (fun e => abort_effect e = true)
      (drop (length (chain_prologue w)) (effects w3)) = [].
Proof.
  intros Hf Htc Hpl Hfind Hsame Hxs Hdt Hdue. cbn zeta.
  set (T := HlsConfig.fragLoadingTimeOut (FragmentLoader.config (this w))) in *.
  set (since := fun w' : World => drop (length (effects w)) (effects w')).
  set (l := nextLoader w). set (id := nextTimer w).
  assert (Hs : exists part, pl !! s = Some part).
  { destruct (findIndependentPart_found _ _ _ _ Hfind) as (p & Hp & _). eauto. }
  destruct Hs as [part Hpart].
  destruct (load_starts_chain w frag fragObj ld tbt pl s part Hf Htc Hpl Hfind Hpart)
    as (w1 & Hload & H1 & Hid & (f1 & Hf1 & _ & _) & Hn1 & Hst1).
  set (c := chain_of w pl s frag) in *.
  destruct (chain_run c l _ _ xs w1 s part ∅ H1 Hxs Hsame)
    as (w2 & cur & Hrun & H2 & Ht2 & Hf2 & Hn2 & _).
  destruct (chain_at_tick _ _ _ _ _ _ _ _ _ H2 Hdt) as [Hs3 H3].
  destruct (chain_at_timeout _ _ _ _ _ _ _ _ H3) as (w4 & Hs4 & Hres & Hrel & Htr & Hab).
  { cbn [now advance]. rewrite Hn2, Hn1. fold T. lia. }
  { cbn [fragments advance]. rewrite Hf2. unfold c. cbn [chain_of Chain.frag]. eauto. }
  cbn [this advance] in Hs4. rewrite Ht2, Hid in Hs4. fold id in Hs4.
  assert (Hsince : forall w', (exists es, effects w' = chain_prologue w ++ es /\
             forallb (fun e => negb (timer_effect e || abort_effect e || new_effect e)) es
             = true) ->
           filter (fun e => timer_effect e = true) (since w') = [SetTimeout id T]).
  { intros w' (es & Hes & Hq). unfold since. rewrite Hes. unfold chain_prologue.
    rewrite <- app_assoc, drop_app_length.
    rewrite !filter_app. destruct (quiet_no_timer es Hq) as [-> _].
    destruct (FragmentLoader.loader (this w)); reflexivity. }
  assert (Htimer : forall w', this w' = this w1 ->
            timers w' !! FragmentLoader.partLoadTimeout (this w')
              = Some (Timer.mk (now w + T) (Watchdog c)) ->
            timers w' !! id = Some (Timer.mk (now w + T) (Watchdog c))).
  { intros w' Hthis Ht. rewrite Hthis, Hid in Ht. exact Ht. }
  fold l in Hres |- *.
  exists w1, w2, w4.
  split; [cbn [step]; rewrite Hload; reflexivity|].
  split; [apply Hsince; exact (ca_effects _ _ _ _ _ _ _ _ H1)|].
  split; [apply Htimer; [reflexivity | exact (ca_timer _ _ _ _ _ _ _ _ H1)]|].
  split; [exact Hrun|].
  split; [apply Hsince; exact (ca_effects _ _ _ _ _ _ _ _ H2)|].
  split; [apply Htimer; [exact Ht2 | exact (ca_timer _ _ _ _ _ _ _ _ H2)]|].
  split; [exact (ca_pending _ _ _ _ _ _ _ _ H2)|].
  split; [cbn [run]; rewrite Hs3, Hs4; reflexivity|].
  split; [exact Hres|].
  split; [exact Hrel|].
  assert (Hfl : in_flight l w4 = in_flight l w2).
  { unfold in_flight. rewrite Htr. reflexivity. }
  split; [exact Hfl|].
  split; [rewrite Hfl, (in_flight_chain _ _ _ _ _ _ _ _ H2); eauto|].
  destruct (ca_effects _ _ _ _ _ _ _ _ H2) as (es & Hes & Hq).
  destruct (quiet_no_timer es Hq) as [_ Hnoab].
  cbn [step] in Hs4.
  destruct (timers (advance dt w2) !! id) as [[d [c']]|] eqn:Ht4; [|discriminate].
  destruct (d <=? now (advance dt w2)); [|discriminate].
  injection Hs4 as <-.
  unfold watchdog. cbn zeta.
  assert (Heff : forall c0 w0, exists tail,
            effects (match Chain.loader c0 with
                     | Some l0 => reject (Chain.promise c0)
                         (mkLoadError FRAG_LOAD_TIMEOUT (Chain.frag c0)
                            (Chain.partList c0 !! Chain.partIndex c0) None
                            (loader_native l0 (resetLoader (Chain.frag c0) (Chain.loader c0) w0))
                            None) (resetLoader (Chain.frag c0) (Chain.loader c0) w0)
                     | None => resetLoader (Chain.frag c0) (Chain.loader c0) w0
                     end) = effects w0 ++ tail /\
            filter (fun e => abort_effect e = true) tail = []).
  { intros c0 w0.
    assert (Hr : forall fr lo, exists tail,
              effects (resetLoader fr lo w0) = effects w0 ++ tail /\
              filter (fun e => abort_effect e = true) tail = []).
    { intros fr lo. unfold resetLoader. wred.
      destruct (decide (FragmentLoader.loader (this w0) = lo)); wred.
      - eexists. split; reflexivity.
      - exists []. rewrite app_nil_r. split; reflexivity. }
    destruct (Chain.loader c0) as [l0|].
    - destruct (Hr (Chain.frag c0) (Some l0)) as (tail & Ht & Hn0).
      exists tail. split; [|exact Hn0].
      unfold reject. rewrite settle_effects. exact Ht.
    - apply Hr. }
  destruct (Heff c' (with_timers (delete id) (advance dt w2))) as (tail & -> & Hn0).
  wred. rewrite Hes, <- app_assoc, drop_app_length, filter_app, Hnoab, Hn0. reflexivity.
Qed.

(** ** The paths of [load] that settle at once *)

(** C8. With a part list and a progress callback, no independent part and
    no URL (a live hint fragment), [load] resolves with null and releases
    the transport it has just created: the fragment's loader reference
    and the loader slot are cleared, the timer named by [partLoadTimeout]
    is cleared, and no request is issued. *)
Theorem load_hint_resolves_null w frag fragObj ld tbt pl :
  fragments w !! frag = Some fragObj ->
  tracked_has_context w = true ->
  ld ≫= LevelDetails.partList = Some pl ->
  findIndependentPart pl frag (Math_max (Fragment.start fragObj) (or_zero tbt)) = -1 ->
  falsy_url (Fragment.url fragObj) = true ->
  exists w',
    load frag ld tbt true w = Some (Returned (nextPromise w, w')) /\
    promises w' !! nextPromise w = Some (Resolved None) /\
    released w' frag /\
    effects_since w w'
      = load_prologue w ++ [ClearTimeout (FragmentLoader.partLoadTimeout (this w))] /\
    filter (fun e => request_effect e = true) (effects_since w w') = [].
Proof.
  intros Hf Htc Hpl Hfind Hurl.
  destruct (abort_frame w)
    as (Ha1 & Ha2 & Ha3 & Ha4 & Ha5 & Ha6 & Ha7 & Ha8 & Ha9 & Ha10 & Ha11).
  unfold load. rewrite Hf, (abort_returns w Htc), Hpl. cbn zeta.
  unfold new_loader. cbn zeta. rewrite Hfind, Hurl.
  change (-1 <? -1) with false. cbn iota.
  rewrite resetLoader_tracked by reflexivity.
  unfold new_promise. cbn zeta. wred. rewrite Ha1, Ha10.
  unfold resolve. rewrite settle_pending by (wred; apply lookup_insert_eq).
  eexists. split; [reflexivity|].
  assert (Heff : forall tail,
            drop (length (effects w)) (effects (after_abort w) ++ tail)
            = match FragmentLoader.loader (this w) with
              | Some l0 => [LoaderAbort l0]
              | None => []
              end ++ tail).
  { intros tail. rewrite Ha11, <- app_assoc, drop_app_length. reflexivity. }
  split; [|split; [|split]].
  - wred. apply lookup_insert_eq.
  - unfold released, frag_loader. wred. split; [|split; [reflexivity|]].
    + rewrite lookup_alter, decide_True by reflexivity.
      rewrite lookup_alter, decide_True by reflexivity. rewrite Ha2, Hf. reflexivity.
    + apply lookup_delete_eq.
  - unfold effects_since, load_prologue. wred. rewrite Ha8, <- !app_assoc, Heff.
    reflexivity.
  - unfold effects_since. wred. rewrite <- !app_assoc, Heff.
    destruct (FragmentLoader.loader (this w)); reflexivity.
Qed.

(** C7 (as the code has it). With no URL and no usable part list (no part
    list, or no progress callback), [load] rejects at once with a
    load-error envelope and issues no request; the transport instance is
    created all the same, before the URL is looked at. *)
Theorem load_without_url_rejects w frag fragObj ld tbt onProgress :
  fragments w !! frag = Some fragObj ->
  tracked_has_context w = true ->
  falsy_url (Fragment.url fragObj) = true ->
  ld ≫= LevelDetails.partList = None \/ onProgress = false ->
  exists w',
    load frag ld tbt onProgress w = Some (Returned (nextPromise w, w')) /\
    promises w' !! nextPromise w = Some (Rejected (no_url_error frag)) /\
    effects_since w w' = load_prologue w /\
    filter (fun e => request_effect e = true) (effects_since w w') = [] /\
    filter (fun e => new_effect e = true) (effects_since w w')
      = [NewLoader (match HlsConfig.fLoader (FragmentLoader.config (this w)) with
                    | Some cls => cls
                    | None => HlsConfig.loader (FragmentLoader.config (this w))
                    end) (nextLoader w)].
Proof.
  intros Hf Htc Hurl Hno.
  destruct (abort_frame w)
    as (Ha1 & Ha2 & Ha3 & Ha4 & Ha5 & Ha6 & Ha7 & Ha8 & Ha9 & Ha10 & Ha11).
  unfold load. rewrite Hf, (abort_returns w Htc). cbn zeta. unfold new_loader. cbn zeta.
  assert (Hwhole : forall w0 l cfg op,
            nextPromise w0 = nextPromise w ->
            effects w0 = effects w ++ load_prologue w ->
            exists w', loadFragment frag fragObj l cfg op w0 = (nextPromise w, w') /\
              promises w' !! nextPromise w = Some (Rejected (no_url_error frag)) /\
              effects w' = effects w ++ load_prologue w).
  { intros w0 l cfg op Hnp Heff. unfold loadFragment. rewrite Hurl.
    unfold new_promise. cbn zeta. rewrite Hnp.
    unfold reject. rewrite settle_pending by (wred; apply lookup_insert_eq).
    eexists. split; [reflexivity|]. split; [wred; apply lookup_insert_eq|].
    wred. exact Heff. }
  match goal with
  | |- context [loadFragment frag fragObj ?l ?cfg onProgress ?w0] =>
      destruct (Hwhole w0 l cfg onProgress) as (w' & Hw & Hp & He)
  end.
  { wred. exact Ha10. }
  { wred. rewrite Ha8, Ha11, ?Ha1. unfold load_prologue. rewrite <- app_assoc.
    reflexivity. }
  exists w'. split.
  { destruct Hno as [-> | ->].
    - rewrite Hw. reflexivity.
    - destruct (ld ≫= LevelDetails.partList); rewrite Hw; reflexivity. }
  split; [exact Hp|].
  unfold effects_since. rewrite He, drop_app_length.
  split; [reflexivity|]. unfold load_prologue.
  destruct (FragmentLoader.loader (this w)); split; reflexivity.
Qed.

(** ** The statistics merge on the heap *)

Lemma updateStatsFromPart_writes w frag part f fragStats partStats :
  fragments w !! frag = Some f ->
  statsHeap w !! Fragment.stats f = Some fragStats ->
  statsHeap w !! Part.stats part = Some partStats ->
  statsHeap (updateStatsFromPart frag part w) !! Fragment.stats f
  = Some (updateStats fragStats partStats (Fragment.duration f) (Part.duration part)).
Proof.
  intros Hf Hfs Hps. unfold updateStatsFromPart. rewrite Hf, Hfs, Hps.
  wred. apply lookup_insert_eq.
Qed.

(** C6 (as the code has it). With a part total that is neither zero nor
    NaN, [updateStatsFromPart] adds the part's loaded count to the
    fragment's and sets the fragment's total to
    [loaded + partTotal + (round(fragDuration / partDuration) - round(loaded / partTotal))
     * round(loaded / round(loaded / partTotal))].  For a loaded count of
    1000 after the merge, durations 4 and 1 and a part total of 4000 the
    estimate of loaded parts is round(0.25) = 0 and the total is +Infinity;
    the value 5000 is the total for a part total of 1000. *)
Theorem updateStatsFromPart_total w frag part f fragStats partStats :
  fragments w !! frag = Some f ->
  statsHeap w !! Fragment.stats f = Some fragStats ->
  statsHeap w !! Part.stats part = Some partStats ->
  truthy (LoaderStats.total partStats) = true ->
  exists r,
    statsHeap (updateStatsFromPart frag part w) !! Fragment.stats f = Some r /\
    let loaded' := LoaderStats.loaded r in
    let partTotal := LoaderStats.total partStats in
    let fragDuration := Fragment.duration f in
    let partDuration := Part.duration part in
    loaded' = add (LoaderStats.loaded fragStats) (LoaderStats.loaded partStats) /\
    LoaderStats.total r
    = add (add loaded' partTotal)
          (mul (sub (Math_round (div fragDuration partDuration))
                    (Math_round (div loaded' partTotal)))
               (Math_round (div loaded' (Math_round (div loaded' partTotal))))) /\
    (loaded' = of_Z 1000 -> fragDuration = of_Z 4 -> partDuration = of_Z 1 ->
     (partTotal = of_Z 4000 -> LoaderStats.total r = Infinity false) /\
     (partTotal = of_Z 1000 -> LoaderStats.total r = of_Z 5000)).
Proof.
  intros Hf Hfs Hps Htotal. eexists. split.
  { apply (updateStatsFromPart_writes _ _ _ _ _ _ Hf Hfs Hps). }
  cbn zeta. split; [reflexivity|].
  pose proof (updateStats_total fragStats partStats (Fragment.duration f)
                (Part.duration part) Htotal) as Hformula.
  cbn zeta in Hformula. split; [exact Hformula|].
  intros Hl HfD HpD. rewrite Hformula, Hl, HfD, HpD.
  split; intros ->; reflexivity.
Qed.

(** An estimate of loaded parts that overflowed to +Infinity leaves no
    finite total either: the share per part is a zero and the remaining
    parts are infinitely many. *)
Lemma total_of_infinite_estimate (l pt et : number) :
  is_finite l = true ->
  is_finite (add (add l pt)
               (mul (sub et (Infinity false))
                    (Math_round (div l (Infinity false))))) = false.
Proof.
  intros Hl. apply add_not_finite.
  assert (Hd : exists s, div l (Infinity false) = Zero s).
  { unfold div. destruct l as [| |s|q]; try discriminate; simpl; [eauto|].
    unfold of_Q. destruct (Qeq_bool q 0); eauto. }
  destruct Hd as [s ->]. change (Math_round (Zero s)) with (Zero s).
  unfold sub, neg. change (canon (Infinity false)) with (Infinity false).
  cbn [negb]. unfold add. change (canon (Infinity true)) with (Infinity true).
  destruct (canon et) as [|b|b|q]; try reflexivity.
  destruct b; reflexivity.
Qed.

(** C10. With a part total that is neither zero nor NaN, when the estimate
    of loaded parts [round(loaded / partTotal)] is a zero, the merge
    divides by it and the fragment's total becomes Infinity or NaN.  For
    byte counters (integers, a loaded count [a >= 0] and a part total
    [0 < b < 2^53]) the estimate is a zero exactly when [a < b / 2], and a
    finite total requires an estimate of at least 1. *)
Theorem updateStatsFromPart_total_not_finite w frag part f fragStats partStats :
  fragments w !! frag = Some f ->
  statsHeap w !! Fragment.stats f = Some fragStats ->
  statsHeap w !! Part.stats part = Some partStats ->
  truthy (LoaderStats.total partStats) = true ->
  let loaded' := add (LoaderStats.loaded fragStats) (LoaderStats.loaded partStats) in
  let estLoadedParts := Math_round (div loaded' (LoaderStats.total partStats)) in
  exists r,
    statsHeap (updateStatsFromPart frag part w) !! Fragment.stats f = Some r /\
    (is_zero estLoadedParts = true -> is_finite (LoaderStats.total r) = false) /\
    (forall a b : Z,
       0 <= a -> 0 < b < 2 ^ 53 ->
       loaded' = of_Z a -> LoaderStats.total partStats = of_Z b ->
       (is_zero estLoadedParts = true <-> 2 * a < b) /\
       (is_finite (LoaderStats.total r) = true ->
        exists z : Z, 1 <= z /\ estLoadedParts = Num (inject_Z z))).
Proof.
  intros Hf Hfs Hps Htotal. cbn zeta. eexists. split.
  { apply (updateStatsFromPart_writes _ _ _ _ _ _ Hf Hfs Hps). }
  pose proof (updateStats_total fragStats partStats (Fragment.duration f)
                (Part.duration part) Htotal) as Hformula.
  cbn zeta in Hformula. rewrite updateStats_loaded in Hformula.
  assert (Hmain :
    is_zero (Math_round (div (add (LoaderStats.loaded fragStats)
                                  (LoaderStats.loaded partStats))
                             (LoaderStats.total partStats))) = true ->
    is_finite (LoaderStats.total (updateStats fragStats partStats
                 (Fragment.duration f) (Part.duration part))) = false).
  { intros Hz. rewrite Hformula.
    apply add_not_finite, mul_not_finite, round_not_finite.
    apply div_by_zero_not_finite. exact Hz. }
  split; [exact Hmain|].
  intros a b Ha Hb Hl Hpt. rewrite Hl, Hpt in *. split.
  - apply estLoadedParts_zero_iff; assumption.
  - intros Hfin.
    destruct (estLoadedParts_cases a b Ha Hb) as [Hz | [Hinf | Hnum]].
    + rewrite (Hmain Hz) in Hfin. discriminate.
    + rewrite Hformula, Hinf, total_of_infinite_estimate in Hfin; [discriminate|].
      unfold of_Z, of_Q. destruct (Qeq_bool (inject_Z a) 0); reflexivity.
    + exact Hnum.
Qed.

(** ** Invariants *)

(** [Inv] reads the loader slot, the three counters, the promises, the
    transports and the timers only. *)
Lemma Inv_frame w w' :
  FragmentLoader.loader (this w') = FragmentLoader.loader (this w) ->
  nextLoader w' = nextLoader w -> nextPromise w' = nextPromise w ->
  promises w' = promises w -> transports w' = transports w ->
  timers w' = timers w ->
  Inv w -> Inv w'.
Proof.
  intros Hl Hnl Hnp Hp Ht Hti [H1 H2 H3 H4 H5 H6].
  constructor; rewrite ?Hl, ?Hnl, ?Hnp, ?Hp, ?Ht, ?Hti; assumption.
Qed.

Lemma Inv_init config frags stats : Inv (init config frags stats).
Proof.
  constructor; cbn [init promises transports timers];
    intros *; rewrite ?lookup_empty; discriminate.
Qed.

Lemma settle_frame p s w :
  exists m, settle p s w = with_promises (fun _ => m) w /\
    (forall q, m !! q = promises w !! q \/
               (q = p /\ promises w !! p = Some Pending /\ m !! q = Some s)).
Proof.
  unfold settle. destruct (promises w !! p) as [[]|] eqn:E.
  - exists (<[p := s]> (promises w)). split; [reflexivity|].
    intros q. destruct (decide (q = p)) as [->|Hne].
    + right. rewrite lookup_insert_eq. auto.
    + left. apply lookup_insert_ne. congruence.
  - exists (promises w). split; [destruct w; reflexivity | auto].
  - exists (promises w). split; [destruct w; reflexivity | auto].
  - exists (promises w). split; [destruct w; reflexivity | auto].
Qed.

Lemma Inv_settle p s w :
  (forall r, s = Rejected r -> envelope_ok r) -> s <> Pending ->
  Inv w -> Inv (settle p s w).
Proof.
  intros Hs Hne [H1 H2 H3 H4 H5 H6].
  destruct (settle_frame p s w) as (m & -> & Hm).
  constructor; wred; try assumption.
  - intros q r Hq. destruct (Hm q) as [E | (-> & _ & E)]; rewrite E in Hq.
    + eapply H1; eassumption.
    + injection Hq as ->. apply Hs. reflexivity.
  - intros l t cbs Ht Hcb Hab Hpe. apply (H6 l t cbs Ht Hcb Hab).
    destruct (Hm (cb_promise cbs)) as [E | (_ & _ & E)]; rewrite E in Hpe.
    + exact Hpe.
    + congruence.
Qed.

Lemma Inv_emit e w : Inv w -> Inv (emit e w).
Proof. apply Inv_frame; reflexivity. Qed.

Lemma Inv_with_statsHeap f w : Inv w -> Inv (with_statsHeap f w).
Proof. apply Inv_frame; reflexivity. Qed.

Lemma Inv_with_fragments f w : Inv w -> Inv (with_fragments f w).
Proof. apply Inv_frame; reflexivity. Qed.

Lemma Inv_with_results f w : Inv w -> Inv (with_results f w).
Proof. apply Inv_frame; reflexivity. Qed.

Lemma Inv_advance dt w : Inv w -> Inv (advance dt w).
Proof. apply Inv_frame; reflexivity. Qed.

Lemma Inv_set_partLoadTimeout id w : Inv w -> Inv (set_partLoadTimeout id w).
Proof. apply Inv_frame; reflexivity. Qed.

Lemma Inv_updateStatsFromPart frag part w : Inv w -> Inv (updateStatsFromPart frag part w).
Proof.
  destruct (updateStatsFromPart_frame frag part w) as (h & -> & _).
  apply Inv_with_statsHeap.
Qed.

Lemma Inv_set_frag_aborted frag b w : Inv w -> Inv (set_frag_aborted frag b w).
Proof.
  unfold set_frag_aborted. destruct (fragments w !! frag); [|auto].
  apply Inv_with_statsHeap.
Qed.

(** A change of one transport that keeps or ends its request and keeps or
    sets its abort signal. *)
Lemma Inv_alter_transport f l w :
  (forall t, Transport.callbacks (f t) = Transport.callbacks t \/
             Transport.callbacks (f t) = None) ->
  (forall t, Transport.aborting (f t) = Transport.aborting t \/
             Transport.aborting (f t) = true) ->
  Inv w -> Inv (with_transports (alter f l) w).
Proof.
  intros Hcb Hab [H1 H2 H3 H4 H5 H6].
  assert (Hold : forall l' t' cbs, alter f l (transports w) !! l' = Some t' ->
            Transport.callbacks t' = Some cbs ->
            exists t, transports w !! l' = Some t /\ Transport.callbacks t = Some cbs /\
                      (Transport.aborting t' = false -> Transport.aborting t = false)).
  { intros l' t' cbs Ht Hc.
    apply lookup_alter_Some in Ht as [(-> & t & Ht & ->) | (Hne & Ht)].
    - exists t. split; [exact Ht|].
      destruct (Hcb t) as [E|E]; rewrite E in Hc; [|discriminate].
      split; [exact Hc|]. destruct (Hab t) as [E'|E']; rewrite E'; congruence.
    - exists t'. auto. }
  constructor; wred; try assumption.
  - intros l' t' cbs Ht Hc. destruct (Hold _ _ _ Ht Hc) as (t & Ht0 & Hc0 & _). eauto.
  - intros l' t' Ht.
    apply lookup_alter_Some in Ht as [(-> & t & Ht & ->) | (Hne & Ht)]; eauto.
  - intros id d c H. destruct (H5 id d c H) as (l0 & Hl0 & Hlt & Hp).
    exists l0. split; [exact Hl0|]. split; [exact Hlt|].
    intros t' cbs Ht Hc. destruct (Hold _ _ _ Ht Hc) as (t & Ht0 & Hc0 & _). eauto.
  - intros l' t' cbs Ht Hc Ha Hp. destruct (Hold _ _ _ Ht Hc) as (t & Ht0 & Hc0 & Ha0).
    eauto.
Qed.

Lemma Inv_end_request l w : Inv w -> Inv (end_request l w).
Proof. apply Inv_alter_transport; intros t; simpl; auto. Qed.

Lemma Inv_set_loader_stats l sid w : Inv w -> Inv (set_loader_stats l sid w).
Proof. apply Inv_alter_transport; intros t; simpl; auto. Qed.

Lemma Inv_loader_abort l w : Inv w -> Inv (loader_abort l w).
Proof.
  intros H. unfold loader_abort. apply Inv_emit.
  apply Inv_alter_transport; [| |exact H]; intros t; simpl; auto.
Qed.

Lemma Inv_abort w : Inv w -> Inv (after_abort w).
Proof.
  unfold after_abort. destruct (FragmentLoader.loader (this w)); [|auto].
  apply Inv_loader_abort.
Qed.

Lemma Inv_transport_update l st native w w' :
  transport_update l st native w = Some w' -> Inv w -> Inv w'.
Proof.
  unfold transport_update. destruct (transports w !! l) as [t|] eqn:Ht; [|discriminate].
  intros [= <-] [H1 H2 H3 H4 H5 H6].
  assert (Hold : forall l' t', <[l := Transport.mk (Transport.stats t)
              (Transport.callbacks t) (Transport.aborting t) native
              (Transport.context t)]> (transports w)
              !! l' = Some t' ->
            exists t0, transports w !! l' = Some t0 /\
              Transport.callbacks t0 = Transport.callbacks t' /\
              Transport.aborting t0 = Transport.aborting t').
  { intros l' t' Hl. rewrite lookup_insert in Hl. case_decide.
    - subst l'. injection Hl as <-. exists t. auto.
    - exists t'. auto. }
  assert (Inv (with_transports
            <[l := Transport.mk (Transport.stats t) (Transport.callbacks t)
                     (Transport.aborting t) native (Transport.context t)]> w)) as HI.
  { constructor; wred; try assumption.
    - intros l' t' cbs Hl Hc. destruct (Hold _ _ Hl) as (t0 & Ht0 & Hc0 & _).
      rewrite <- Hc0 in Hc. eauto.
    - intros l' t' Hl. destruct (Hold _ _ Hl) as (t0 & Ht0 & _). eauto.
    - intros id d c H. destruct (H5 id d c H) as (l0 & Hl0 & Hlt & Hp).
      exists l0. split; [exact Hl0|]. split; [exact Hlt|].
      intros t' cbs Hl Hc. destruct (Hold _ _ Hl) as (t0 & Ht0 & Hc0 & _).
      rewrite <- Hc0 in Hc. eauto.
    - intros l' t' cbs Hl Hc Ha Hp. destruct (Hold _ _ Hl) as (t0 & Ht0 & Hc0 & Ha0).
      rewrite <- Hc0 in Hc. rewrite <- Ha0 in Ha. eauto. }
  destruct (Transport.stats t); [apply Inv_with_statsHeap|]; exact HI.
Qed.

Lemma Inv_new_promise w : Inv w -> Inv (snd (new_promise w)).
Proof.
  intros [H1 H2 H3 H4 H5 H6]. unfold new_promise. cbn [snd].
  constructor; wred; try assumption.
  - intros p r Hp. rewrite lookup_insert in Hp. case_decide; [discriminate|]. eauto.
  - intros l t cbs Ht Hc. destruct (H2 l t cbs Ht Hc). split; [assumption | lia].
  - intros l t cbs Ht Hc Ha Hp. rewrite lookup_insert in Hp. case_decide.
    + destruct (H2 l t cbs Ht Hc). lia.
    + eauto.
Qed.

Lemma Inv_new_loader cls w : Inv w -> Inv (snd (new_loader cls w)).
Proof.
  intros [H1 H2 H3 H4 H5 H6]. unfold new_loader. cbn [snd]. apply Inv_emit.
  assert (Hold : forall l t cbs,
            <[nextLoader w := Transport.mk None None false JsUndefined None]> (transports w)
              !! l = Some t ->
            Transport.callbacks t = Some cbs -> transports w !! l = Some t).
  { intros l t cbs Ht Hc. rewrite lookup_insert in Ht. case_decide; [|exact Ht].
    injection Ht as <-. discriminate. }
  constructor; wred; try assumption.
  - intros l t cbs Ht Hc. eauto.
  - intros l t Ht. rewrite lookup_insert in Ht. case_decide; [lia|].
    apply H3 in Ht. lia.
  - intros l Hl. apply H4 in Hl. lia.
  - intros id d c H. destruct (H5 id d c H) as (l0 & Hl0 & Hlt & Hp).
    exists l0. split; [exact Hl0|]. split; [lia|].
    intros t cbs Ht Hc. eauto.
  - intros l t cbs Ht Hc. eauto.
Qed.

Lemma Inv_delete_timer id w : Inv w -> Inv (with_timers (delete id) w).
Proof.
  intros [H1 H2 H3 H4 H5 H6]. constructor; wred; try assumption.
  intros id' d c H. rewrite lookup_delete in H. case_decide; [discriminate|]. eauto.
Qed.

Lemma Inv_clearTimeout id w : Inv w -> Inv (clearTimeout id w).
Proof. intros H. unfold clearTimeout. apply Inv_emit, Inv_delete_timer, H. Qed.

Lemma Inv_set_this_loader x w :
  (forall l, x = Some l -> (l < nextLoader w)%nat) ->
  (forall l, active w l -> x = Some l) ->
  Inv w -> Inv (set_this_loader x w).
Proof.
  intros Hx Hact [H1 H2 H3 H4 H5 H6]. constructor; wred; try assumption.
  intros l t cbs Ht Hc Ha Hp. apply Hact. exists t, cbs. auto.
Qed.

Lemma Inv_resetLoader frag loader w :
  (forall l0, loader = Some l0 -> ~ active w l0) ->
  Inv w -> Inv (resetLoader frag loader w).
Proof.
  intros Hidle H. unfold resetLoader. cbn zeta.
  destruct (decide (FragmentLoader.loader (this (set_frag_loader frag None w)) = loader))
    as [E|E]; [|apply Inv_with_fragments; exact H].
  wred_in E. apply Inv_set_this_loader; [discriminate | |].
  - intros l (t & cbs & Ht & Hc & Ha & Hp). exfalso.
    wred_in Ht. wred_in Hp.
    pose proof (inv_single w H l t cbs Ht Hc Ha Hp) as Htr.
    apply (Hidle l); [congruence|]. exists t, cbs. auto.
  - apply Inv_clearTimeout, Inv_with_fragments, H.
Qed.

Lemma Inv_loader_load l ctx cfg cbs w :
  callbacks_ok l cbs ->
  (cb_promise cbs < nextPromise w)%nat ->
  (forall t, transports w !! l = Some t -> Transport.aborting t = false ->
     promises w !! cb_promise cbs = Some Pending ->
     FragmentLoader.loader (this w) = Some l) ->
  (forall id d c, timers w !! id = Some (Timer.mk d (Watchdog c)) ->
     Chain.loader c = Some l -> Chain.promise c = cb_promise cbs) ->
  Inv w -> Inv (loader_load l ctx cfg cbs w).
Proof.
  intros Hok Hlt Htracked Htimers [H1 H2 H3 H4 H5 H6].
  unfold loader_load. apply Inv_emit.
  constructor; wred; try assumption.
  - intros l' t' cbs' Ht Hc.
    apply lookup_alter_Some in Ht as [(-> & t & Ht & ->) | (Hne & Ht)]; [|eauto].
    cbn in Hc. injection Hc as <-. auto.
  - intros l' t' Ht.
    apply lookup_alter_Some in Ht as [(-> & t & Ht & ->) | (Hne & Ht)]; eauto.
  - intros id d c H. destruct (H5 id d c H) as (l0 & Hl0 & Hl0lt & Hp).
    exists l0. split; [exact Hl0|]. split; [exact Hl0lt|].
    intros t' cbs' Ht Hc.
    apply lookup_alter_Some in Ht as [(-> & t & Ht & ->) | (Hne & Ht)]; [|eauto].
    cbn in Hc. injection Hc as <-. symmetry. eauto.
  - intros l' t' cbs' Ht Hc Ha Hp.
    apply lookup_alter_Some in Ht as [(-> & t & Ht & ->) | (Hne & Ht)]; [|eauto].
    cbn in Hc, Ha. injection Hc as <-. eauto.
Qed.

Lemma Inv_setTimeout c d w :
  (exists l, Chain.loader c = Some l /\ (l < nextLoader w)%nat /\
     forall t cbs, transports w !! l = Some t -> Transport.callbacks t = Some cbs ->
       cb_promise cbs = Chain.promise c) ->
  Inv w -> Inv (snd (setTimeout (Watchdog c) d w)).
Proof.
  intros Hc [H1 H2 H3 H4 H5 H6]. unfold setTimeout. cbn [snd]. apply Inv_emit.
  constructor; wred; try assumption.
  intros id d' c' H. rewrite lookup_insert in H. case_decide; [|eauto].
  injection H as <- <-. exact Hc.
Qed.

Lemma settle_resetLoader p s frag loader w :
  settle p s (resetLoader frag loader w) = resetLoader frag loader (settle p s w).
Proof.
  destruct (settle_frame p s w) as (m & E & _).
  unfold settle in *. unfold resetLoader. cbn zeta. wred.
  destruct (decide (FragmentLoader.loader (this w) = loader)) as [D|D].
  - wred. destruct (promises w !! p) as [[]|]; wred;
      rewrite ?decide_True by exact D; reflexivity.
  - wred. destruct (promises w !! p) as [[]|]; wred;
      rewrite ?decide_False by exact D; reflexivity.
Qed.

Lemma not_active_idle w l t :
  transports w !! l = Some t -> Transport.callbacks t = None -> ~ active w l.
Proof. intros Ht Hc (t' & cbs & Ht' & Hc' & _). congruence. Qed.

Lemma not_active_missing w l : transports w !! l = None -> ~ active w l.
Proof. intros Ht (t' & cbs & Ht' & _). congruence. Qed.

Lemma end_request_idle w l : ~ active (end_request l w) l.
Proof.
  intros (t' & cbs & Ht & Hc & _). wred_in Ht.
  apply lookup_alter_Some in Ht as [(_ & t & Ht & ->) | (Hne & Ht)]; [|congruence].
  discriminate.
Qed.

Lemma active_frame w w' l :
  transports w' = transports w -> promises w' = promises w ->
  active w' l -> active w l.
Proof. intros Ht Hp (t & cbs & H). rewrite Ht, Hp in H. exists t, cbs. exact H. Qed.

(** A terminal callback of a request: the request has ended, the loader
    is reset for its transport and the promise is settled. *)
Lemma Inv_finish frag l p s w :
  ~ active w l ->
  (forall r, s = Rejected r -> envelope_ok r) -> s <> Pending ->
  Inv w -> Inv (settle p s (resetLoader frag (Some l) w)).
Proof.
  intros Hidle Hs Hne H. apply Inv_settle; [exact Hs | exact Hne |].
  apply Inv_resetLoader; [|exact H].
  intros l0 [= <-]. exact Hidle.
Qed.

Lemma envelope_mkLoadError details frag part response nd msg :
  details = FRAG_LOAD_ERROR \/ details = FRAG_LOAD_TIMEOUT \/ details = INTERNAL_ABORTED ->
  forall r, Rejected (mkLoadError details frag part response nd msg) = Rejected r ->
  envelope_ok r.
Proof. intros Hd r [= <-]. cbn. auto. Qed.

Lemma findIndependentPart_in_range partList frag targetBufferTime :
  -1 < findIndependentPart partList frag targetBufferTime ->
  exists part,
    partList !! Z.to_nat (findIndependentPart partList frag targetBufferTime) = Some part
    /\ Part.independent part = true /\ Part.fragment part = frag.
Proof.
  intros H.
  destruct (findIndependentPart_found partList frag targetBufferTime
              (Z.to_nat (findIndependentPart partList frag targetBufferTime)))
    as (p & Hp & Hi & Hf); [lia|].
  exists p. auto.
Qed.

Lemma set_frag_aborted_frame frag b w :
  exists h, set_frag_aborted frag b w = with_statsHeap (fun _ => h) w.
Proof.
  unfold set_frag_aborted. destruct (fragments w !! frag).
  - eexists. reflexivity.
  - exists (statsHeap w). destruct w; reflexivity.
Qed.

Lemma Inv_frag_onSuccess frag l p w :
  Inv w -> Inv (frag_onSuccess frag l p (end_request l w)).
Proof.
  intros H. unfold frag_onSuccess, resolve.
  apply Inv_finish; [apply end_request_idle | discriminate | discriminate |].
  apply Inv_end_request, H.
Qed.

Lemma Inv_frag_onError frag l p response nd w :
  Inv w -> Inv (frag_onError frag l p response nd (end_request l w)).
Proof.
  intros H. unfold frag_onError, reject.
  apply Inv_finish; [apply end_request_idle | | discriminate |].
  - apply envelope_mkLoadError. auto.
  - apply Inv_end_request, H.
Qed.

Lemma Inv_frag_onAbort frag l p nd w :
  Inv w -> Inv (frag_onAbort frag l p nd (end_request l w)).
Proof.
  intros H. unfold frag_onAbort, reject.
  apply Inv_finish; [apply end_request_idle | | discriminate |].
  - apply envelope_mkLoadError. auto.
  - apply Inv_end_request, H.
Qed.

Lemma Inv_frag_onTimeout frag l p nd w :
  Inv w -> Inv (frag_onTimeout frag l p nd (end_request l w)).
Proof.
  intros H. unfold frag_onTimeout, reject.
  apply Inv_finish; [apply end_request_idle | | discriminate |].
  - apply envelope_mkLoadError. auto.
  - apply Inv_end_request, H.
Qed.

Lemma Inv_part_onError c part l response nd w :
  Inv w -> Inv (part_onError c part l response nd (end_request l w)).
Proof.
  intros H. unfold part_onError, reject.
  apply Inv_finish; [apply end_request_idle | | discriminate |].
  - apply envelope_mkLoadError. auto.
  - apply Inv_end_request, H.
Qed.

Lemma Inv_part_onTimeout c part l nd w :
  Inv w -> Inv (part_onTimeout c part l nd (end_request l w)).
Proof.
  intros H. unfold part_onTimeout, reject.
  apply Inv_finish; [apply end_request_idle | | discriminate |].
  - apply envelope_mkLoadError. auto.
  - apply Inv_end_request, H.
Qed.

Lemma Inv_part_onAbort c part l nd w :
  Inv w -> Inv (part_onAbort c part l nd (end_request l w)).
Proof.
  intros H. unfold part_onAbort, reject. cbn zeta.
  assert (Hw : exists h,
            match statsHeap (end_request l w) !! Part.stats part with
            | Some partStats =>
                set_frag_aborted (Chain.frag c) (LoaderStats.aborted partStats)
                  (end_request l w)
            | None => end_request l w
            end = with_statsHeap (fun _ => h) (end_request l w)).
  { destruct (statsHeap (end_request l w) !! Part.stats part).
    - apply set_frag_aborted_frame.
    - exists (statsHeap (end_request l w)). destruct w; reflexivity. }
  destruct Hw as (h & ->).
  apply Inv_finish; [| | discriminate |].
  - intros Ha. apply (end_request_idle w l).
    apply (active_frame _ _ _ eq_refl eq_refl Ha).
  - apply envelope_mkLoadError. auto.
  - apply Inv_with_statsHeap, Inv_end_request, H.
Qed.

Lemma Inv_part_onSuccess c i part data nd l t w :
  Inv w ->
  transports w !! l = Some t ->
  Transport.callbacks t = Some (PartCallbacks c i part l) ->
  Transport.aborting t = false ->
  Inv (part_onSuccess c i part data nd (end_request l w)).
Proof.
  intros H Ht Hcb Hab.
  destruct (inv_callbacks w H l t _ Ht Hcb) as [(_ & Hl & Hpart) Hfresh].
  cbn [cb_promise] in Hfresh.
  unfold part_onSuccess.
  destruct (updateStatsFromPart_frame (Chain.frag c) part (end_request l w))
    as (h & -> & _).
  unfold partLoaded. cbn zeta.
  set (W := record_part (Chain.promise c) (Part.index part)
              (FragLoadedData.mk (Chain.frag c) (Some part) data nd)
              (emit (Progress (FragLoadedData.mk (Chain.frag c) (Some part) data nd))
                 (with_statsHeap (fun _ => h) (end_request l w)))).
  assert (HW : Inv W).
  { apply Inv_with_results, Inv_emit, Inv_with_statsHeap, Inv_end_request, H. }
  assert (Hidle : ~ active W l).
  { intros Ha. apply (end_request_idle w l).
    apply (active_frame _ _ _ eq_refl eq_refl Ha). }
  rewrite (lookup_lt_length _ _ _ Hpart).
  destruct (Nat.eqb_spec (length (Chain.partList c)) (S i)) as [Hlast | Hmore].
  - rewrite Hl.
    destruct (set_frag_aborted_frame (Chain.frag c) true
                (resetLoader (Chain.frag c) (Some l) W)) as (h' & ->).
    unfold reject.
    destruct (settle_frame (Chain.promise c)
                (Rejected (mkLoadError INTERNAL_ABORTED (Chain.frag c)
                   (FragLoadedData.part (FragLoadedData.mk (Chain.frag c) (Some part) data nd))
                   None
                   (FragLoadedData.networkDetails
                      (FragLoadedData.mk (Chain.frag c) (Some part) data nd)) None))
                (with_statsHeap (fun _ => h') (resetLoader (Chain.frag c) (Some l) W)))
      as (m & Em & _).
    assert (Hcomm : forall s,
              settle (Chain.promise c) s
                (with_statsHeap (fun _ => h') (resetLoader (Chain.frag c) (Some l) W))
              = with_statsHeap (fun _ => h')
                  (settle (Chain.promise c) s (resetLoader (Chain.frag c) (Some l) W))).
    { intros s. unfold settle. wred.
      destruct (promises (resetLoader (Chain.frag c) (Some l) W) !! Chain.promise c)
        as [[]|]; reflexivity. }
    rewrite Hcomm. apply Inv_with_statsHeap.
    apply Inv_finish; [exact Hidle | | discriminate | exact HW].
    apply envelope_mkLoadError. auto.
  - assert (Hnext : exists next, Chain.partList c !! (i + 1)%nat = Some next).
    { apply lookup_lt_is_Some. apply lookup_lt_Some in Hpart. lia. }
    destruct Hnext as [next Hnext]. rewrite Hnext.
    destruct (decide (Part.fragment next = Chain.frag c)) as [Hsame | Hother].
    + unfold loadPartIndex, loadPart. rewrite Hnext, Hl.
      apply Inv_loader_load.
      * cbn. auto.
      * exact Hfresh.
      * intros t' Ht' Ha' Hp'. subst W. wred_in Hp'. wred.
        apply (inv_single w H l t _ Ht Hcb Hab Hp').
      * intros id d c0 Hc0 Hl0. subst W. wred_in Hc0.
        destruct (inv_timers w H id d c0 Hc0) as (l0 & Hl0' & _ & Hp0).
        rewrite Hl0 in Hl0'. injection Hl0' as <-.
        symmetry. apply (Hp0 t _ Ht Hcb).
      * apply Inv_set_loader_stats, HW.
    + rewrite Hl. unfold resolve.
      apply Inv_finish; [exact Hidle | discriminate | discriminate | exact HW].
Qed.

Lemma settle_not_pending p s w :
  s <> Pending -> promises (settle p s w) !! p <> Some Pending.
Proof.
  intros Hs. unfold settle. destruct (promises w !! p) as [[]|] eqn:E; wred.
  - rewrite lookup_insert_eq. congruence.
  - rewrite E. discriminate.
  - rewrite E. discriminate.
  - rewrite E. discriminate.
Qed.

Lemma Inv_watchdog id d c w :
  Inv w -> timers w !! id = Some (Timer.mk d (Watchdog c)) ->
  Inv (watchdog c (with_timers (delete id) w)).
Proof.
  intros H Hid. destruct (inv_timers w H id d c Hid) as (l & Hl & _ & Hp).
  unfold watchdog. rewrite Hl. cbn zeta. unfold reject.
  rewrite settle_resetLoader.
  apply Inv_resetLoader.
  - intros l0 [= <-] (t & cbs & Ht & Hc & Ha & Hpe).
    destruct (settle_frame (Chain.promise c)
                (Rejected (mkLoadError FRAG_LOAD_TIMEOUT (Chain.frag c)
                   (Chain.partList c !! Chain.partIndex c) None
                   (loader_native l (resetLoader (Chain.frag c) (Some l)
                                       (with_timers (delete id) w))) None))
                (with_timers (delete id) w)) as (m & Em & _).
    rewrite Em in Ht. wred_in Ht.
    rewrite (Hp t cbs Ht Hc) in Hpe.
    apply settle_not_pending in Hpe; [exact Hpe | discriminate].
  - apply Inv_settle; [apply envelope_mkLoadError; auto | discriminate |].
    apply Inv_delete_timer, H.
Qed.

Lemma abort_no_active w : Inv w -> forall l, ~ active (after_abort w) l.
Proof.
  intros H l (t & cbs & Ht & Hc & Ha & Hp). unfold after_abort in *.
  destruct (FragmentLoader.loader (this w)) as [l0|] eqn:E.
  - wred_in Ht. wred_in Hp.
    apply lookup_alter_Some in Ht as [(<- & t0 & Ht & ->) | (Hne & Ht)].
    + discriminate.
    + pose proof (inv_single w H l t cbs Ht Hc Ha Hp). congruence.
  - pose proof (inv_single w H l t cbs Ht Hc Ha Hp). congruence.
Qed.

Lemma load_installs frag cls w :
  Inv w ->
  installed
    (set_this_loader (Some (nextLoader w))
       (set_frag_loader frag (Some (nextLoader w)) (snd (new_loader cls (after_abort w)))))
    (nextLoader w).
Proof.
  intros H.
  destruct (abort_frame w)
    as (Ha1 & Ha2 & Ha3 & Ha4 & Ha5 & Ha6 & Ha7 & Ha8 & Ha9 & Ha10 & Ha11).
  pose proof (Inv_abort w H) as HA.
  pose proof (Inv_new_loader cls _ HA) as HN.
  constructor.
  - apply Inv_set_this_loader.
    + intros l [= <-]. wred. rewrite Ha8. lia.
    + intros l (t & cbs & Ht & Hc & Hab & Hp). exfalso. wred_in Ht. wred_in Hp.
      rewrite lookup_insert in Ht. case_decide.
      * injection Ht as <-. discriminate.
      * apply (abort_no_active w H l). exists t, cbs. auto.
    + apply Inv_with_fragments, HN.
  - reflexivity.
  - eexists. wred. rewrite Ha8. split; [apply lookup_insert_eq | split; reflexivity].
  - wred. rewrite Ha8. lia.
  - intros id d c Hid Hl. wred_in Hid.
    destruct (inv_timers _ HA id d c Hid) as (l0 & Hl0 & Hlt & _).
    rewrite Hl in Hl0. injection Hl0 as <-. rewrite Ha8 in Hlt. lia.
Qed.

Lemma Inv_loadFragmentParts partList s part frag cfg W l :
  installed W l -> partList !! s = Some part ->
  Inv (snd (loadFragmentParts partList s frag cfg W)).
Proof.
  intros [HI Htr (t & Ht & Hcb & Hab) Hfresh Htimers] Hpart.
  unfold loadFragmentParts.
  change (new_promise W) with (nextPromise W, snd (new_promise W)). cbn iota zeta.
  set (c := Chain.mk partList s frag (FragmentLoader.loader (this (snd (new_promise W))))
              cfg (nextPromise W)).
  change (setTimeout (Watchdog c) (LoaderConfiguration.timeout cfg) (snd (new_promise W)))
    with (nextTimer (snd (new_promise W)),
          snd (setTimeout (Watchdog c) (LoaderConfiguration.timeout cfg)
                 (snd (new_promise W)))).
  cbn iota zeta. cbn [snd].
  assert (Hc : Chain.loader c = Some l).
  { unfold c. cbn [Chain.loader]. wred. exact Htr. }
  unfold loadPartIndex. unfold c at 1. cbn [Chain.partList]. rewrite Hpart.
  unfold loadPart. rewrite Hc.
  apply Inv_loader_load.
  - cbn. auto.
  - cbn [cb_promise]. unfold c. cbn [Chain.promise]. wred. lia.
  - intros t0 _ _ _. wred. exact Htr.
  - intros id d c0 Hid Hl0. wred_in Hid. cbn [cb_promise].
    rewrite lookup_insert in Hid. case_decide.
    + injection Hid as _ <-. reflexivity.
    + exfalso. apply (Htimers id d c0 Hid Hl0).
  - apply Inv_set_loader_stats, Inv_with_results, Inv_set_partLoadTimeout.
    apply Inv_setTimeout; [|apply Inv_new_promise, HI].
    exists l. split; [exact Hc|]. split; [wred; exact Hfresh|].
    intros t' cbs Ht' Hcb'. wred_in Ht'. congruence.
Qed.

Lemma Inv_loadFragment frag fragObj cfg onProgress W l :
  installed W l ->
  Inv (snd (loadFragment frag fragObj l cfg onProgress W)).
Proof.
  intros [HI Htr (t & Ht & Hcb & Hab) Hfresh Htimers].
  unfold loadFragment. destruct (falsy_url (Fragment.url fragObj)).
  - change (new_promise W) with (nextPromise W, snd (new_promise W)). cbn iota zeta.
    cbn [snd]. unfold reject.
    apply Inv_settle; [apply envelope_mkLoadError; auto | discriminate |].
    apply Inv_new_promise, HI.
  - change (new_promise W) with (nextPromise W, snd (new_promise W)). cbn iota zeta.
    cbn [snd].
    apply Inv_loader_load.
    + reflexivity.
    + cbn [cb_promise]. wred. lia.
    + intros t0 _ _ _. wred. exact Htr.
    + intros id d c0 Hid Hl0. wred_in Hid. exfalso. apply (Htimers id d c0 Hid Hl0).
    + apply Inv_set_loader_stats, Inv_new_promise, HI.
Qed.

Lemma Inv_load frag ld tbt onProgress w p w' :
  load frag ld tbt onProgress w = Some (Returned (p, w')) -> Inv w -> Inv w'.
Proof.
  unfold load. destruct (fragments w !! frag) as [fragObj|]; [|discriminate].
  rewrite abort_spec. destruct (tracked_has_context w); [|discriminate].
  cbn zeta. intros Hload H.
  set (cls := match HlsConfig.fLoader (FragmentLoader.config (this w)) with
              | Some c => c
              | None => HlsConfig.loader (FragmentLoader.config (this w))
              end) in *.
  change (new_loader cls (after_abort w))
    with (nextLoader (after_abort w), snd (new_loader cls (after_abort w))) in Hload.
  cbn iota zeta in Hload.
  assert (Hnl : nextLoader (after_abort w) = nextLoader w) by apply abort_frame.
  rewrite Hnl in Hload.
  pose proof (load_installs frag cls w H) as Hins.
  set (W := set_this_loader (Some (nextLoader w))
              (set_frag_loader frag (Some (nextLoader w))
                 (snd (new_loader cls (after_abort w))))) in *.
  assert (Hwhole : forall cfg,
            Inv (snd (loadFragment frag fragObj (nextLoader w) cfg onProgress W))).
  { intros cfg. apply (Inv_loadFragment _ _ _ _ _ _ Hins). }
  injection Hload as Hload.
  apply (f_equal snd) in Hload. cbn [snd] in Hload. subst w'.
  destruct (ld ≫= LevelDetails.partList) as [partList|]; [|apply Hwhole].
  destruct onProgress; [|apply Hwhole].
  match goal with
  | |- context [-1 <? ?idx] => destruct (Z.ltb_spec (-1) idx) as [Hidx | Hidx]
  end.
  - destruct (findIndependentPart_in_range _ _ _ Hidx) as (part & Hpart & _).
    apply (Inv_loadFragmentParts _ _ _ _ _ _ _ Hins Hpart).
  - destruct (falsy_url (Fragment.url fragObj)); [|apply Hwhole].
    change (new_promise (resetLoader frag (FragmentLoader.loader (this W)) W))
      with (nextPromise (resetLoader frag (FragmentLoader.loader (this W)) W),
            snd (new_promise (resetLoader frag (FragmentLoader.loader (this W)) W))).
    cbn iota zeta. cbn [snd]. unfold resolve.
    apply Inv_settle; [discriminate | discriminate |].
    apply Inv_new_promise, Inv_resetLoader; [|apply Hins].
    intros l0 Hl0.
    assert (E : Some l0 = Some (nextLoader w))
      by (rewrite <- Hl0; exact (ins_tracked _ _ Hins)).
    injection E as ->.
    destruct (ins_idle _ _ Hins) as (t & Ht & Hcb & _).
    apply (not_active_idle _ _ _ Ht Hcb).
Qed.

(** Every step of the environment preserves the invariants. *)
Lemma Inv_step w e w' : step w e = Some w' -> Inv w -> Inv w'.
Proof.
  destruct e as [frag ld tbt op | | l st native | l data nd | l response nd | l nd
                | l nd | l data nd | id | dt]; cbn [step].
  - destruct (load frag ld tbt op w) as [[[p w0]|]|] eqn:E; [| |discriminate].
    + intros [= <-]. apply (Inv_load _ _ _ _ _ _ _ E).
    + intros [= <-]. auto.
  - rewrite abort_spec.
    destruct (tracked_has_context w); intros [= <-]; [apply Inv_abort | auto].
  - apply Inv_transport_update.
  - unfold in_flight. destruct (transports w !! l) as [t|] eqn:Ht; [|discriminate].
    destruct (Transport.callbacks t) as [[frag loader p op | c i part loader]|] eqn:Hc;
      [| |discriminate]; destruct (Transport.aborting t) eqn:Ha; try discriminate;
      intros [= <-] H.
    + destruct (inv_callbacks w H l t _ Ht Hc) as [Hok _]. cbn in Hok. subst loader.
      apply Inv_frag_onSuccess, H.
    + destruct (inv_callbacks w H l t _ Ht Hc) as [[Hok _] _]. subst loader.
      apply (Inv_part_onSuccess _ _ _ _ _ _ _ _ H Ht Hc Ha).
  - unfold in_flight. destruct (transports w !! l) as [t|] eqn:Ht; [|discriminate].
    destruct (Transport.callbacks t) as [[frag loader p op | c i part loader]|] eqn:Hc;
      [| |discriminate]; destruct (Transport.aborting t) eqn:Ha; try discriminate;
      intros [= <-] H.
    + destruct (inv_callbacks w H l t _ Ht Hc) as [Hok _]. cbn in Hok. subst loader.
      apply Inv_frag_onError, H.
    + destruct (inv_callbacks w H l t _ Ht Hc) as [[Hok _] _]. subst loader.
      apply Inv_part_onError, H.
  - unfold in_flight. destruct (transports w !! l) as [t|] eqn:Ht; [|discriminate].
    destruct (Transport.callbacks t) as [[frag loader p op | c i part loader]|] eqn:Hc;
      [| |discriminate]; intros [= <-] H.
    + destruct (inv_callbacks w H l t _ Ht Hc) as [Hok _]. cbn in Hok. subst loader.
      apply Inv_frag_onAbort, H.
    + destruct (inv_callbacks w H l t _ Ht Hc) as [[Hok _] _]. subst loader.
      apply Inv_part_onAbort, H.
  - unfold in_flight. destruct (transports w !! l) as [t|] eqn:Ht; [|discriminate].
    destruct (Transport.callbacks t) as [[frag loader p op | c i part loader]|] eqn:Hc;
      [| |discriminate]; destruct (Transport.aborting t) eqn:Ha; try discriminate;
      intros [= <-] H.
    + destruct (inv_callbacks w H l t _ Ht Hc) as [Hok _]. cbn in Hok. subst loader.
      apply Inv_frag_onTimeout, H.
    + destruct (inv_callbacks w H l t _ Ht Hc) as [[Hok _] _]. subst loader.
      apply Inv_part_onTimeout, H.
  - unfold in_flight. destruct (transports w !! l) as [t|] eqn:Ht; [|discriminate].
    destruct (Transport.callbacks t) as [[frag loader p op | c i part loader]|] eqn:Hc;
      [| |discriminate]; destruct (Transport.aborting t) eqn:Ha; try discriminate;
      intros [= <-] H; [|exact H].
    unfold frag_onProgress. destruct op; [apply Inv_emit|]; exact H.
  - destruct (timers w !! id) as [[d [c]]|] eqn:Hid; [|discriminate].
    destruct (d <=? now w); [|discriminate].
    intros [= <-] H. apply (Inv_watchdog _ _ _ _ H Hid).
  - destruct (0 <=? dt); [|discriminate]. intros [= <-]. apply Inv_advance.
Qed.

Lemma Inv_run es : forall w w', run w es = Some w' -> Inv w -> Inv w'.
Proof.
  induction es as [|e es IH]; intros w w'; cbn [run].
  - intros [= <-]. auto.
  - destruct (step w e) as [w1|] eqn:E; [|discriminate].
    intros Hrun H. apply (IH _ _ Hrun). apply (Inv_step _ _ _ E H).
Qed.

Lemma Inv_reachable w : reachable w -> Inv w.
Proof.
  intros (config & frags & stats & es & Hrun).
  apply (Inv_run _ _ _ Hrun), Inv_init.
Qed.

(** ** The shape of [load] *)

Lemma settle_other p s w q : q <> p -> promises (settle p s w) !! q = promises w !! q.
Proof.
  intros Hq. unfold settle. destruct (promises w !! p) as [[]|]; try reflexivity.
  wred. apply lookup_insert_ne. congruence.
Qed.

Lemma settle_is_Some p s w q :
  is_Some (promises w !! q) -> is_Some (promises (settle p s w) !! q).
Proof.
  intros H. unfold settle. destruct (promises w !! p) as [[]|]; try exact H.
  wred. rewrite lookup_insert. case_decide; [eauto | exact H].
Qed.

Lemma settle_this p s w : this (settle p s w) = this w.
Proof. unfold settle. destruct (promises w !! p) as [[]|]; reflexivity. Qed.

Lemma settle_fragments p s w : fragments (settle p s w) = fragments w.
Proof. unfold settle. destruct (promises w !! p) as [[]|]; reflexivity. Qed.

Lemma settle_transports p s w : transports (settle p s w) = transports w.
Proof. unfold settle. destruct (promises w !! p) as [[]|]; reflexivity. Qed.

Lemma outcome_loadFragmentParts partList s part frag cfg W l :
  FragmentLoader.loader (this W) = Some l ->
  frag_loader W frag = Some (Some l) ->
  partList !! s = Some part ->
  load_outcome W (snd (loadFragmentParts partList s frag cfg W)) l frag (nextPromise W).
Proof.
  intros Htr Hfl Hpart. unfold loadFragmentParts.
  change (new_promise W) with (nextPromise W, snd (new_promise W)). cbn iota zeta.
  set (c := Chain.mk partList s frag (FragmentLoader.loader (this (snd (new_promise W))))
              cfg (nextPromise W)).
  change (setTimeout (Watchdog c) (LoaderConfiguration.timeout cfg) (snd (new_promise W)))
    with (nextTimer (snd (new_promise W)),
          snd (setTimeout (Watchdog c) (LoaderConfiguration.timeout cfg)
                 (snd (new_promise W)))).
  cbn iota zeta. cbn [snd].
  assert (Hc : Chain.loader c = Some l).
  { unfold c. cbn [Chain.loader]. wred. exact Htr. }
  unfold loadPartIndex. unfold c at 1. cbn [Chain.partList]. rewrite Hpart.
  unfold loadPart. rewrite Hc.
  constructor.
  - eexists. wred. split; [rewrite <- app_assoc; reflexivity | reflexivity].
  - left. unfold frag_loader in *. wred. auto.
  - intros l0 Hl0. wred. rewrite !lookup_alter_ne by congruence. reflexivity.
  - intros q Hq. wred. apply lookup_insert_ne. congruence.
  - wred. rewrite lookup_insert_eq. eauto.
Qed.

Lemma outcome_loadFragment frag fragObj cfg onProgress W l :
  FragmentLoader.loader (this W) = Some l ->
  frag_loader W frag = Some (Some l) ->
  load_outcome W (snd (loadFragment frag fragObj l cfg onProgress W)) l frag
    (nextPromise W).
Proof.
  intros Htr Hfl. unfold loadFragment. destruct (falsy_url (Fragment.url fragObj)).
  - change (new_promise W) with (nextPromise W, snd (new_promise W)). cbn iota zeta.
    cbn [snd]. unfold reject. constructor.
    + exists []. rewrite settle_effects, app_nil_r. split; reflexivity.
    + left. unfold frag_loader in *. rewrite settle_this, settle_fragments. auto.
    + intros l0 _. rewrite settle_transports. reflexivity.
    + intros q Hq. rewrite settle_other by exact Hq. wred.
      apply lookup_insert_ne. congruence.
    + apply settle_is_Some. wred. rewrite lookup_insert_eq. eauto.
  - change (new_promise W) with (nextPromise W, snd (new_promise W)). cbn iota zeta.
    cbn [snd]. constructor.
    + eexists. wred. split; reflexivity.
    + left. unfold frag_loader in *. wred. auto.
    + intros l0 Hl0. wred. rewrite !lookup_alter_ne by congruence. reflexivity.
    + intros q Hq. wred. apply lookup_insert_ne. congruence.
    + wred. rewrite lookup_insert_eq. eauto.
Qed.

Lemma outcome_hint frag W l :
  FragmentLoader.loader (this W) = Some l ->
  frag_loader W frag = Some (Some l) ->
  load_outcome W
    (resolve (nextPromise W) None
       (snd (new_promise (resetLoader frag (FragmentLoader.loader (this W)) W))))
    l frag (nextPromise W).
Proof.
  intros Htr Hfl. rewrite resetLoader_tracked by reflexivity.
  unfold resolve. rewrite settle_pending by (wred; apply lookup_insert_eq).
  constructor.
  - eexists. wred. split; reflexivity.
  - right. unfold frag_loader in *. wred. split; [reflexivity|].
    split; [|apply lookup_insert_eq].
    rewrite lookup_alter, decide_True by reflexivity.
    destruct (fragments W !! frag); [reflexivity | discriminate].
  - intros l0 _. reflexivity.
  - intros q Hq. wred. rewrite !lookup_insert_ne by congruence. reflexivity.
  - wred. rewrite lookup_insert_eq. eauto.
Qed.

(** [load] on a fragment of the heap: it returns the next promise, tells
    the tracked transport to abort, creates one transport, and leaves the
    other transports and promises as they were. *)
Lemma load_shape w frag fragObj ld tbt onProgress :
  fragments w !! frag = Some fragObj ->
  tracked_has_context w = true ->
  exists w',
    load frag ld tbt onProgress w = Some (Returned (nextPromise w, w')) /\
    (exists rest,
       effects_since w w' = load_prologue w ++ rest /\
       forallb (fun e => negb (new_effect e || abort_effect e)) rest = true) /\
    ((FragmentLoader.loader (this w') = Some (nextLoader w) /\
      frag_loader w' frag = Some (Some (nextLoader w))) \/
     (FragmentLoader.loader (this w') = None /\
      frag_loader w' frag = Some None /\
      promises w' !! nextPromise w = Some (Resolved None))) /\
    (forall l0, l0 <> nextLoader w -> transports w' !! l0 = transports (after_abort w) !! l0) /\
    (forall q, q <> nextPromise w -> promises w' !! q = promises w !! q) /\
    is_Some (promises w' !! nextPromise w).
Proof.
  intros Hf Htc.
  destruct (abort_frame w)
    as (Ha1 & Ha2 & Ha3 & Ha4 & Ha5 & Ha6 & Ha7 & Ha8 & Ha9 & Ha10 & Ha11).
  unfold load. rewrite Hf, (abort_returns w Htc). cbn zeta.
  set (cls := match HlsConfig.fLoader (FragmentLoader.config (this w)) with
              | Some c => c
              | None => HlsConfig.loader (FragmentLoader.config (this w))
              end).
  change (new_loader cls (after_abort w))
    with (nextLoader (after_abort w), snd (new_loader cls (after_abort w))).
  cbn iota zeta. rewrite Ha8.
  set (W := set_this_loader (Some (nextLoader w))
              (set_frag_loader frag (Some (nextLoader w))
                 (snd (new_loader cls (after_abort w))))).
  assert (Htr : FragmentLoader.loader (this W) = Some (nextLoader w)) by reflexivity.
  assert (Hfl : frag_loader W frag = Some (Some (nextLoader w))).
  { unfold frag_loader, W. wred. rewrite lookup_alter, decide_True by reflexivity.
    rewrite Ha2, Hf. reflexivity. }
  assert (HnW : nextPromise W = nextPromise w) by (unfold W; wred; exact Ha10).
  assert (HeW : effects W = effects w ++ load_prologue w).
  { unfold W, load_prologue. wred. rewrite Ha11, Ha8, <- app_assoc. reflexivity. }
  assert (HtW : forall l0, l0 <> nextLoader w ->
            transports W !! l0 = transports (after_abort w) !! l0).
  { intros l0 Hl0. unfold W. wred. rewrite Ha8. apply lookup_insert_ne. congruence. }
  assert (HpW : promises W = promises w) by (unfold W; wred; exact Ha5).
  assert (Hout : forall w', load_outcome W w' (nextLoader w) frag (nextPromise W) ->
            (exists rest,
               effects_since w w' = load_prologue w ++ rest /\
               forallb (fun e => negb (new_effect e || abort_effect e)) rest = true) /\
            ((FragmentLoader.loader (this w') = Some (nextLoader w) /\
              frag_loader w' frag = Some (Some (nextLoader w))) \/
             (FragmentLoader.loader (this w') = None /\
              frag_loader w' frag = Some None /\
              promises w' !! nextPromise w = Some (Resolved None))) /\
            (forall l0, l0 <> nextLoader w ->
               transports w' !! l0 = transports (after_abort w) !! l0) /\
            (forall q, q <> nextPromise w -> promises w' !! q = promises w !! q) /\
            is_Some (promises w' !! nextPromise w)).
  { intros w' [(rest & He & Hq) Ht Htp Hpp Hps]. rewrite HnW in *.
    split; [|split; [exact Ht | split; [|split; [|exact Hps]]]].
    - exists rest. split; [|exact Hq]. unfold effects_since.
      rewrite He, HeW, <- app_assoc, drop_app_length. reflexivity.
    - intros l0 Hl0. rewrite Htp by exact Hl0. apply HtW, Hl0.
    - intros q Hq'. rewrite Hpp by exact Hq'. rewrite HpW. reflexivity. }
  assert (Hwhole : forall cfg, exists w',
            loadFragment frag fragObj (nextLoader w) cfg onProgress W
              = (nextPromise w, w') /\
            load_outcome W w' (nextLoader w) frag (nextPromise W)).
  { intros cfg. exists (snd (loadFragment frag fragObj (nextLoader w) cfg onProgress W)).
    split; [|apply outcome_loadFragment; assumption].
    unfold loadFragment. destruct (falsy_url (Fragment.url fragObj));
      unfold new_promise; cbn zeta; cbn [snd]; rewrite HnW; reflexivity. }
  destruct (ld ≫= LevelDetails.partList) as [partList|].
  2: { destruct (Hwhole (LoaderConfiguration.mk
                   (HlsConfig.fragLoadingTimeOut (FragmentLoader.config (this w))) 0 0
                   (HlsConfig.fragLoadingMaxRetryTimeout (FragmentLoader.config (this w)))
                   MIN_CHUNK_SIZE)) as (w' & -> & Ho).
       exists w'. split; [reflexivity | apply Hout, Ho]. }
  destruct onProgress.
  2: { destruct (Hwhole (LoaderConfiguration.mk
                   (HlsConfig.fragLoadingTimeOut (FragmentLoader.config (this w))) 0 0
                   (HlsConfig.fragLoadingMaxRetryTimeout (FragmentLoader.config (this w)))
                   MIN_CHUNK_SIZE)) as (w' & -> & Ho).
       exists w'. split; [reflexivity | apply Hout, Ho]. }
  match goal with
  | |- context [-1 <? ?idx] => destruct (Z.ltb_spec (-1) idx) as [Hidx | Hidx]
  end.
  - destruct (findIndependentPart_in_range _ _ _ Hidx) as (part & Hpart & _).
    eexists. split.
    { rewrite <- HnW. unfold loadFragmentParts, new_promise, setTimeout. reflexivity. }
    apply Hout, (outcome_loadFragmentParts _ _ _ _ _ _ _ Htr Hfl Hpart).
  - destruct (falsy_url (Fragment.url fragObj)).
    + exists (resolve (nextPromise W) None
                (snd (new_promise (resetLoader frag (FragmentLoader.loader (this W)) W)))).
      split; [|apply Hout, (outcome_hint _ _ _ Htr Hfl)].
      cbn zeta.
      change (new_promise (resetLoader frag (FragmentLoader.loader (this W)) W))
        with (nextPromise (resetLoader frag (FragmentLoader.loader (this W)) W),
              snd (new_promise (resetLoader frag (FragmentLoader.loader (this W)) W))).
      cbn iota. rewrite resetLoader_nextPromise, HnW. reflexivity.
    + destruct (Hwhole (LoaderConfiguration.mk
                   (HlsConfig.fragLoadingTimeOut (FragmentLoader.config (this w))) 0 0
                   (HlsConfig.fragLoadingMaxRetryTimeout (FragmentLoader.config (this w)))
                   MIN_CHUNK_SIZE)) as (w' & -> & Ho).
      exists w'. split; [reflexivity | apply Hout, Ho].
Qed.

(** ** Rejections *)

(** C9 (the run on which the code departs from the claim). [load] of the
    sample fragment without URL rejects the promise it returns with the
    load-error envelope and leaves the transport it created, which was
    never given a request, in the loader slot.  The next call of [load],
    here for the fragment with a URL, does not return a promise: the log
    line of [abort] reads the [url] of the tracked transport's undefined
    context and the TypeError leaves [load].  A call of [abort] raises
    likewise. *)
Theorem load_throws_after_load_without_url :
  exists w1,
    load 0%nat None None false ex_world = Some (Returned (0%nat, w1)) /\
    promises w1 !! 0%nat = Some (Rejected (no_url_error 0%nat)) /\
    FragmentLoader.loader (this w1) = Some 0%nat /\
    loader_context 0%nat w1 = None /\
    load 1%nat None None false w1 = Some Threw /\
    abort w1 = Threw.
Proof.
  eexists. split; [vm_compute; reflexivity|].
  repeat split; vm_compute; reflexivity.
Qed.

(** X17. In every state the loader reaches, a rejected promise carries a
    [LoadError] whose envelope has the network-error type, one of the
    details load-error, load-timeout and internal-aborted, and [fatal]
    false: no promise of the loader is rejected with a TypeError. *)
Theorem rejected_promises_carry_envelope config frags stats es w :
  run (init config frags stats) es = Some w ->
  forall p r, promises w !! p = Some (Rejected r) ->
    exists e, r = ReasonLoadError e /\
      FragLoadFailResult.type (LoadError.data e) = NETWORK_ERROR /\
      (FragLoadFailResult.details (LoadError.data e) = FRAG_LOAD_ERROR \/
       FragLoadFailResult.details (LoadError.data e) = FRAG_LOAD_TIMEOUT \/
       FragLoadFailResult.details (LoadError.data e) = INTERNAL_ABORTED) /\
      FragLoadFailResult.fatal (LoadError.data e) = false.
Proof.
  intros Hrun.
  assert (H : Inv w) by (apply Inv_reachable; unfold reachable; eauto).
  intros p r Hp. pose proof (inv_rejected w H p r Hp) as Hr.
  destruct r as [e|]; [|contradiction]. exists e. split; [reflexivity | exact Hr].
Qed.

(** ** Single flight *)


(** C5 (the run on which the code departs from the claim). A chain of
    parts is started for the sample fragment [0] on the transport [0]; the
    watchdog fires after the configured 5000 time units, rejects the
    promise with the load-timeout envelope and clears the loader slot, but
    does not tell the transport to abort.  [load] of fragment [1] then
    finds no transport to abort and starts a request on the transport [1]:
    the requests of both transports are in flight, neither told to abort,
    and no abort was ever signalled. *)
Theorem watchdog_leaves_request_in_flight :
  exists w cbs0 cbs1 e,
    run ex_world
      [CallLoad 0%nat (ex_details ex_partList) None true; Tick 5000; TimerFire 1;
       CallLoad 1%nat None None false] = Some w /\
    promises w !! 0%nat = Some (Rejected (ReasonLoadError e)) /\
    FragLoadFailResult.details (LoadError.data e) = FRAG_LOAD_TIMEOUT /\
    promises w !! 1%nat = Some Pending /\
    in_flight 0%nat w = Some (cbs0, false) /\
    in_flight 1%nat w = Some (cbs1, false) /\
    FragmentLoader.loader (this w) = Some 1%nat /\
    filter (fun x => abort_effect x = true) (effects w) = [] /\
    length (filter (fun x => request_effect x = true) (effects w)) = 2%nat.
Proof.
  eexists _, _, _, _. split; [vm_compute; reflexivity|].
  split; [vm_compute; reflexivity|].
  repeat split; vm_compute; reflexivity.
Qed.


(** * Further properties of the loader *)

(** ** The request context *)

(** X1. [createLoaderContext] names the fragment and the part, asks for an
    array buffer, and takes the URL from the part when there is one.  The
    byte range of the context is always a pair of finite numbers: the
    segment's offsets when both are finite, and 0 and 0 as soon as either
    is missing, NaN or infinite (a half-given range is dropped as a whole). *)
Theorem createLoaderContext_range w frag f part :
  fragments w !! frag = Some f ->
  let ctx := createLoaderContext frag part w in
  FragmentLoaderContext.frag ctx = frag /\
  FragmentLoaderContext.part ctx = part /\
  FragmentLoaderContext.responseType ctx = "arraybuffer"%string /\
  FragmentLoaderContext.url ctx = segment_url f part /\
  is_finite (FragmentLoaderContext.rangeStart ctx) = true /\
  is_finite (FragmentLoaderContext.rangeEnd ctx) = true /\
  ((exists s e,
      segment_range f part = (Some s, Some e) /\
      is_finite s = true /\ is_finite e = true /\
      FragmentLoaderContext.rangeStart ctx = s /\
      FragmentLoaderContext.rangeEnd ctx = e)
   \/
   (Number_isFinite (fst (segment_range f part))
      && Number_isFinite (snd (segment_range f part)) = false /\
    FragmentLoaderContext.rangeStart ctx = Zero false /\
    FragmentLoaderContext.rangeEnd ctx = Zero false)).
Proof.
  intros Hf. unfold createLoaderContext. rewrite Hf.
  destruct part as [p|]; cbn [segment_url segment_range fst snd].
  - destruct (Part.byteRangeStartOffset p) as [s|], (Part.byteRangeEndOffset p) as [e|];
      cbn [Number_isFinite andb];
      try (repeat split; try reflexivity; right; repeat split;
           try reflexivity; apply andb_false_r).
    destruct (is_finite s) eqn:Hs, (is_finite e) eqn:He; cbn [andb];
      repeat split; try reflexivity; try assumption;
      solve [left; exists s, e; auto | right; auto].
  - destruct (Fragment.byteRangeStartOffset f) as [s|],
             (Fragment.byteRangeEndOffset f) as [e|];
      cbn [Number_isFinite andb];
      try (repeat split; try reflexivity; right; repeat split;
           try reflexivity; apply andb_false_r).
    destruct (is_finite s) eqn:Hs, (is_finite e) eqn:He; cbn [andb];
      repeat split; try reflexivity; try assumption;
      solve [left; exists s, e; auto | right; auto].
Qed.

(** ** Statistics merge: timing marks and unknown totals *)

Lemma value_of_Q (s : bool) (q : Q) :
  exists c, value (of_Q s q) = Some c /\ (c == q)%Q.
Proof.
  unfold of_Q. destruct (Qeq_bool q 0) eqn:E.
  - apply Qeq_bool_eq in E. exists 0%Q. split; [reflexivity | symmetry; exact E].
  - exists (Qred q). split; [reflexivity | apply Qred_correct].
Qed.

Lemma value_canon (x : number) (a : Q) :
  value x = Some a ->
  (exists s, canon x = Zero s /\ (a == 0)%Q) \/
  (exists q, canon x = Num q /\ (q == a)%Q).
Proof.
  destruct x as [| s | s | q]; cbn [value]; intros [= <-].
  - left. exists s. split; reflexivity.
  - cbn [canon]. unfold of_Q. destruct (Qeq_bool q 0) eqn:E.
    + apply Qeq_bool_eq in E. left. exists false. split; [reflexivity | exact E].
    + right. exists (Qred q). split; [reflexivity | apply Qred_correct].
Qed.

(** A sum that is an integer below 2^53 is a double: the addition is
    exact. *)
Lemma value_add (x y : number) (a b : Q) (n : Z) :
  value x = Some a -> value y = Some b ->
  (a + b == inject_Z n)%Q -> Z.abs n < 2 ^ 53 ->
  exists c, value (add x y) = Some c /\ (c == a + b)%Q.
Proof.
  intros Hx Hy Hn Hbound. unfold add.
  destruct (value_canon x a Hx) as [(s & -> & Ha) | (p & -> & Ha)],
           (value_canon y b Hy) as [(t & -> & Hb) | (q & -> & Hb)].
  - exists 0%Q. split; [reflexivity|]. rewrite Ha, Hb. qlra.
  - exists q. split; [reflexivity|]. rewrite Ha, Hb. qlra.
  - exists p. split; [reflexivity|]. rewrite Ha, Hb. qlra.
  - rewrite (round64_comp false (p + q) (inject_Z n)) by (rewrite Ha, Hb; exact Hn).
    rewrite round64_Z by exact Hbound.
    destruct (value_of_Q false (inject_Z n)) as (c & Hc & Ec).
    exists c. split; [exact Hc|]. rewrite Ec. symmetry. exact Hn.
Qed.

Lemma value_neg (x : number) (a : Q) :
  value x = Some a -> exists c, value (neg x) = Some c /\ (c == - a)%Q.
Proof.
  intros Hx. unfold neg.
  destruct (value_canon x a Hx) as [(s & -> & Ha) | (p & -> & Ha)].
  - exists 0%Q. split; [reflexivity|]. rewrite Ha. reflexivity.
  - exists (Qred (- p)). split; [reflexivity|]. rewrite Qred_correct, Ha. reflexivity.
Qed.

Lemma is_int_add (x y : number) (a b : Z) :
  is_int x a -> is_int y b -> Z.abs (a + b) < 2 ^ 53 -> is_int (add x y) (a + b).
Proof.
  intros (p & Hp & Ep) (q & Hq & Eq) Hbound.
  destruct (value_add x y p q (a + b) Hp Hq) as (c & Hc & Ec).
  - rewrite Ep, Eq, inject_Z_plus. reflexivity.
  - exact Hbound.
  - exists c. split; [exact Hc|]. rewrite Ec, Ep, Eq, inject_Z_plus. reflexivity.
Qed.

Lemma is_int_sub (x y : number) (a b : Z) :
  is_int x a -> is_int y b -> Z.abs (a - b) < 2 ^ 53 -> is_int (sub x y) (a - b).
Proof.
  intros Hx (q & Hq & Eq) Hbound. unfold sub.
  destruct (value_neg y q Hq) as (n & Hn & En).
  apply (is_int_add x (neg y) a (- b)); [exact Hx | | exact Hbound].
  exists n. split; [exact Hn|]. rewrite En, Eq, inject_Z_opp. reflexivity.
Qed.

(** X2. The timing marks after a merge.  The first part (fragment start mark
    0 or NaN) hands its three marks to the fragment.  A later part moves
    the fragment's start and first-byte marks by the gap between the
    previous end and the part's marks, so that the span from start to end
    grows by the part's own span: time in which no part was loading is not
    counted.  The marks of the later part are taken as integers (whole
    milliseconds) of magnitude below 2^51, on which the additions and
    subtractions of doubles are exact. *)
Theorem updateStatsFromPart_loading w frag part f fragStats partStats :
  fragments w !! frag = Some f ->
  statsHeap w !! Fragment.stats f = Some fragStats ->
  statsHeap w !! Part.stats part = Some partStats ->
  let fl := LoaderStats.loading fragStats in
  let pl := LoaderStats.loading partStats in
  exists r,
    statsHeap (updateStatsFromPart frag part w) !! Fragment.stats f = Some r /\
    Loading.end_ (LoaderStats.loading r) = Loading.end_ pl /\
    (truthy (Loading.start fl) = false -> LoaderStats.loading r = pl) /\
    (truthy (Loading.start fl) = true ->
     forall s b e ps pb : Z,
       is_int (Loading.start fl) s -> is_int (Loading.first fl) b ->
       is_int (Loading.end_ fl) e ->
       is_int (Loading.start pl) ps -> is_int (Loading.first pl) pb ->
       Forall (fun z => Z.abs z < 2 ^ 51) [s; b; e; ps; pb] ->
       exists s' b' : Z,
         is_int (Loading.start (LoaderStats.loading r)) s' /\
         is_int (Loading.first (LoaderStats.loading r)) b' /\
         s' = s + (ps - e) /\ b' = b + (pb - e) /\
         (forall pe : Z, pe - s' = (e - s) + (pe - ps)) /\
         b' - s' = (b - s) + (pb - ps)).
Proof.
  intros Hf Hfs Hps. cbn zeta. eexists. split.
  { apply (updateStatsFromPart_writes _ _ _ _ _ _ Hf Hfs Hps). }
  unfold updateStats. cbn [LoaderStats.loading].
  destruct (truthy (Loading.start (LoaderStats.loading fragStats))) eqn:Ht.
  - split; [reflexivity|]. split; [discriminate|].
    intros _ s b e ps pb Hs Hb He Hps' Hpb Hbound. cbn [Loading.start Loading.first].
    apply Forall_cons in Hbound as [Bs Hbound]. apply Forall_cons in Hbound as [Bb Hbound].
    apply Forall_cons in Hbound as [Be Hbound]. apply Forall_cons in Hbound as [Bps Hbound].
    apply Forall_cons in Hbound as [Bpb _].
    exists (s + (ps - e)), (b + (pb - e)).
    split; [|split; [|split; [reflexivity | split; [reflexivity | split; [intros; lia | lia]]]]].
    + apply is_int_add; [exact Hs | apply is_int_sub; [exact Hps' | exact He | lia] | lia].
    + apply is_int_add; [exact Hb | apply is_int_sub; [exact Hpb | exact He | lia] | lia].
  - split; [reflexivity|]. split; [|discriminate].
    intros _. destruct (LoaderStats.loading partStats). reflexivity.
Qed.

(** X3. [updateStatsFromPart] writes the fragment's statistics record and
    nothing else: every other record (the part's, when it is another one)
    and the rest of the state are as before, and the fragment's aborted
    flag is kept.  When
    the part's total is unknown (0 or NaN) the fragment's total is kept
    too, while the loaded count still grows by the part's. *)
Theorem updateStatsFromPart_unknown_total w frag part f fragStats partStats :
  fragments w !! frag = Some f ->
  statsHeap w !! Fragment.stats f = Some fragStats ->
  statsHeap w !! Part.stats part = Some partStats ->
  let w' := updateStatsFromPart frag part w in
  (forall sid, sid <> Fragment.stats f -> statsHeap w' !! sid = statsHeap w !! sid) /\
  this w' = this w /\ fragments w' = fragments w /\ transports w' = transports w /\
  timers w' = timers w /\ promises w' = promises w /\ effects w' = effects w /\
  exists r,
    statsHeap w' !! Fragment.stats f = Some r /\
    LoaderStats.aborted r = LoaderStats.aborted fragStats /\
    LoaderStats.loaded r
      = add (LoaderStats.loaded fragStats) (LoaderStats.loaded partStats) /\
    (truthy (LoaderStats.total partStats) = false ->
     LoaderStats.total r = LoaderStats.total fragStats).
Proof.
  intros Hf Hfs Hps. cbn zeta.
  pose proof (updateStatsFromPart_writes _ _ _ _ _ _ Hf Hfs Hps) as Hw.
  unfold updateStatsFromPart in *. rewrite Hf, Hfs, Hps in *.
  split.
  { intros sid Hsid. wred. apply lookup_insert_ne. congruence. }
  repeat (split; [reflexivity|]).
  eexists. split; [exact Hw|]. split; [reflexivity|]. split; [reflexivity|].
  intros Ht. unfold updateStats. cbn [LoaderStats.total]. rewrite Ht. reflexivity.
Qed.

(** ** Independent-part selection: the target *)

Lemma findIndependentPart_from_ge (rest : list Part.t) (frag : FragId) (t : number) :
  forall i acc, acc < i -> acc <= findIndependentPart_from rest i acc frag t.
Proof.
  induction rest as [|p rest IH]; intros i acc Hacc; cbn [findIndependentPart_from].
  - lia.
  - destruct (lt t (Part.start p)); [lia|].
    destruct (Part.independent p && bool_decide (Part.fragment p = frag)).
    + specialize (IH (i + 1) i). lia.
    + specialize (IH (i + 1) acc). lia.
Qed.

(** The scan for a target that stops no later than the scan for another
    target finds no later part. *)
Lemma findIndependentPart_from_mono (rest : list Part.t) (frag : FragId)
    (t1 t2 : number) :
  (forall p, p ∈ rest -> lt t2 (Part.start p) = true -> lt t1 (Part.start p) = true) ->
  forall i acc1 acc2, acc1 <= acc2 -> acc2 < i ->
  findIndependentPart_from rest i acc1 frag t1
  <= findIndependentPart_from rest i acc2 frag t2.
Proof.
  induction rest as [|p rest IH]; intros Hle i acc1 acc2 Hacc Hi;
    cbn [findIndependentPart_from].
  - exact Hacc.
  - assert (Hrest : forall q, q ∈ rest ->
              lt t2 (Part.start q) = true -> lt t1 (Part.start q) = true).
    { intros q Hq. apply Hle. apply elem_of_cons. auto. }
    destruct (lt t2 (Part.start p)) eqn:H2.
    + rewrite (Hle p); [exact Hacc | apply elem_of_cons; auto | exact H2].
    + destruct (lt t1 (Part.start p)).
      * destruct (Part.independent p && bool_decide (Part.fragment p = frag)).
        -- pose proof (findIndependentPart_from_ge rest frag t2 (i + 1) i). lia.
        -- pose proof (findIndependentPart_from_ge rest frag t2 (i + 1) acc2). lia.
      * destruct (Part.independent p && bool_decide (Part.fragment p = frag));
          apply (IH Hrest); lia.
Qed.

Lemma Qneg_Qred (q : Q) : Qneg (Qred q) = true <-> (q < 0)%Q.
Proof.
  unfold Qneg. rewrite Z.ltb_lt.
  assert (E : (Qred q == q)%Q) by apply Qred_correct.
  split; intros H.
  - rewrite <- E. unfold Qlt. cbn. lia.
  - rewrite <- E in H. unfold Qlt in H. cbn in H. lia.
Qed.

Lemma Qneg_lt (q : Q) : Qneg q = true <-> (q < 0)%Q.
Proof. unfold Qneg, Qlt. rewrite Z.ltb_lt. cbn. lia. Qed.

(** [<] against a rational target: what it says of a number [x]. *)
Lemma lt_of_Q (a : Q) (x : number) :
  lt (of_Q false a) x = true <->
  match canon x with
  | NaN => False
  | Infinity s => s = false
  | Zero _ => (a < 0)%Q
  | Num q => (a < q)%Q
  end.
Proof.
  unfold lt. rewrite canon_of_Q.
  destruct (canon_cases x) as [E | [(s & E) | [(s & E) | (q & E & Hq & _)]]];
    rewrite E; unfold of_Q; destruct (Qeq_bool a 0) eqn:Ea;
    try (apply Qeq_bool_eq in Ea).
  - split; [discriminate | contradiction].
  - split; [discriminate | contradiction].
  - destruct s; cbn; split; congruence.
  - destruct s; cbn; split; congruence.
  - split; [discriminate | intros H; qlra].
  - rewrite Qneg_Qred. reflexivity.
  - rewrite Bool.negb_true_iff. split.
    + intros H. assert (H' : ~ (q < 0)%Q) by (rewrite <- Qneg_lt; congruence).
      qlra.
    + intros H. destruct (Qneg q) eqn:Hn; [|reflexivity].
      apply Qneg_lt in Hn. qlra.
  - assert (E' : (Qred a == a)%Q) by apply Qred_correct.
    destruct (Qred a ?= q)%Q eqn:Hc.
    + apply Qeq_alt in Hc. split; [discriminate | intros H; qlra].
    + apply Qlt_alt in Hc. split; [intros _; qlra | reflexivity].
    + apply Qgt_alt in Hc. split; [discriminate | intros H; qlra].
Qed.

(** X4. Raising the target buffer time never selects an earlier part. *)
Theorem findIndependentPart_monotone (partList : list Part.t) (frag : FragId)
    (a b : Q) :
  (a <= b)%Q ->
  findIndependentPart partList frag (of_Q false a)
  <= findIndependentPart partList frag (of_Q false b).
Proof.
  intros Hab. unfold findIndependentPart.
  apply findIndependentPart_from_mono; [|lia|lia].
  intros p _. rewrite !lt_of_Q.
  destruct (canon (Part.start p)); auto; intros H; qlra.
Qed.

(** X5. A target that no part's start exceeds (NaN, or a time past the last
    part) makes the scan run over the whole list: the result is the last
    independent part of the fragment in the list. *)
Theorem findIndependentPart_whole_list (partList : list Part.t) (frag : FragId)
    (t : number) :
  (forall p, p ∈ partList -> lt t (Part.start p) = false) ->
  (findIndependentPart partList frag t = -1 /\
   forall p, p ∈ partList -> ~ (Part.independent p = true /\ Part.fragment p = frag))
  \/
  (exists k p,
     findIndependentPart partList frag t = Z.of_nat k /\
     partList !! k = Some p /\ Part.independent p = true /\ Part.fragment p = frag /\
     forall j q, (k < j)%nat -> partList !! j = Some q ->
       ~ (Part.independent q = true /\ Part.fragment q = frag)).
Proof.
  intros Hall. unfold findIndependentPart.
  destruct (findIndependentPart_from_spec partList frag t 0 (-1))
    as (n & Hn & _ & Hstop & Hres).
  assert (En : n = length partList).
  { destruct (partList !! n) as [p|] eqn:Hp.
    - pose proof (Hstop p eq_refl) as H1.
      rewrite (Hall p (list_elem_of_lookup_2 _ _ _ Hp)) in H1. discriminate.
    - apply lookup_ge_None in Hp. lia. }
  subst n.
  destruct Hres as [[Heq Hnone] | (k & p & Heq & Hk & Hp & Hi & Hf & Hlater)].
  - left. split; [exact Heq|]. intros p Hp.
    apply list_elem_of_lookup in Hp as [j Hj].
    apply (Hnone j p); [apply (lookup_lt_Some _ _ _ Hj) | exact Hj].
  - right. exists k, p. split; [rewrite Heq; lia|]. repeat split; try assumption.
    intros j q Hj Hq. apply (Hlater j q); [|exact Hq].
    split; [exact Hj | apply (lookup_lt_Some _ _ _ Hq)].
Qed.

(** ** Promises settle once *)

Lemma promises_kept_refl w : promises_kept w w.
Proof. constructor; auto. Qed.

Lemma promises_kept_trans w1 w2 w3 :
  promises_kept w1 w2 -> promises_kept w2 w3 -> promises_kept w1 w3.
Proof.
  intros [N1 S1 P1 W1] [N2 S2 P2 W2]. constructor.
  - lia.
  - intros p s Hp Hs Hne. apply S2; [lia | | exact Hne]. apply (S1 p s Hp Hs Hne).
  - intros p Hp Hs. apply P2; [lia|]. apply (P1 p Hp Hs).
  - intros p Hs. destruct (W2 p Hs) as [H | H]; [|right; lia].
    destruct (W1 p H) as [H' | H']; [left; exact H' | right; lia].
Qed.

Lemma promises_kept_same w0 w w' :
  promises w' = promises w -> nextPromise w' = nextPromise w ->
  promises_kept w0 w -> promises_kept w0 w'.
Proof.
  intros Hp Hn [N S P W]. constructor; rewrite ?Hp, ?Hn; auto.
Qed.

Lemma promises_kept_settle w0 p s w :
  promises_kept w0 w -> promises_kept w0 (settle p s w).
Proof.
  intros H. apply (promises_kept_trans _ _ _ H).
  destruct (settle_frame p s w) as (m & -> & Hm).
  constructor; wred.
  - lia.
  - intros q st _ Hq Hne. destruct (Hm q) as [E | (-> & Hpend & _)];
      [exact (eq_trans E Hq)|].
    pose proof (eq_trans (eq_sym Hpend) Hq) as [= <-]. contradiction.
  - intros q _ [st Hq]. destruct (Hm q) as [E | (_ & _ & E)].
    + exists st. exact (eq_trans E Hq).
    + exists s. exact E.
  - intros q [st Hq]. left. destruct (Hm q) as [E | (-> & Hpend & _)].
    + exists st. exact (eq_trans (eq_sym E) Hq).
    + exists Pending. exact Hpend.
Qed.

Lemma promises_kept_new_promise w0 w :
  promises_kept w0 w -> promises_kept w0 (snd (new_promise w)).
Proof.
  intros H. apply (promises_kept_trans _ _ _ H).
  constructor; wred.
  - lia.
  - intros q st Hq Hs _. rewrite lookup_insert_ne by lia. exact Hs.
  - intros q Hq Hs. rewrite lookup_insert_ne by lia. exact Hs.
  - intros q Hs. destruct (decide (q = nextPromise w)) as [-> | Hne]; [right; lia|].
    left. rewrite lookup_insert_ne in Hs by congruence. exact Hs.
Qed.

Lemma resetLoader_promises frag loader w :
  promises (resetLoader frag loader w) = promises w.
Proof.
  unfold resetLoader. cbn zeta. case_decide; reflexivity.
Qed.

Lemma promises_kept_resetLoader w0 frag loader w :
  promises_kept w0 w -> promises_kept w0 (resetLoader frag loader w).
Proof.
  apply promises_kept_same; [apply resetLoader_promises | apply resetLoader_nextPromise].
Qed.

Lemma promises_kept_updateStatsFromPart w0 frag part w :
  promises_kept w0 w -> promises_kept w0 (updateStatsFromPart frag part w).
Proof.
  destruct (updateStatsFromPart_frame frag part w) as (h & -> & _).
  apply promises_kept_same; reflexivity.
Qed.

Lemma promises_kept_set_frag_aborted w0 frag b w :
  promises_kept w0 w -> promises_kept w0 (set_frag_aborted frag b w).
Proof.
  destruct (set_frag_aborted_frame frag b w) as (h & ->).
  apply promises_kept_same; reflexivity.
Qed.

(** The operations that do not touch the promises. *)
Ltac kept_same :=
  match goal with
  | |- promises_kept _ (snd (_ ?w)) =>
      apply (promises_kept_same _ w); [reflexivity | reflexivity |]
  | |- promises_kept _ (_ ?w) =>
      apply (promises_kept_same _ w); [reflexivity | reflexivity |]
  end.

Lemma promises_kept_loadPartIndex w0 c i w :
  promises_kept w0 w -> promises_kept w0 (loadPartIndex c i w).
Proof.
  intros H. unfold loadPartIndex, loadPart, reject.
  destruct (Chain.partList c !! i) as [part|]; [|apply promises_kept_settle, H].
  destruct (Chain.loader c) as [l|]; [|apply promises_kept_settle, H].
  kept_same. kept_same. exact H.
Qed.

Lemma promises_kept_partLoaded w0 c i part d w :
  promises_kept w0 w -> promises_kept w0 (partLoaded c i part d w).
Proof.
  intros H. unfold partLoaded, reject, resolve. cbn zeta.
  assert (H1 : promises_kept w0 (record_part (Chain.promise c) (Part.index part) d w))
    by (kept_same; exact H).
  destruct (_ <=? _).
  - apply promises_kept_settle, promises_kept_set_frag_aborted,
      promises_kept_resetLoader, H1.
  - destruct (Chain.partList c !! (i + 1)%nat) as [next|];
      [|apply promises_kept_settle, H1].
    case_decide.
    + apply promises_kept_loadPartIndex, H1.
    + apply promises_kept_settle, promises_kept_resetLoader, H1.
Qed.

Lemma promises_kept_loadFragmentParts w0 partList s frag cfg w :
  promises_kept w0 w ->
  promises_kept w0 (snd (loadFragmentParts partList s frag cfg w)).
Proof.
  intros H. unfold loadFragmentParts.
  change (new_promise w) with (nextPromise w, snd (new_promise w)). cbn iota zeta.
  match goal with
  | |- context [setTimeout ?cb ?d ?W] =>
      change (setTimeout cb d W) with (nextTimer W, snd (setTimeout cb d W))
  end.
  cbn iota zeta. cbn [snd].
  apply promises_kept_loadPartIndex. kept_same. kept_same. kept_same.
  apply promises_kept_new_promise, H.
Qed.

Lemma promises_kept_loadFragment w0 frag fragObj l cfg op w :
  promises_kept w0 w ->
  promises_kept w0 (snd (loadFragment frag fragObj l cfg op w)).
Proof.
  intros H. unfold loadFragment, reject.
  destruct (falsy_url (Fragment.url fragObj));
    change (new_promise w) with (nextPromise w, snd (new_promise w));
    cbn iota zeta; cbn [snd].
  - apply promises_kept_settle, promises_kept_new_promise, H.
  - kept_same. kept_same. apply promises_kept_new_promise, H.
Qed.

Lemma promises_kept_abort w0 w : promises_kept w0 w -> promises_kept w0 (after_abort w).
Proof.
  destruct (abort_frame w) as (_ & _ & _ & _ & Hp & _ & _ & _ & _ & Hn & _).
  apply (promises_kept_same _ _ _ Hp Hn).
Qed.

Lemma promises_kept_load frag ld tbt op w p w' :
  load frag ld tbt op w = Some (Returned (p, w')) -> promises_kept w w'.
Proof.
  unfold load. destruct (fragments w !! frag) as [fragObj|]; [|discriminate].
  rewrite abort_spec. destruct (tracked_has_context w); [|discriminate].
  cbn zeta. intros Hload.
  set (cls := match HlsConfig.fLoader (FragmentLoader.config (this w)) with
              | Some c => c
              | None => HlsConfig.loader (FragmentLoader.config (this w))
              end) in *.
  change (new_loader cls (after_abort w))
    with (nextLoader (after_abort w), snd (new_loader cls (after_abort w))) in Hload.
  cbn iota zeta in Hload.
  set (W := set_this_loader (Some (nextLoader (after_abort w)))
              (set_frag_loader frag (Some (nextLoader (after_abort w)))
                 (snd (new_loader cls (after_abort w))))) in *.
  assert (HW : promises_kept w W).
  { subst W. kept_same. kept_same. kept_same.
    apply promises_kept_abort, promises_kept_refl. }
  injection Hload as Hload.
  apply (f_equal snd) in Hload. cbn [snd] in Hload. subst w'.
  destruct (ld ≫= LevelDetails.partList) as [partList|];
    [|apply promises_kept_loadFragment, HW].
  destruct op; [|apply promises_kept_loadFragment, HW].
  destruct (-1 <? _); [apply promises_kept_loadFragmentParts, HW|].
  destruct (falsy_url (Fragment.url fragObj)); [|apply promises_kept_loadFragment, HW].
  cbn [snd]. unfold resolve. apply promises_kept_settle.
  match goal with
  | |- promises_kept _ ?G =>
      match G with
      | context [promises (resetLoader ?a ?b ?c)] =>
          change G with (snd (new_promise (resetLoader a b c)))
      end
  end.
  apply promises_kept_new_promise, promises_kept_resetLoader, HW.
Qed.

Lemma promises_kept_transport_update l st native w w' :
  transport_update l st native w = Some w' -> promises_kept w w'.
Proof.
  unfold transport_update. destruct (transports w !! l) as [t|]; [|discriminate].
  cbn zeta. intros [= <-].
  destruct (Transport.stats t); repeat kept_same; apply promises_kept_refl.
Qed.

(** Every step keeps the settled promises. *)
Lemma promises_kept_step w e w' : step w e = Some w' -> promises_kept w w'.
Proof.
  destruct e as [frag ld tbt op | | l st native | l data nd | l response nd | l nd
                | l nd | l data nd | id | dt]; cbn [step].
  - destruct (load frag ld tbt op w) as [[[p w0]|]|] eqn:E; [| |discriminate].
    + intros [= <-]. apply (promises_kept_load _ _ _ _ _ _ _ E).
    + intros [= <-]. apply promises_kept_refl.
  - rewrite abort_spec. destruct (tracked_has_context w); intros [= <-];
      [apply promises_kept_abort|]; apply promises_kept_refl.
  - apply promises_kept_transport_update.
  - destruct (in_flight l w) as [[[frag loader p op | c i part loader] []]|];
      try discriminate; intros [= <-].
    + unfold frag_onSuccess, resolve.
      apply promises_kept_settle, promises_kept_resetLoader. kept_same.
      apply promises_kept_refl.
    + unfold part_onSuccess. cbn zeta.
      apply promises_kept_partLoaded. kept_same.
      apply promises_kept_updateStatsFromPart. kept_same. apply promises_kept_refl.
  - destruct (in_flight l w) as [[[frag loader p op | c i part loader] []]|];
      try discriminate; intros [= <-].
    + unfold frag_onError, reject.
      apply promises_kept_settle, promises_kept_resetLoader. kept_same.
      apply promises_kept_refl.
    + unfold part_onError, reject.
      apply promises_kept_settle, promises_kept_resetLoader. kept_same.
      apply promises_kept_refl.
  - destruct (in_flight l w) as [[[frag loader p op | c i part loader] b]|];
      try discriminate; intros [= <-].
    + unfold frag_onAbort, reject.
      apply promises_kept_settle, promises_kept_resetLoader. kept_same.
      apply promises_kept_refl.
    + unfold part_onAbort, reject. cbn zeta.
      apply promises_kept_settle, promises_kept_resetLoader.
      destruct (statsHeap (end_request l w) !! Part.stats part);
        [apply promises_kept_set_frag_aborted|]; kept_same; apply promises_kept_refl.
  - destruct (in_flight l w) as [[[frag loader p op | c i part loader] []]|];
      try discriminate; intros [= <-].
    + unfold frag_onTimeout, reject.
      apply promises_kept_settle, promises_kept_resetLoader. kept_same.
      apply promises_kept_refl.
    + unfold part_onTimeout, reject.
      apply promises_kept_settle, promises_kept_resetLoader. kept_same.
      apply promises_kept_refl.
  - destruct (in_flight l w) as [[[frag loader p op | c i part loader] []]|];
      try discriminate; intros [= <-]; [|apply promises_kept_refl].
    unfold frag_onProgress. destruct op; [kept_same|]; apply promises_kept_refl.
  - destruct (timers w !! id) as [[d [c]]|]; [|discriminate].
    destruct (d <=? now w); [|discriminate]. intros [= <-].
    unfold watchdog, reject. cbn zeta.
    destruct (Chain.loader c);
      [apply promises_kept_settle|]; apply promises_kept_resetLoader; kept_same;
      apply promises_kept_refl.
  - destruct (0 <=? dt); [|discriminate]. intros [= <-]. kept_same.
    apply promises_kept_refl.
Qed.

Lemma promises_kept_run es : forall w w', run w es = Some w' -> promises_kept w w'.
Proof.
  induction es as [|e es IH]; intros w w'; cbn [run].
  - intros [= <-]. apply promises_kept_refl.
  - destruct (step w e) as [w1|] eqn:E; [|discriminate].
    intros Hrun. apply (promises_kept_trans _ w1).
    + apply (promises_kept_step _ _ _ E).
    + apply (IH _ _ Hrun).
Qed.

Lemma promises_bounded_kept w w' :
  promises_kept w w' -> promises_bounded w -> promises_bounded w'.
Proof.
  intros [N _ _ W] Hb p Hp. destruct (W p Hp) as [H | H]; [|lia].
  specialize (Hb p H). lia.
Qed.

Lemma promises_bounded_init config frags stats :
  promises_bounded (init config frags stats).
Proof. intros p [s Hs]. cbn in Hs. rewrite lookup_empty in Hs. discriminate. Qed.

(** A promise handed out by [load] is settled at most once: whatever the
    loader, the transports and the timers do afterwards, a resolved or
    rejected promise keeps its outcome, a pending one stays known, and
    [load] hands out a new identifier each time. *)
Theorem settled_promise_is_final config frags stats es1 es2 w1 w2 :
  run (init config frags stats) es1 = Some w1 ->
  run w1 es2 = Some w2 ->
  (forall p s, promises w1 !! p = Some s -> s <> Pending -> promises w2 !! p = Some s) /\
  (forall p, is_Some (promises w1 !! p) -> is_Some (promises w2 !! p)) /\
  (forall frag ld tbt op p w3,
     load frag ld tbt op w2 = Some (Returned (p, w3)) ->
     promises w2 !! p = None /\ is_Some (promises w3 !! p)).
Proof.
  intros H1 H2.
  assert (B1 : promises_bounded w1).
  { apply (promises_bounded_kept _ _ (promises_kept_run _ _ _ H1)).
    apply promises_bounded_init. }
  pose proof (promises_kept_run _ _ _ H2) as [N S P W].
  split; [|split].
  - intros p s Hp Hs. apply (S p s); [apply B1; eauto | exact Hp | exact Hs].
  - intros p Hp. apply P; [apply B1; exact Hp | exact Hp].
  - intros frag ld tbt op p w3 Hload.
    assert (B2 : promises_bounded w2).
    { apply (promises_bounded_kept w1); [constructor; assumption | exact B1]. }
    destruct (fragments w2 !! frag) as [fragObj|] eqn:Hf;
      [|unfold load in Hload; rewrite Hf in Hload; discriminate].
    assert (Htc : tracked_has_context w2 = true).
    { destruct (tracked_has_context w2) eqn:Htc; [reflexivity|].
      unfold load in Hload. rewrite Hf, (abort_throws _ Htc) in Hload. discriminate. }
    destruct (load_shape w2 frag fragObj ld tbt op Hf Htc)
      as (w' & E & _ & _ & _ & _ & Hp).
    rewrite E in Hload. injection Hload as <- <-. split; [|exact Hp].
    destruct (promises w2 !! nextPromise w2) eqn:Hq; [|reflexivity].
    assert ((nextPromise w2 < nextPromise w2)%nat) by (apply B2; eauto). lia.
Qed.

(** ** The whole-fragment protocol *)

Lemma createLoaderContext_frag_loader frag part l w :
  createLoaderContext frag part (set_frag_loader frag l w)
  = createLoaderContext frag part w.
Proof.
  unfold createLoaderContext. wred. rewrite lookup_alter, decide_True by reflexivity.
  destruct (fragments w !! frag) as [f|]; reflexivity.
Qed.

Lemma createLoaderContext_frame frag part w w' :
  fragments w' = fragments w ->
  createLoaderContext frag part w' = createLoaderContext frag part w.
Proof. intros H. unfold createLoaderContext. rewrite H. reflexivity. Qed.

(** X6. A fragment with a URL to which no part chain applies is requested as a
    whole: after the prologue [load] issues one request on the new
    transport, for the fragment's URL and byte range, with the configured
    timeout, no retry, no retry delay and a high-water mark of 2^17 bytes.
    The transport is given the fragment's own statistics record, stays
    tracked, and no timer is armed; the promise is pending. *)
Theorem load_whole_fragment w frag fragObj ld tbt op :
  fragments w !! frag = Some fragObj ->
  tracked_has_context w = true ->
  falsy_url (Fragment.url fragObj) = false ->
  no_chain fragObj frag ld tbt op ->
  let l := nextLoader w in
  let config := FragmentLoader.config (this w) in
  exists w',
    load frag ld tbt op w = Some (Returned (nextPromise w, w')) /\
    whole_at w' l frag (nextPromise w) op /\
    effects_since w w'
      = load_prologue w
        ++ [LoaderLoad l (createLoaderContext frag None w)
              (LoaderConfiguration.mk (HlsConfig.fragLoadingTimeOut config) 0 0
                 (HlsConfig.fragLoadingMaxRetryTimeout config) 131072)] /\
    (exists t, transports w' !! l = Some t /\
               Transport.stats t = Some (Fragment.stats fragObj)) /\
    frag_loader w' frag = Some (Some l) /\
    timers w' = timers w /\
    FragmentLoader.partLoadTimeout (this w') = FragmentLoader.partLoadTimeout (this w).
Proof.
  intros Hf Htc Hurl Hno. cbn zeta.
  destruct (abort_frame w)
    as (Ha1 & Ha2 & Ha3 & Ha4 & Ha5 & Ha6 & Ha7 & Ha8 & Ha9 & Ha10 & Ha11).
  set (cfg := LoaderConfiguration.mk
                (HlsConfig.fragLoadingTimeOut (FragmentLoader.config (this w))) 0 0
                (HlsConfig.fragLoadingMaxRetryTimeout (FragmentLoader.config (this w)))
                131072).
  set (REST := fun w' : World =>
    whole_at w' (nextLoader w) frag (nextPromise w) op /\
    effects_since w w'
      = load_prologue w
        ++ [LoaderLoad (nextLoader w) (createLoaderContext frag None w) cfg] /\
    (exists t, transports w' !! nextLoader w = Some t /\
               Transport.stats t = Some (Fragment.stats fragObj)) /\
    frag_loader w' frag = Some (Some (nextLoader w)) /\
    timers w' = timers w /\
    FragmentLoader.partLoadTimeout (this w')
      = FragmentLoader.partLoadTimeout (this w)).
  change (exists w', load frag ld tbt op w = Some (Returned (nextPromise w, w')) /\ REST w').
  unfold load. rewrite Hf, (abort_returns w Htc). cbn zeta. unfold new_loader. cbn zeta.
  assert (Hwhole : forall W l cfg',
    l = nextLoader w -> cfg' = cfg ->
    nextPromise W = nextPromise w ->
    effects W = effects w ++ load_prologue w ->
    FragmentLoader.loader (this W) = Some (nextLoader w) ->
    FragmentLoader.partLoadTimeout (this W) = FragmentLoader.partLoadTimeout (this w) ->
    timers W = timers w ->
    transports W !! nextLoader w = Some (Transport.mk None None false JsUndefined None) ->
    (exists f', fragments W !! frag = Some f' /\ Fragment.loader f' = Some (nextLoader w)) ->
    createLoaderContext frag None W = createLoaderContext frag None w ->
    exists w', loadFragment frag fragObj l cfg' op W = (nextPromise w, w') /\ REST w').
  { intros W l cfg' -> -> HnP Heff Htr Hplt Hti Ht (f' & Hf' & Hfl) Hctx.
    unfold loadFragment. rewrite Hurl. unfold new_promise. cbn zeta. wred.
    rewrite HnP, Hctx. eexists. split; [reflexivity|]. unfold REST.
    split; [constructor; wred|].
    - eexists. split.
      + rewrite !lookup_alter, !decide_True by reflexivity. rewrite Ht. reflexivity.
      + split; [reflexivity | split; [reflexivity | eauto]].
    - exact Htr.
    - apply lookup_insert_eq.
    - rewrite Hf'. eauto.
    - unfold effects_since. wred. rewrite Heff, <- app_assoc, drop_app_length.
      split; [reflexivity|]. split.
      + eexists. split.
        * rewrite !lookup_alter, !decide_True by reflexivity. rewrite Ht. reflexivity.
        * reflexivity.
      + unfold frag_loader. wred. rewrite Hf'. cbn. rewrite Hfl.
        split; [reflexivity|]. split; [exact Hti | exact Hplt]. }
  match goal with
  | |- context [loadFragment frag fragObj ?l ?cfg' op ?W] =>
      destruct (Hwhole W l cfg') as (w' & Hw' & Hrest)
  end.
  { exact Ha8. }
  { reflexivity. }
  { wred. exact Ha10. }
  { wred. rewrite Ha11, Ha8. unfold load_prologue. rewrite <- app_assoc. reflexivity. }
  { wred. rewrite Ha8. reflexivity. }
  { wred. rewrite Ha1. reflexivity. }
  { wred. exact Ha4. }
  { wred. rewrite Ha8. apply lookup_insert_eq. }
  { wred. rewrite lookup_alter, decide_True by reflexivity. rewrite Ha2, Hf, Ha8.
    eexists. split; reflexivity. }
  { unfold createLoaderContext. wred.
    rewrite lookup_alter, decide_True by reflexivity. rewrite Ha2, Hf. reflexivity. }
  exists w'. split; [|exact Hrest].
  destruct Hno as [Hno | [-> | (partList & Hpl & Hfind)]].
  - rewrite Hno. rewrite Hw'. reflexivity.
  - destruct (ld ≫= LevelDetails.partList); rewrite Hw'; reflexivity.
  - rewrite Hpl. destruct op; [|rewrite Hw'; reflexivity].
    rewrite Hfind. cbn [Z.ltb Z.compare]. rewrite Hurl, Hw'. reflexivity.
Qed.

Lemma in_flight_whole w l frag p op :
  whole_at w l frag p op -> in_flight l w = Some (FragCallbacks frag l p op, false).
Proof.
  intros [(t & Ht & Hcb & Hab & Hctx) _ _ _]. unfold in_flight. rewrite Ht, Hcb, Hab.
  reflexivity.
Qed.

(** What a terminal callback of the whole-fragment request leaves: the
    promise settled with [s], the transport released by both the loader
    and the fragment, the request over, and one [clearTimeout] as the only
    call made. *)
Lemma whole_at_finish w l frag p op s :
  whole_at w l frag p op -> s <> Pending ->
  let w' := settle p s (resetLoader frag (Some l) (end_request l w)) in
  promises w' !! p = Some s /\
  released w' frag /\
  in_flight l w' = None /\
  effects w' = effects w ++ [ClearTimeout (FragmentLoader.partLoadTimeout (this w))] /\
  (forall q, q <> p -> promises w' !! q = promises w !! q).
Proof.
  intros [(t & Ht & Hcb & Hab & Hctx) Htr Hpe [f Hf]] Hs. cbn zeta.
  rewrite resetLoader_tracked by (wred; exact Htr).
  rewrite settle_pending by (wred; exact Hpe).
  wred. split; [apply lookup_insert_eq|]. split; [|split; [|split]].
  - unfold released, frag_loader. wred. split; [|split; [reflexivity|]].
    + rewrite lookup_alter, decide_True by reflexivity. rewrite Hf. reflexivity.
    + apply lookup_delete_eq.
  - unfold in_flight. wred. rewrite lookup_alter, decide_True by reflexivity.
    rewrite Ht. reflexivity.
  - reflexivity.
  - intros q Hq. apply lookup_insert_ne. congruence.
Qed.

(** X7. The four terminal callbacks of a whole-fragment request.  Success
    resolves with an object that holds the fragment only; an error rejects
    with load-error and the response, a timeout with load-timeout, an abort
    with internal-aborted, each with the transport's details and without a
    part.  In every case the transport is released and nothing is requested. *)
Theorem whole_fragment_settles w l frag p op :
  whole_at w l frag p op ->
  let done (w' : World) (s : PromiseState) :=
    promises w' !! p = Some s /\ released w' frag /\ in_flight l w' = None /\
    effects w' = effects w ++ [ClearTimeout (FragmentLoader.partLoadTimeout (this w))] in
  (forall data nd, exists w',
     step w (OnSuccess l data nd) = Some w' /\
     done w' (Resolved (Some (FragLoadedEndData.mk frag None ∅)))) /\
  (forall response nd, exists w',
     step w (OnError l response nd) = Some w' /\
     done w' (Rejected (ReasonLoadError (LoadError.mk
       (FragLoadFailResult.mk NETWORK_ERROR FRAG_LOAD_ERROR false frag None
          (Some response) nd) None)))) /\
  (forall nd, exists w',
     step w (OnTimeout l nd) = Some w' /\
     done w' (Rejected (ReasonLoadError (LoadError.mk
       (FragLoadFailResult.mk NETWORK_ERROR FRAG_LOAD_TIMEOUT false frag None
          None nd) None)))) /\
  (forall nd, exists w',
     step w (OnAbort l nd) = Some w' /\
     done w' (Rejected (ReasonLoadError (LoadError.mk
       (FragLoadFailResult.mk NETWORK_ERROR INTERNAL_ABORTED false frag None
          None nd) None)))).
Proof.
  intros H. pose proof (in_flight_whole _ _ _ _ _ H) as Hfl. cbn zeta.
  repeat split; intros; cbn [step]; rewrite Hfl; eexists; (split; [reflexivity|]);
    unfold frag_onSuccess, frag_onError, frag_onTimeout, frag_onAbort, resolve, reject;
    cbn zeta;
    match goal with
    | |- context [settle p ?s _] =>
        destruct (whole_at_finish w l frag p op s H) as (H1 & H2 & H3 & H4 & _);
          [discriminate | auto]
    end.
Qed.

(** X8. Progress of a whole-fragment request is handed to the caller's
    progress callback when there is one, with the fragment, the chunk and
    the transport's details and without a part; the request stays in
    flight and its promise pending. *)
Theorem whole_fragment_progress w l frag p op data nd :
  whole_at w l frag p op ->
  exists w',
    step w (OnProgress l data nd) = Some w' /\
    effects w'
      = effects w ++ (if op then [Progress (FragLoadedData.mk frag None data nd)]
                      else []) /\
    whole_at w' l frag p op /\
    promises w' = promises w /\ timers w' = timers w.
Proof.
  intros H. pose proof (in_flight_whole _ _ _ _ _ H) as Hfl.
  cbn [step]. rewrite Hfl. eexists. split; [reflexivity|].
  unfold frag_onProgress. destruct H as [Ht Htr Hpe Hf].
  destruct op; wred.
  - split; [reflexivity|]. split; [constructor; wred; assumption|]. auto.
  - split; [symmetry; apply app_nil_r|]. split; [constructor; assumption|]. auto.
Qed.

(** ** The part chain: failures and abort *)

(** The state a chain is in after [load] and the completion of the parts
    [xs]: the request of the next part is in flight. *)
Lemma chain_reached w frag fragObj ld tbt pl s xs :
  fragments w !! frag = Some fragObj ->
  tracked_has_context w = true ->
  ld ≫= LevelDetails.partList = Some pl ->
  findIndependentPart pl frag (Math_max (Fragment.start fragObj) (or_zero tbt))
    = Z.of_nat s ->
  (forall j, (j < length xs)%nat ->
     exists p, pl !! (S s + j)%nat = Some p /\ Part.fragment p = frag) ->
  Forall (fun y => 0 <= Completion.elapsed y) xs ->
  exists w2 part f2,
    run w (CallLoad frag ld tbt true :: parts_done (nextLoader w) xs) = Some w2 /\
    pl !! (s + length xs)%nat = Some part /\
    chain_at w2 (chain_of w pl s frag) (nextLoader w) (s + length xs) part
      (recorded frag (take (length xs) (drop s pl)) xs ∅)
      (now w + HlsConfig.fragLoadingTimeOut (FragmentLoader.config (this w)))
      (chain_prologue w) /\
    FragmentLoader.partLoadTimeout (this w2) = nextTimer w /\
    fragments w2 !! frag = Some f2 /\ Fragment.stats f2 = Fragment.stats fragObj /\
    (forall sid, is_Some (statsHeap w !! sid) -> is_Some (statsHeap w2 !! sid)) /\
    now w2 = now w + elapsed_total xs.
Proof.
  intros Hf Htc Hpl Hfind Hsame Hxs.
  destruct (findIndependentPart_found _ _ _ _ Hfind) as (part & Hpart & _).
  destruct (load_starts_chain w frag fragObj ld tbt pl s part Hf Htc Hpl Hfind Hpart)
    as (w1 & Hload & H1 & Hid & (f1 & Hf1 & Hst & _) & Hn1 & Hst1).
  destruct (chain_run (chain_of w pl s frag) (nextLoader w) _ _ xs w1 s part ∅ H1 Hxs Hsame)
    as (w2 & cur & Hrun & H2 & Ht2 & Hf2 & Hn2 & Hheap).
  exists w2, cur, f1.
  split; [cbn [run step]; rewrite Hload; exact Hrun|].
  split; [exact (ca_part _ _ _ _ _ _ _ _ H2)|].
  split; [exact H2|].
  split; [rewrite Ht2; exact Hid|].
  split; [rewrite Hf2; exact Hf1|].
  split; [exact Hst|].
  split; [|rewrite Hn2, Hn1; reflexivity].
  intros sid Hsid. apply Hheap. rewrite Hst1. exact Hsid.
Qed.

(** A terminal callback of a part request that settles the chain with [s]
    and releases the transport. *)
Lemma chain_at_finish w c l i part A D E0 s :
  chain_at w c l i part A D E0 ->
  is_Some (fragments w !! Chain.frag c) -> s <> Pending ->
  let w' := settle (Chain.promise c) s
              (resetLoader (Chain.frag c) (Some l) (end_request l w)) in
  promises w' !! Chain.promise c = Some s /\
  released w' (Chain.frag c) /\
  in_flight l w' = None /\
  effects w' = effects w ++ [ClearTimeout (FragmentLoader.partLoadTimeout (this w))] /\
  statsHeap w' = statsHeap w.
Proof.
  intros [Hl Hp (t & Ht & Hcb & Hab & Hctx) Htr Hpe Hre Hti _] [f Hf] Hs. cbn zeta.
  rewrite resetLoader_tracked by (wred; exact Htr).
  rewrite settle_pending by (wred; exact Hpe).
  wred. split; [apply lookup_insert_eq|]. split; [|split; [|split]].
  - unfold released, frag_loader. wred. split; [|split; [reflexivity|]].
    + rewrite lookup_alter, decide_True by reflexivity. rewrite Hf. reflexivity.
    + apply lookup_delete_eq.
  - unfold in_flight. wred. rewrite lookup_alter, decide_True by reflexivity.
    rewrite Ht. reflexivity.
  - reflexivity.
  - reflexivity.
Qed.

(** X9. When the request of a part fails or times out, the chain stops there:
    the promise rejects with load-error (and the response) or load-timeout,
    naming the part that was being loaded, the transport is released, the
    watchdog cleared, and no further part is requested. *)
Theorem part_failure_ends_chain w frag fragObj ld tbt pl s xs :
  fragments w !! frag = Some fragObj ->
  tracked_has_context w = true ->
  ld ≫= LevelDetails.partList = Some pl ->
  findIndependentPart pl frag (Math_max (Fragment.start fragObj) (or_zero tbt))
    = Z.of_nat s ->
  (forall j, (j < length xs)%nat ->
     exists p, pl !! (S s + j)%nat = Some p /\ Part.fragment p = frag) ->
  Forall (fun y => 0 <= Completion.elapsed y) xs ->
  let l := nextLoader w in
  exists w2 part,
    run w (CallLoad frag ld tbt true :: parts_done l xs) = Some w2 /\
    pl !! (s + length xs)%nat = Some part /\
    let stopped (w3 : World) (details : string) (response : option Response.t)
        (nd : JsAny) :=
      promises w3 !! nextPromise w
        = Some (Rejected (ReasonLoadError (LoadError.mk
            (FragLoadFailResult.mk NETWORK_ERROR details false frag (Some part)
               response nd) None))) /\
      released w3 frag /\ in_flight l w3 = None /\
      effects w3 = effects w2 ++ [ClearTimeout (nextTimer w)] in
    (forall response nd, exists w3,
       step w2 (OnError l response nd) = Some w3 /\
       stopped w3 FRAG_LOAD_ERROR (Some response) nd) /\
    (forall nd, exists w3,
       step w2 (OnTimeout l nd) = Some w3 /\
       stopped w3 FRAG_LOAD_TIMEOUT None nd).
Proof.
  intros Hf Htc Hpl Hfind Hsame Hxs. cbn zeta.
  destruct (chain_reached w frag fragObj ld tbt pl s xs Hf Htc Hpl Hfind Hsame Hxs)
    as (w2 & part & f2 & Hrun & Hpart & H2 & Hid & Hf2 & _ & _ & _).
  exists w2, part. split; [exact Hrun|]. split; [exact Hpart|].
  pose proof (in_flight_chain _ _ _ _ _ _ _ _ H2) as Hfl.
  assert (Hfr : is_Some (fragments w2 !! Chain.frag (chain_of w pl s frag))).
  { cbn [chain_of Chain.frag]. eauto. }
  split.
  - intros response nd. cbn [step]. rewrite Hfl. eexists. split; [reflexivity|].
    unfold part_onError, reject.
    match goal with
    | |- context [settle _ ?st _] =>
        destruct (chain_at_finish _ _ _ _ _ _ _ _ st H2 Hfr) as (H1 & Hr & Hi & He & _);
          [discriminate|]
    end.
    rewrite Hid in He. cbn [chain_of Chain.frag Chain.promise] in *. auto.
  - intros nd. cbn [step]. rewrite Hfl. eexists. split; [reflexivity|].
    unfold part_onTimeout, reject.
    match goal with
    | |- context [settle _ ?st _] =>
        destruct (chain_at_finish _ _ _ _ _ _ _ _ st H2 Hfr) as (H1 & Hr & Hi & He & _);
          [discriminate|]
    end.
    rewrite Hid in He. cbn [chain_of Chain.frag Chain.promise] in *. auto.
Qed.

Lemma chain_at_abort w c l i part A D E0 f nd :
  chain_at w c l i part A D E0 ->
  fragments w !! Chain.frag c = Some f ->
  is_Some (statsHeap w !! Fragment.stats f) ->
  let w1 := after_abort w in
  abort w = Returned w1 /\
  effects w1 = effects w ++ [LoaderAbort l] /\
  promises w1 = promises w /\ this w1 = this w /\ timers w1 = timers w /\
  statsHeap w1 = statsHeap w /\
  in_flight l w1 = Some (PartCallbacks c i part l, true) /\
  exists w2,
    step w1 (OnAbort l nd) = Some w2 /\
    promises w2 !! Chain.promise c
      = Some (Rejected (mkLoadError INTERNAL_ABORTED (Chain.frag c) (Some part) None
                          nd None)) /\
    released w2 (Chain.frag c) /\
    effects w2 = effects w1 ++ [ClearTimeout (FragmentLoader.partLoadTimeout (this w))] /\
    (forall q, q <> Chain.promise c -> promises w2 !! q = promises w !! q) /\
    match statsHeap w !! Part.stats part with
    | Some ps =>
        exists st, statsHeap w2 !! Fragment.stats f = Some st /\
                   LoaderStats.aborted st = LoaderStats.aborted ps
    | None => statsHeap w2 = statsHeap w
    end.
Proof.
  intros [Hl Hp (t & Ht & Hcb & Hab & Hctx) Htr Hpe Hre Hti _] Hf [fs Hfs]. cbn zeta.
  split.
  { apply abort_returns. unfold tracked_has_context, loader_context.
    rewrite Htr, Ht. apply bool_decide_eq_true_2. exact Hctx. }
  unfold after_abort. rewrite Htr. wred.
  repeat (split; [reflexivity|]).
  assert (Hfl : in_flight l (loader_abort l w) = Some (PartCallbacks c i part l, true)).
  { unfold in_flight. wred. rewrite lookup_alter, decide_True by reflexivity.
    rewrite Ht. cbn. rewrite Hcb. reflexivity. }
  split; [exact Hfl|].
  cbn [step]. rewrite Hfl. eexists. split; [reflexivity|].
  unfold part_onAbort. cbn zeta. wred.
  assert (Hfin : forall W,
    FragmentLoader.loader (this W) = Some l ->
    FragmentLoader.partLoadTimeout (this W) = FragmentLoader.partLoadTimeout (this w) ->
    promises W = promises w -> fragments W = fragments w ->
    effects W = effects w ++ [LoaderAbort l] ->
    let W' := reject (Chain.promise c)
                (mkLoadError INTERNAL_ABORTED (Chain.frag c) (Some part) None nd None)
                (resetLoader (Chain.frag c) (Some l) W) in
    promises W' !! Chain.promise c
      = Some (Rejected (mkLoadError INTERNAL_ABORTED (Chain.frag c) (Some part) None
                          nd None)) /\
    released W' (Chain.frag c) /\
    effects W' = (effects w ++ [LoaderAbort l])
                 ++ [ClearTimeout (FragmentLoader.partLoadTimeout (this w))] /\
    (forall q, q <> Chain.promise c -> promises W' !! q = promises w !! q) /\
    statsHeap W' = statsHeap W).
  { intros W HtrW Hplt HpW HfW HeW. cbn zeta.
    rewrite resetLoader_tracked by exact HtrW.
    unfold reject. rewrite settle_pending by (wred; rewrite HpW; exact Hpe).
    wred. split; [apply lookup_insert_eq|]. split; [|split; [|split]].
    - unfold released, frag_loader. wred. split; [|split; [reflexivity|]].
      + rewrite lookup_alter, decide_True by reflexivity. rewrite HfW, Hf. reflexivity.
      + apply lookup_delete_eq.
    - rewrite HeW, Hplt. reflexivity.
    - intros q Hq. rewrite lookup_insert_ne by congruence. rewrite HpW. reflexivity.
    - reflexivity. }
  destruct (statsHeap w !! Part.stats part) as [ps|] eqn:Hps.
  - rewrite (set_frag_aborted_found _ _ _ f) by (wred; exact Hf).
    match goal with
    | |- context [resetLoader _ _ ?W] =>
        destruct (Hfin W) as (H1 & H2 & H3 & H4 & H5); try reflexivity; [exact Htr|]
    end.
    split; [exact H1|]. split; [exact H2|]. split; [exact H3|]. split; [exact H4|].
    rewrite H5. wred. rewrite lookup_alter, decide_True by reflexivity. rewrite Hfs.
    eexists. split; reflexivity.
  - match goal with
    | |- context [resetLoader _ _ ?W] =>
        destruct (Hfin W) as (H1 & H2 & H3 & H4 & H5); try reflexivity; [exact Htr|]
    end.
    split; [exact H1|]. split; [exact H2|]. split; [exact H3|]. split; [exact H4|].
    rewrite H5. reflexivity.
Qed.

(** X10. [abort()] during a part chain only tells the transport to abort: the
    promise stays pending and the transport tracked until the transport's
    abort callback arrives.  The callback copies the part's aborted flag
    into the fragment's statistics, releases the transport, clears the
    watchdog and rejects with internal-aborted, naming the part. *)
Theorem abort_ends_chain w frag fragObj ld tbt pl s xs :
  fragments w !! frag = Some fragObj ->
  tracked_has_context w = true ->
  is_Some (statsHeap w !! Fragment.stats fragObj) ->
  ld ≫= LevelDetails.partList = Some pl ->
  findIndependentPart pl frag (Math_max (Fragment.start fragObj) (or_zero tbt))
    = Z.of_nat s ->
  (forall j, (j < length xs)%nat ->
     exists p, pl !! (S s + j)%nat = Some p /\ Part.fragment p = frag) ->
  Forall (fun y => 0 <= Completion.elapsed y) xs ->
  let l := nextLoader w in
  exists w2 part w3,
    run w (CallLoad frag ld tbt true :: parts_done l xs) = Some w2 /\
    pl !! (s + length xs)%nat = Some part /\
    step w2 CallAbort = Some w3 /\
    effects w3 = effects w2 ++ [LoaderAbort l] /\
    promises w3 !! nextPromise w = Some Pending /\
    FragmentLoader.loader (this w3) = Some l /\
    timers w3 = timers w2 /\
    forall nd, exists w4,
      step w3 (OnAbort l nd) = Some w4 /\
      promises w4 !! nextPromise w
        = Some (Rejected (ReasonLoadError (LoadError.mk
            (FragLoadFailResult.mk NETWORK_ERROR INTERNAL_ABORTED false frag (Some part)
               None nd) None))) /\
      released w4 frag /\
      effects w4 = effects w3 ++ [ClearTimeout (nextTimer w)] /\
      forall ps, statsHeap w3 !! Part.stats part = Some ps ->
        exists st, statsHeap w4 !! Fragment.stats fragObj = Some st /\
                   LoaderStats.aborted st = LoaderStats.aborted ps.
Proof.
  intros Hf Htc Hfs Hpl Hfind Hsame Hxs. cbn zeta.
  destruct (chain_reached w frag fragObj ld tbt pl s xs Hf Htc Hpl Hfind Hsame Hxs)
    as (w2 & part & f2 & Hrun & Hpart & H2 & Hid & Hf2 & Hst2 & Hheap & _).
  exists w2, part, (after_abort w2).
  split; [exact Hrun|]. split; [exact Hpart|].
  assert (Hfs2 : is_Some (statsHeap w2 !! Fragment.stats f2)).
  { rewrite Hst2. apply Hheap, Hfs. }
  pose proof (fun nd => chain_at_abort _ _ _ _ _ _ _ _ f2 nd H2 Hf2 Hfs2) as Hab.
  cbn zeta in Hab.
  destruct (Hab JsNull) as (Hret & He & Hp & Ht & Hti & Hsh & _ & _).
  split; [cbn [step]; rewrite Hret; reflexivity|].
  split; [exact He|].
  split; [rewrite Hp; exact (ca_pending _ _ _ _ _ _ _ _ H2)|].
  split; [rewrite Ht; exact (ca_tracked _ _ _ _ _ _ _ _ H2)|].
  split; [exact Hti|].
  intros nd.
  destruct (Hab nd) as (_ & _ & _ & _ & _ & _ & _ & w4 & Hs4 & H4 & Hr4 & He4 & _ & Hst4).
  exists w4. split; [exact Hs4|]. split; [exact H4|]. split; [exact Hr4|].
  split; [rewrite He4, Hid; reflexivity|].
  intros ps Hps. rewrite Hsh in Hps. rewrite Hps in Hst4. rewrite <- Hst2. exact Hst4.
Qed.

(** ** The part chain: order of the requests *)

Lemma createLoaderContext_part frag p w w' :
  createLoaderContext frag (Some p) w' = createLoaderContext frag (Some p) w.
Proof. reflexivity. Qed.

Lemma transport_update_effects l st native w w' :
  transport_update l st native w = Some w' -> effects w' = effects w.
Proof.
  unfold transport_update. destruct (transports w !! l) as [t|]; [|discriminate].
  cbn zeta. intros [= <-]. destruct (Transport.stats t); reflexivity.
Qed.

(** A part request succeeds on a transport, tracked or not, and the next
    list entry belongs to the same fragment: the progress callback is
    called with the part's result and the next part is requested on the
    same transport; no promise, timer or loader field is touched. *)
Lemma part_success_continues w0 w c l i part t data nd next :
  transports w !! l = Some t ->
  Transport.callbacks t = Some (PartCallbacks c i part l) ->
  Transport.aborting t = false ->
  Chain.loader c = Some l ->
  Chain.partList c !! i = Some part ->
  Chain.partList c !! S i = Some next ->
  Part.fragment next = Chain.frag c ->
  exists w',
    step w (OnSuccess l data nd) = Some w' /\
    effects w'
      = effects w ++ [Progress (FragLoadedData.mk (Chain.frag c) (Some part) data nd);
                      part_request w0 c l next] /\
    promises w' = promises w /\ this w' = this w /\ timers w' = timers w /\
    fragments w' = fragments w /\
    in_flight l w' = Some (PartCallbacks c (S i) next l, false) /\
    reports_to w' l (Part.stats next).
Proof.
  intros Ht Hcb Hab Hl Hp Hnext Hfrag.
  assert (Hfl : in_flight l w = Some (PartCallbacks c i part l, false)).
  { unfold in_flight. rewrite Ht, Hcb, Hab. reflexivity. }
  cbn [step]. rewrite Hfl. eexists. split; [reflexivity|].
  unfold part_onSuccess.
  destruct (updateStatsFromPart_frame (Chain.frag c) part (end_request l w))
    as (h & -> & Hh).
  unfold partLoaded. cbn zeta.
  rewrite (lookup_lt_length _ _ _ Hp).
  assert (Hlen : (length (Chain.partList c) =? S i)%nat = false).
  { apply Nat.eqb_neq. apply lookup_lt_Some in Hnext. lia. }
  rewrite Hlen. replace (i + 1)%nat with (S i) by lia. rewrite Hnext.
  rewrite decide_True by exact Hfrag.
  unfold loadPartIndex, loadPart. rewrite Hnext, Hl. wred.
  split; [rewrite <- app_assoc; reflexivity|].
  repeat (split; [reflexivity|]).
  unfold in_flight, reports_to. wred.
  rewrite !lookup_alter, !decide_True by reflexivity.
  rewrite Ht. cbn. rewrite Hab. split; [reflexivity|].
  eexists. split; reflexivity.
Qed.

Lemma chain_at_boundary_effects w c l i part A D E0 data nd next w' :
  chain_at w c l i part A D E0 ->
  Chain.partList c !! S i = Some next ->
  Part.fragment next <> Chain.frag c ->
  step w (OnSuccess l data nd) = Some w' ->
  effects w'
    = effects w ++ [Progress (FragLoadedData.mk (Chain.frag c) (Some part) data nd);
                    ClearTimeout (FragmentLoader.partLoadTimeout (this w))].
Proof.
  intros H Hnext Hfrag. pose proof (in_flight_chain _ _ _ _ _ _ _ _ H) as Hfl.
  destruct H as [Hl Hp (t & Ht & Hcb & Hab & Hctx) Htr Hpe Hre Hti _].
  cbn [step]. rewrite Hfl. intros [= <-].
  unfold part_onSuccess.
  destruct (updateStatsFromPart_frame (Chain.frag c) part (end_request l w))
    as (h & -> & Hh).
  unfold partLoaded. cbn zeta.
  rewrite (lookup_lt_length _ _ _ Hp).
  assert (Hlen : (length (Chain.partList c) =? S i)%nat = false).
  { apply Nat.eqb_neq. apply lookup_lt_Some in Hnext. lia. }
  rewrite Hlen. replace (i + 1)%nat with (S i) by lia. rewrite Hnext.
  rewrite decide_False by exact Hfrag.
  rewrite Hl. rewrite resetLoader_tracked by (wred; exact Htr).
  unfold resolve. rewrite settle_effects. wred. rewrite <- app_assoc. reflexivity.
Qed.

Lemma load_chain_effects w frag fragObj ld tbt pl s part w' :
  fragments w !! frag = Some fragObj ->
  ld ≫= LevelDetails.partList = Some pl ->
  findIndependentPart pl frag (Math_max (Fragment.start fragObj) (or_zero tbt))
    = Z.of_nat s ->
  pl !! s = Some part ->
  load frag ld tbt true w = Some (Returned (nextPromise w, w')) ->
  effects w'
    = chain_prologue w ++ [part_request w (chain_of w pl s frag) (nextLoader w) part] /\
  reports_to w' (nextLoader w) (Part.stats part) /\
  exists f', fragments w' !! frag = Some f' /\
             Fragment.duration f' = Fragment.duration fragObj.
Proof.
  intros Hf Hpl Hfind Hpart.
  destruct (abort_frame w)
    as (Ha1 & Ha2 & Ha3 & Ha4 & Ha5 & Ha6 & Ha7 & Ha8 & Ha9 & Ha10 & Ha11).
  unfold load. rewrite Hf, abort_spec.
  destruct (tracked_has_context w); [|discriminate].
  rewrite Hpl. cbn zeta.
  unfold new_loader. cbn zeta. rewrite Hfind.
  destruct (-1 <? Z.of_nat s) eqn:E; [|lia]. rewrite Nat2Z.id.
  unfold loadFragmentParts, new_promise, setTimeout. cbn zeta. wred.
  rewrite Ha1, Ha8, Ha9, Ha10.
  unfold loadPartIndex. cbn [Chain.partList]. rewrite Hpart.
  unfold loadPart. cbn [Chain.loader Chain.frag Chain.promise Chain.loaderConfig].
  intros [= <-]. unfold reports_to. wred. rewrite Ha11. split; [|split].
  - unfold chain_prologue, part_request, chain_of, loaderConfig_of.
    cbn [Chain.frag Chain.loaderConfig LoaderConfiguration.timeout].
    rewrite <- !app_assoc. reflexivity.
  - rewrite !lookup_alter, !decide_True by reflexivity. rewrite lookup_insert_eq.
    eexists. split; reflexivity.
  - rewrite lookup_alter, decide_True by reflexivity. rewrite Ha2, Hf.
    eexists. split; reflexivity.
Qed.

(** The effects of a chain from the request of the part at [i] through
    the completions [xs]. *)
Lemma chain_run_trace w0 c l D E0 xs :
  forall w i part A E,
  chain_at w c l i part A D E0 ->
  effects w = E ++ [part_request w0 c l part] ->
  reports_to w l (Part.stats part) ->
  Forall (fun x => 0 <= Completion.elapsed x) xs ->
  (forall j, (j < length xs)%nat ->
     exists p, Chain.partList c !! (S i + j)%nat = Some p /\
               Part.fragment p = Chain.frag c) ->
  exists w' part',
    run w (parts_done l xs) = Some w' /\
    chain_at w' c l (i + length xs) part'
      (recorded (Chain.frag c) (take (length xs) (drop i (Chain.partList c))) xs A)
      D E0 /\
    effects w'
      = E ++ chain_trace w0 c l (take (length xs) (drop i (Chain.partList c))) xs
          ++ [part_request w0 c l part'] /\
    this w' = this w /\ fragments w' = fragments w /\
    reports_to w' l (Part.stats part').
Proof.
  induction xs as [|x xs IH]; intros w i part A E H Heff Hrep Hdt Hparts.
  - exists w, part. simpl. rewrite Nat.add_0_r.
    split; [reflexivity|]. split; [exact H|]. auto.
  - inversion Hdt as [|? ? Hx Hxs]; subst.
    destruct (Hparts 0%nat) as (next & Hnext & Hfrag); [simpl; lia|].
    rewrite Nat.add_0_r in Hnext.
    destruct (chain_at_tick _ _ _ _ _ _ _ _ _ H Hx) as [Hs1 H1].
    destruct (chain_at_update _ _ _ _ _ _ _ _ (Completion.stats x)
                (Completion.native x) H1) as (w2 & Hs2 & H2 & Ht2 & Hf2 & Hn2 & Hst2).
    assert (He2 : effects w2 = effects w).
    { cbn [step] in Hs2. rewrite (transport_update_effects _ _ _ _ _ Hs2). reflexivity. }
    destruct (chain_at_continue _ _ _ _ _ _ _ _ (Completion.data x)
                (Completion.networkDetails x) next H2 Hnext Hfrag)
      as (w3 & Hs3 & H3 & Ht3 & Hf3 & Hn3 & Hst3).
    assert (He3 : effects w3
                  = effects w2 ++ [Progress (part_result (Chain.frag c) part x);
                                   part_request w0 c l next] /\
                  reports_to w3 l (Part.stats next)).
    { destruct (ca_transport _ _ _ _ _ _ _ _ H2) as (t & Ht & Hcb & Hab & Hctx).
      destruct (part_success_continues w0 w2 c l i part t (Completion.data x)
                  (Completion.networkDetails x) next Ht Hcb Hab
                  (ca_loader _ _ _ _ _ _ _ _ H2) (ca_part _ _ _ _ _ _ _ _ H2)
                  Hnext Hfrag) as (w3' & Hs3' & He & _ & _ & _ & _ & _ & Hr).
      rewrite Hs3 in Hs3'. injection Hs3' as <-. split; [exact He | exact Hr]. }
    destruct He3 as [He3 Hrep3].
    destruct (IH w3 (S i) next _
                (E ++ [part_request w0 c l part;
                       Progress (part_result (Chain.frag c) part x)]) H3)
      as (w' & part' & Hrun & H' & He' & Ht' & Hf' & Hrep'); [| exact Hrep3 | exact Hxs | |].
    { rewrite He3, He2, Heff, <- !app_assoc. reflexivity. }
    { intros j Hj. destruct (Hparts (S j)) as (p & Hp & Hpf); [simpl; lia|].
      exists p. split; [|exact Hpf]. rewrite <- Hp. f_equal. lia. }
    pose proof (ca_part _ _ _ _ _ _ _ _ H) as Hpart.
    exists w', part'. split; [|split; [|split; [|split; [|split; [|exact Hrep']]]]].
    + unfold parts_done. simpl. fold (parts_done l xs).
      destruct (0 <=? Completion.elapsed x) eqn:E1; [|lia].
      simpl in Hs2, Hs3. rewrite Hs2. simpl. rewrite Hs3. exact Hrun.
    + replace (i + length (x :: xs))%nat with (S i + length xs)%nat by (simpl; lia).
      rewrite (drop_S _ _ _ Hpart). simpl. exact H'.
    + rewrite He'. rewrite (drop_S _ _ _ Hpart). simpl.
      rewrite <- !app_assoc. reflexivity.
    + rewrite Ht', Ht3, Ht2. reflexivity.
    + rewrite Hf', Hf3, Hf2. reflexivity.
Qed.

Lemma chain_trace_snoc w0 c l ps xs p x :
  length ps = length xs ->
  chain_trace w0 c l (ps ++ [p]) (xs ++ [x])
  = chain_trace w0 c l ps xs
    ++ [part_request w0 c l p; Progress (part_result (Chain.frag c) p x)].
Proof.
  revert xs. induction ps as [|q ps IH]; intros [|y xs] Hlen; simpl in *;
    try discriminate; [reflexivity|].
  rewrite IH by lia. reflexivity.
Qed.

(** X11. The calls of a chain that runs to the boundary of its fragment, in
    order: the prologue of [load], the watchdog armed once, then for each
    part from the starting one a request on the one transport followed by
    the progress callback with that part's result, and at last the
    watchdog cleared.  A part is requested only after the progress callback
    of the part before it, the part of the next fragment is not requested,
    and the [partsLoaded] list of the result stays empty. *)
Theorem chain_requests_in_order w frag fragObj ld tbt pl s xs x next :
  fragments w !! frag = Some fragObj ->
  tracked_has_context w = true ->
  ld ≫= LevelDetails.partList = Some pl ->
  findIndependentPart pl frag (Math_max (Fragment.start fragObj) (or_zero tbt))
    = Z.of_nat s ->
  (forall j, (j < length xs)%nat ->
     exists p, pl !! (S s + j)%nat = Some p /\ Part.fragment p = frag) ->
  pl !! S (s + length xs) = Some next ->
  Part.fragment next <> frag ->
  Forall (fun y => 0 <= Completion.elapsed y) (xs ++ [x]) ->
  let l := nextLoader w in
  let c := chain_of w pl s frag in
  exists w' R,
    run w (CallLoad frag ld tbt true :: parts_done l (xs ++ [x])) = Some w' /\
    effects_since w w'
      = load_prologue w
        ++ [SetTimeout (nextTimer w)
              (HlsConfig.fragLoadingTimeOut (FragmentLoader.config (this w)))]
        ++ chain_trace w c l (take (S (length xs)) (drop s pl)) (xs ++ [x])
        ++ [ClearTimeout (nextTimer w)] /\
    length (filter (fun e => request_effect e = true) (effects_since w w'))
      = S (length xs) /\
    promises w' !! nextPromise w = Some (Resolved (Some R)) /\
    FragLoadedEndData.partsLoaded R = Some [].
Proof.
  intros Hf Htc Hpl Hfind Hsame Hnext Hother Hdt. cbn zeta.
  destruct (findIndependentPart_found _ _ _ _ Hfind) as (part & Hpart & _).
  destruct (load_starts_chain w frag fragObj ld tbt pl s part Hf Htc Hpl Hfind Hpart)
    as (w1 & Hload & H1 & Hid & (f1 & Hf1 & _ & _) & Hn1 & Hst1).
  destruct (load_chain_effects _ _ _ _ _ _ _ _ _ Hf Hpl Hfind Hpart Hload)
    as (He1 & Hrep1 & _).
  apply Forall_app in Hdt as [Hxs Hx]. inversion Hx as [|? ? Hx0 _]; subst.
  set (c := chain_of w pl s frag) in *. set (l := nextLoader w) in *.
  destruct (chain_run_trace w c l _ _ xs w1 s part ∅ _ H1 He1 Hrep1 Hxs Hsame)
    as (w2 & last & Hrun & H2 & He2 & Ht2 & Hf2 & _).
  destruct (chain_at_tick _ _ _ _ _ _ _ _ _ H2 Hx0) as [Hs3 H3].
  destruct (chain_at_update _ _ _ _ _ _ _ _ (Completion.stats x)
              (Completion.native x) H3) as (w4 & Hs4 & H4 & Ht4 & Hf4 & _).
  assert (He4 : effects w4 = effects w2).
  { cbn [step] in Hs4. rewrite (transport_update_effects _ _ _ _ _ Hs4). reflexivity. }
  destruct (chain_at_boundary _ _ _ _ _ _ _ _ (Completion.data x)
              (Completion.networkDetails x) next H4 Hnext Hother)
    as (w5 & Hs5 & Hres & Hrel & _).
  { rewrite Hf4. cbn [fragments advance]. rewrite Hf2. unfold c. simpl. eauto. }
  pose proof (chain_at_boundary_effects _ _ _ _ _ _ _ _ (Completion.data x)
                (Completion.networkDetails x) next _ H4 Hnext Hother Hs5) as He5.
  pose proof (ca_part _ _ _ _ _ _ _ _ H2) as Hlast. cbn in Hlast.
  assert (Htake : take (S (length xs)) (drop s pl)
                  = take (length xs) (drop s pl) ++ [last]).
  { apply take_S_r. rewrite lookup_drop. exact Hlast. }
  assert (Hlen : length (take (length xs) (drop s pl)) = length xs).
  { rewrite length_take, length_drop. apply lookup_lt_Some in Hlast. lia. }
  assert (Heff : effects_since w w5
    = load_prologue w
      ++ [SetTimeout (nextTimer w)
            (HlsConfig.fragLoadingTimeOut (FragmentLoader.config (this w)))]
      ++ chain_trace w c l (take (S (length xs)) (drop s pl)) (xs ++ [x])
      ++ [ClearTimeout (nextTimer w)]).
  { unfold effects_since. rewrite He5, He4, He2, Ht4. cbn [this advance].
    rewrite Ht2, Hid, Htake, chain_trace_snoc by exact Hlen.
    unfold chain_prologue, load_prologue. cbn [Chain.partList c chain_of].
    rewrite <- !app_assoc. rewrite drop_app_length.
    destruct (FragmentLoader.loader (this w)); reflexivity. }
  eexists w5, _. split; [|split; [exact Heff | split; [|split; [exact Hres | reflexivity]]]].
  - cbn [run step]. rewrite Hload. cbn [fmap option_fmap option_map snd].
    unfold parts_done. rewrite map_app, concat_app, run_app.
    fold (parts_done l xs). rewrite Hrun. cbn [mbind option_bind map concat].
    rewrite app_nil_r. exact (run_part_done _ _ _ _ _ _ Hs3 Hs4 Hs5).
  - rewrite Heff. rewrite !filter_app.
    assert (Hcount : forall ps ys, length ps = length ys ->
              length (filter (fun e => request_effect e = true) (chain_trace w c l ps ys))
              = length ys).
    { induction ps as [|p ps IHp]; intros [|y ys] Hl; simpl in *; try discriminate;
        [reflexivity|].
      rewrite filter_cons_False by (cbn; discriminate).
      rewrite IHp by lia. reflexivity. }
    rewrite !length_app, Hcount.
    + rewrite length_app. unfold load_prologue.
      destruct (FragmentLoader.loader (this w)); simpl; lia.
    + rewrite Htake, !length_app, Hlen. reflexivity.
Qed.

(** ** The watchdog does not stop the chain *)

(** X12. The watchdog rejects the promise and releases the transport but
    cancels nothing: the request of the current part stays in flight, and
    when it succeeds afterwards the progress callback is still called and
    the next part of the fragment is requested on the released transport,
    while the promise stays rejected and the loader keeps no transport. *)
Theorem chain_outlives_watchdog w frag fragObj ld tbt pl s xs dt next :
  fragments w !! frag = Some fragObj ->
  tracked_has_context w = true ->
  ld ≫= LevelDetails.partList = Some pl ->
  findIndependentPart pl frag (Math_max (Fragment.start fragObj) (or_zero tbt))
    = Z.of_nat s ->
  (forall j, (j < length xs)%nat ->
     exists p, pl !! (S s + j)%nat = Some p /\ Part.fragment p = frag) ->
  Forall (fun y => 0 <= Completion.elapsed y) xs ->
  0 <= dt ->
  HlsConfig.fragLoadingTimeOut (FragmentLoader.config (this w))
    <= elapsed_total xs + dt ->
  pl !! S (s + length xs) = Some next ->
  Part.fragment next = frag ->
  let l := nextLoader w in
  let c := chain_of w pl s frag in
  exists w3 part r,
    run w (CallLoad frag ld tbt true
           :: parts_done l xs ++ [Tick dt; TimerFire (nextTimer w)]) = Some w3 /\
    pl !! (s + length xs)%nat = Some part /\
    promises w3 !! nextPromise w = Some (Rejected r) /\
    FragmentLoader.loader (this w3) = None /\
    forall data nd, exists w4,
      step w3 (OnSuccess l data nd) = Some w4 /\
      effects w4
        = effects w3 ++ [Progress (FragLoadedData.mk frag (Some part) data nd);
                         part_request w c l next] /\
      promises w4 = promises w3 /\
      FragmentLoader.loader (this w4) = None /\
      in_flight l w4 = Some (PartCallbacks c (S (s + length xs)) next l, false).
Proof.
  intros Hf Htc Hpl Hfind Hsame Hxs Hdt Hdue Hnext Hfrag. cbn zeta.
  destruct (chain_reached w frag fragObj ld tbt pl s xs Hf Htc Hpl Hfind Hsame Hxs)
    as (w2 & part & f2 & Hrun & Hpart & H2 & Hid & Hf2 & _ & _ & Hn2).
  destruct (chain_at_tick _ _ _ _ _ _ _ _ _ H2 Hdt) as [Hs3 H3].
  destruct (chain_at_timeout _ _ _ _ _ _ _ _ H3) as (w4 & Hs4 & Hres & Hrel & Htr & _).
  { cbn [now advance]. rewrite Hn2. lia. }
  { cbn [fragments advance chain_of Chain.frag]. eauto. }
  cbn [this advance] in Hs4. rewrite Hid in Hs4.
  exists w4, part. eexists.
  split.
  { change (CallLoad frag ld tbt true
            :: parts_done (nextLoader w) xs ++ [Tick dt; TimerFire (nextTimer w)])
      with ((CallLoad frag ld tbt true :: parts_done (nextLoader w) xs)
            ++ [Tick dt; TimerFire (nextTimer w)]).
    rewrite run_app, Hrun. cbn [mbind option_bind run]. rewrite Hs3, Hs4. reflexivity. }
  split; [exact Hpart|]. split; [exact Hres|].
  destruct Hrel as (_ & Hnone & _). split; [exact Hnone|].
  intros data nd.
  destruct (ca_transport _ _ _ _ _ _ _ _ H3) as (t & Ht & Hcb & Hab & Hctx).
  rewrite <- Htr in Ht.
  destruct (part_success_continues w w4 (chain_of w pl s frag) (nextLoader w)
              (s + length xs) part t data nd next Ht Hcb Hab
              (ca_loader _ _ _ _ _ _ _ _ H3) (ca_part _ _ _ _ _ _ _ _ H3)
              Hnext Hfrag) as (w5 & Hs5 & He5 & Hp5 & Ht5 & _ & _ & Hfl5 & _).
  exists w5. split; [exact Hs5|]. split; [exact He5|]. split; [exact Hp5|].
  split; [rewrite Ht5; exact Hnone | exact Hfl5].
Qed.

(** ** Callbacks of a superseded transport *)

Lemma settle_timers p s w : timers (settle p s w) = timers w.
Proof. unfold settle. destruct (promises w !! p) as [[]|]; reflexivity. Qed.

(** X13. The abort callback of a transport that is no longer the tracked one
    (its load was superseded by a later [load]) leaves the loader's slot,
    the timers and the other transports alone and makes no call, but it
    still sets the loader field of its fragment to null: when the same
    fragment is being loaded again, the fragment loses the reference to the
    new transport while the loader keeps tracking it. *)
Theorem late_abort_clears_fragment_loader w l t cbs f nd :
  transports w !! l = Some t ->
  Transport.callbacks t = Some cbs ->
  cb_loader cbs = l ->
  FragmentLoader.loader (this w) <> Some l ->
  fragments w !! cb_frag cbs = Some f ->
  exists w',
    step w (OnAbort l nd) = Some w' /\
    this w' = this w /\
    timers w' = timers w /\
    effects w' = effects w /\
    (forall l', l' <> l -> transports w' !! l' = transports w !! l') /\
    in_flight l w' = None /\
    frag_loader w' (cb_frag cbs) = Some None.
Proof.
  intros Ht Hcb Hl Htr Hf.
  assert (Hfl : in_flight l w = Some (cbs, Transport.aborting t)).
  { unfold in_flight. rewrite Ht, Hcb. reflexivity. }
  assert (Hfin : forall frag r p W,
    FragmentLoader.loader (this W) = FragmentLoader.loader (this w) ->
    this W = this w -> timers W = timers w -> effects W = effects w ->
    transports W = alter (fun t => Transport.mk (Transport.stats t) None
                                     (Transport.aborting t) (Transport.native t)
                                     (Transport.context t)) l
                     (transports w) ->
    fragments W = fragments w -> fragments w !! frag = Some f ->
    let W' := reject p r (resetLoader frag (Some l) W) in
    this W' = this w /\ timers W' = timers w /\ effects W' = effects w /\
    (forall l', l' <> l -> transports W' !! l' = transports w !! l') /\
    in_flight l W' = None /\ frag_loader W' frag = Some None).
  { intros frag r p W HlW HtW HtiW HeW HtrW HfW Hfr. cbn zeta.
    rewrite resetLoader_untracked by (rewrite HlW; exact Htr).
    unfold reject. rewrite settle_this, settle_timers, settle_effects.
    unfold in_flight, frag_loader. rewrite settle_transports, settle_fragments.
    wred. rewrite HtrW, HfW.
    split; [exact HtW|]. split; [exact HtiW|]. split; [exact HeW|].
    split; [intros l' Hl'; apply lookup_alter_ne; congruence|].
    split.
    - rewrite lookup_alter, decide_True by reflexivity. rewrite Ht. reflexivity.
    - rewrite lookup_alter, decide_True by reflexivity. rewrite Hfr. reflexivity. }
  cbn [step]. rewrite Hfl.
  destruct cbs as [frag loader p op | c i part loader]; cbn [cb_loader cb_frag] in *;
    subst loader; eexists; (split; [reflexivity|]).
  - unfold frag_onAbort. apply Hfin; try reflexivity. exact Hf.
  - unfold part_onAbort. cbn zeta.
    destruct (statsHeap (end_request l w) !! Part.stats part) as [ps|].
    + destruct (set_frag_aborted_frame (Chain.frag c) (LoaderStats.aborted ps)
                  (end_request l w)) as (h & ->).
      apply Hfin; try reflexivity. exact Hf.
    + apply Hfin; try reflexivity. exact Hf.
Qed.

(** ** Statistics reported by the transport reach the fragment *)

Lemma settle_statsHeap p s w : statsHeap (settle p s w) = statsHeap w.
Proof. unfold settle. destruct (promises w !! p) as [[]|]; reflexivity. Qed.

Lemma resetLoader_statsHeap frag loader w :
  statsHeap (resetLoader frag loader w) = statsHeap w.
Proof. unfold resetLoader. cbn zeta. case_decide; reflexivity. Qed.

Lemma resetLoader_fragment frag loader w f :
  fragments w !! frag = Some f ->
  exists f', fragments (resetLoader frag loader w) !! frag = Some f' /\
             Fragment.stats f' = Fragment.stats f.
Proof.
  intros Hf. unfold resetLoader. cbn zeta.
  case_decide; wred; rewrite lookup_alter, decide_True by reflexivity; rewrite Hf;
    eexists; split; reflexivity.
Qed.

(** The statistics of the fragment after the success callback of a part:
    the merge of the part's record, with the aborted flag set when the
    part list is exhausted. *)
Lemma part_success_merge w c l i part t data nd f fs ps :
  transports w !! l = Some t ->
  Transport.callbacks t = Some (PartCallbacks c i part l) ->
  Transport.aborting t = false ->
  fragments w !! Chain.frag c = Some f ->
  statsHeap w !! Fragment.stats f = Some fs ->
  statsHeap w !! Part.stats part = Some ps ->
  exists w' b,
    step w (OnSuccess l data nd) = Some w' /\
    statsHeap w' !! Fragment.stats f
      = Some (set_aborted b
                (updateStats fs ps (Fragment.duration f) (Part.duration part))) /\
    (b = LoaderStats.aborted fs \/ b = true) /\
    (forall sid, sid <> Fragment.stats f -> statsHeap w' !! sid = statsHeap w !! sid).
Proof.
  intros Ht Hcb Hab Hf Hfs Hps.
  assert (Hfl : in_flight l w = Some (PartCallbacks c i part l, false)).
  { unfold in_flight. rewrite Ht, Hcb, Hab. reflexivity. }
  cbn [step]. rewrite Hfl.
  unfold part_onSuccess. cbn zeta.
  assert (Hup : updateStatsFromPart (Chain.frag c) part (end_request l w)
                = with_statsHeap
                    <[Fragment.stats f :=
                        updateStats fs ps (Fragment.duration f) (Part.duration part)]>
                    (end_request l w)).
  { unfold updateStatsFromPart. wred. rewrite Hf, Hfs, Hps. reflexivity. }
  rewrite Hup.
  set (U := updateStats fs ps (Fragment.duration f) (Part.duration part)).
  set (d := FragLoadedData.mk (Chain.frag c) (Some part) data nd).
  set (W := emit (Progress d) (with_statsHeap <[Fragment.stats f := U]> (end_request l w))).
  assert (HW : statsHeap W = <[Fragment.stats f := U]> (statsHeap w)) by reflexivity.
  assert (HfW : fragments W !! Chain.frag c = Some f) by exact Hf.
  assert (Hsame : forall W', statsHeap W' = statsHeap W ->
            statsHeap W' !! Fragment.stats f = Some (set_aborted (LoaderStats.aborted fs) U)
            /\ (forall sid, sid <> Fragment.stats f ->
                  statsHeap W' !! sid = statsHeap w !! sid)).
  { intros W' E. rewrite E, HW. split.
    - rewrite lookup_insert_eq. reflexivity.
    - intros sid Hsid. apply lookup_insert_ne. congruence. }
  unfold partLoaded. cbn zeta.
  set (W1 := record_part (Chain.promise c) (Part.index part) d W).
  assert (HW1 : statsHeap W1 = statsHeap W) by reflexivity.
  assert (HfW1 : fragments W1 !! Chain.frag c = Some f) by exact Hf.
  destruct (_ <=? _).
  - exists (reject (Chain.promise c)
              (mkLoadError INTERNAL_ABORTED (Chain.frag c) (FragLoadedData.part d) None
                 (FragLoadedData.networkDetails d) None)
              (set_frag_aborted (Chain.frag c) true
                 (resetLoader (Chain.frag c) (Chain.loader c) W1))), true.
    split; [reflexivity|].
    destruct (resetLoader_fragment (Chain.frag c) (Chain.loader c) W1 f HfW1)
      as (f' & Hf' & Hst').
    unfold reject. rewrite settle_statsHeap.
    rewrite (set_frag_aborted_found _ _ _ f' Hf'). wred.
    rewrite resetLoader_statsHeap, HW1, HW, Hst'.
    split; [|split; [right; reflexivity|]].
    + rewrite lookup_alter, decide_True by reflexivity.
      rewrite lookup_insert_eq. reflexivity.
    + intros sid Hsid. rewrite lookup_alter_ne by congruence.
      apply lookup_insert_ne. congruence.
  - eexists _, (LoaderStats.aborted fs). split; [reflexivity|].
    assert (E : forall W', statsHeap W' = statsHeap W ->
              statsHeap W' !! Fragment.stats f
                = Some (set_aborted (LoaderStats.aborted fs) U) /\
              (LoaderStats.aborted fs = LoaderStats.aborted fs
               \/ LoaderStats.aborted fs = true) /\
              (forall sid, sid <> Fragment.stats f ->
                 statsHeap W' !! sid = statsHeap w !! sid)).
    { intros W' HE. destruct (Hsame W' HE). auto. }
    apply E.
    destruct (Chain.partList c !! (i + 1)%nat) as [next|] eqn:Hn.
    + case_decide.
      * unfold loadPartIndex, loadPart. rewrite Hn.
        destruct (Chain.loader c); [reflexivity|].
        unfold reject. rewrite settle_statsHeap. reflexivity.
      * unfold resolve. rewrite settle_statsHeap, resetLoader_statsHeap. reflexivity.
    + unfold reject. rewrite settle_statsHeap. reflexivity.
Qed.

(** X14. During a chain the transport is given the record of the part it is
    loading, so what it reports lands there and the fragment's record
    changes only when the part succeeds: then it becomes the merge of the
    fragment's record with the figures the transport reported for the part
    (with the aborted flag set if the list ends there). *)
Theorem part_success_merges_statistics w frag fragObj ld tbt pl s xs st native data nd :
  fragments w !! frag = Some fragObj ->
  tracked_has_context w = true ->
  ld ≫= LevelDetails.partList = Some pl ->
  findIndependentPart pl frag (Math_max (Fragment.start fragObj) (or_zero tbt))
    = Z.of_nat s ->
  (forall j, (j < length xs)%nat ->
     exists p, pl !! (S s + j)%nat = Some p /\ Part.fragment p = frag) ->
  Forall (fun y => 0 <= Completion.elapsed y) xs ->
  let l := nextLoader w in
  exists w2 part,
    run w (CallLoad frag ld tbt true :: parts_done l xs) = Some w2 /\
    pl !! (s + length xs)%nat = Some part /\
    forall fs,
      statsHeap w2 !! Fragment.stats fragObj = Some fs ->
      Part.stats part <> Fragment.stats fragObj ->
      exists w3 w4 r,
        step w2 (TransportUpdate l st native) = Some w3 /\
        statsHeap w3 !! Part.stats part = Some st /\
        statsHeap w3 !! Fragment.stats fragObj = Some fs /\
        step w3 (OnSuccess l data nd) = Some w4 /\
        statsHeap w4 !! Fragment.stats fragObj = Some r /\
        let merged := updateStats fs st (Fragment.duration fragObj) (Part.duration part) in
        LoaderStats.loaded r = LoaderStats.loaded merged /\
        LoaderStats.total r = LoaderStats.total merged /\
        LoaderStats.loading r = LoaderStats.loading merged /\
        statsHeap w4 !! Part.stats part = Some st.
Proof.
  intros Hf Htc Hpl Hfind Hsame Hxs. cbn zeta.
  destruct (findIndependentPart_found _ _ _ _ Hfind) as (part0 & Hpart0 & _).
  destruct (load_starts_chain w frag fragObj ld tbt pl s part0 Hf Htc Hpl Hfind Hpart0)
    as (w1 & Hload & H1 & Hid & (f1 & Hf1 & Hst1 & _) & Hn1 & Hh1).
  destruct (load_chain_effects _ _ _ _ _ _ _ _ _ Hf Hpl Hfind Hpart0 Hload)
    as (He1 & Hrep1 & (f1' & Hf1' & Hd1)).
  rewrite Hf1 in Hf1'. injection Hf1' as <-.
  destruct (chain_run_trace w (chain_of w pl s frag) (nextLoader w) _ _ xs w1 s part0 ∅ _
              H1 He1 Hrep1 Hxs Hsame)
    as (w2 & part & Hrun & H2 & _ & _ & Hf2 & (t & Ht & Hts)).
  exists w2, part.
  split; [cbn [run step]; rewrite Hload; exact Hrun|].
  split; [exact (ca_part _ _ _ _ _ _ _ _ H2)|].
  intros fs Hfs Hne.
  destruct (ca_transport _ _ _ _ _ _ _ _ H2) as (t' & Ht' & Hcb & Hab & Hctx).
  rewrite Ht in Ht'. injection Ht' as <-.
  destruct t as [ts tc ta tn tx].
  cbn [Transport.stats Transport.callbacks Transport.aborting] in Hts, Hcb, Hab.
  subst ts tc ta.
  set (t3 := Transport.mk (Some (Part.stats part))
               (Some (PartCallbacks (chain_of w pl s frag) (s + length xs) part
                        (nextLoader w))) false native tx).
  set (w3 := with_statsHeap <[Part.stats part := st]>
               (with_transports <[nextLoader w := t3]> w2)).
  assert (Hs3 : step w2 (TransportUpdate (nextLoader w) st native) = Some w3).
  { cbn [step]. unfold transport_update. rewrite Ht. reflexivity. }
  assert (Hps3 : statsHeap w3 !! Part.stats part = Some st).
  { unfold w3. wred. apply lookup_insert_eq. }
  assert (Hfs3 : statsHeap w3 !! Fragment.stats f1 = Some fs).
  { unfold w3. wred. rewrite lookup_insert_ne by (rewrite Hst1; exact Hne).
    rewrite Hst1. exact Hfs. }
  destruct (part_success_merge w3 (chain_of w pl s frag) (nextLoader w) (s + length xs)
              part t3 data nd f1 fs st)
    as (w4 & b & Hs4 & Hr4 & _ & Hother); try assumption; try reflexivity.
  { unfold w3. wred. apply lookup_insert_eq. }
  { unfold w3. wred. cbn [chain_of Chain.frag]. rewrite Hf2. exact Hf1. }
  exists w3, w4. eexists.
  split; [exact Hs3|]. split; [exact Hps3|].
  split; [rewrite <- Hst1; exact Hfs3|]. split; [exact Hs4|].
  split; [rewrite <- Hst1; exact Hr4|].
  rewrite Hd1. cbn [set_aborted LoaderStats.loaded LoaderStats.total LoaderStats.loading].
  repeat split.
  rewrite Hother by (rewrite Hst1; exact Hne). exact Hps3.
Qed.

(** ** The target buffer time of [load] *)

Lemma canon_idem (x : number) : canon (canon x) = canon x.
Proof. destruct x; try reflexivity. cbn [canon]. apply canon_of_Q. Qed.

Lemma Math_max_of_Q (a : Q) (t : number) :
  canon t <> NaN -> lt (of_Q false a) t = false ->
  Math_max (of_Q false a) t = of_Q false a.
Proof.
  intros Hnan Hlt. unfold Math_max. rewrite canon_of_Q.
  assert (Hlt' : lt (of_Q false a) (canon t) = false).
  { unfold lt in *. rewrite canon_idem. exact Hlt. }
  remember (of_Q false a) as cx eqn:Ex. remember (canon t) as cy eqn:Ey.
  assert (Hx : cx = Zero false \/ exists q, cx = Num q).
  { subst cx. unfold of_Q. destruct (Qeq_bool a 0); eauto. }
  destruct Hx as [-> | (q & ->)]; destruct cy; try contradiction;
    try rewrite Hlt'; reflexivity.
Qed.

(** X15. The target of the part selection is [Math.max(frag.start,
    targetBufferTime || 0)]: for a fragment that starts at a time [a >= 0],
    a target that is null, NaN, 0 or a time not after [a] is replaced by
    the fragment's start, and [load] does the same in all these cases. *)
Theorem load_target_not_before_start w frag fragObj ld op (a b : Q) tbt :
  fragments w !! frag = Some fragObj ->
  Fragment.start fragObj = of_Q false a ->
  (0 <= a)%Q -> (b <= a)%Q ->
  tbt = None \/ tbt = Some NaN \/ tbt = Some (of_Q false b) ->
  Math_max (Fragment.start fragObj) (or_zero tbt) = Fragment.start fragObj /\
  load frag ld tbt op w = load frag ld (Some (Fragment.start fragObj)) op w.
Proof.
  intros Hf Hstart Ha Hb Htbt.
  assert (Hzero : Math_max (of_Q false a) (Zero false) = of_Q false a).
  { apply Math_max_of_Q; [discriminate|].
    destruct (lt (of_Q false a) (Zero false)) eqn:E; [|reflexivity].
    apply lt_of_Q in E. cbn in E. qlra. }
  assert (Hval : forall c, (c <= a)%Q ->
            Math_max (of_Q false a) (or_zero (Some (of_Q false c))) = of_Q false a).
  { intros c Hc. destruct (Qeq_bool c 0) eqn:Ec.
    - apply Qeq_bool_eq in Ec. rewrite (of_Q_zero false c Ec). exact Hzero.
    - assert (Hne : ~ (c == 0)%Q).
      { intros Hz. apply Qeq_eq_bool in Hz. congruence. }
      assert (Hne' : ~ (Qred c == 0)%Q) by (rewrite Qred_correct; exact Hne).
      rewrite (of_Q_nonzero false c Hne).
      cbn [or_zero]. unfold truthy. cbn [canon].
      rewrite (of_Q_nonzero false (Qred c) Hne').
      apply Math_max_of_Q.
      + cbn [canon]. rewrite of_Q_nonzero; [discriminate|].
        rewrite Qred_correct. exact Hne.
      + destruct (lt (of_Q false a) (Num (Qred c))) eqn:E; [|reflexivity].
        apply lt_of_Q in E. cbn [canon] in E. rewrite of_Q_nonzero in E
          by (rewrite Qred_correct; exact Hne).
        rewrite !Qred_correct in E. qlra. }
  assert (Hmax : Math_max (Fragment.start fragObj) (or_zero tbt)
                 = Fragment.start fragObj).
  { rewrite Hstart. destruct Htbt as [-> | [-> | ->]];
      [exact Hzero | exact Hzero | apply Hval; exact Hb]. }
  assert (Hself : Math_max (Fragment.start fragObj)
                    (or_zero (Some (Fragment.start fragObj)))
                  = Fragment.start fragObj).
  { rewrite Hstart. apply Hval. qlra. }
  split; [exact Hmax|].
  unfold load. rewrite Hf. destruct (abort w) as [w0|]; [|reflexivity].
  cbn zeta. rewrite Hmax, Hself. reflexivity.
Qed.

(** ** Releasing twice *)

(** X16. Releasing the same transport a second time changes nothing: the
    loader's slot no longer holds it, so the timer is not cleared again. *)
Theorem resetLoader_again frag l w :
  resetLoader frag (Some l) (resetLoader frag (Some l) w)
  = resetLoader frag (Some l) w.
Proof.
  assert (Hidle : forall W,
            (forall f, fragments W !! frag = Some f -> Fragment.loader f = None) ->
            set_frag_loader frag None W = W).
  { intros W HW. unfold set_frag_loader, with_fragments.
    destruct W as [th fr sh tr ti pr re ef nw nl nt np]. cbn [this fragments statsHeap
      transports timers promises results effects now nextLoader nextTimer nextPromise] in *.
    f_equal. apply alter_id. intros f Hf. specialize (HW f Hf).
    destruct f; cbn in *. subst. reflexivity. }
  assert (Hnull : forall W f,
            fragments (set_frag_loader frag None W) !! frag = Some f ->
            Fragment.loader f = None).
  { intros W f. wred. rewrite lookup_alter, decide_True by reflexivity.
    destruct (fragments W !! frag); cbn; [intros [= <-]; reflexivity | discriminate]. }
  destruct (decide (FragmentLoader.loader (this w) = Some l)) as [Htr | Htr].
  - rewrite (resetLoader_tracked frag (Some l) w Htr).
    rewrite resetLoader_untracked by (wred; discriminate).
    apply Hidle. wred. apply Hnull.
  - rewrite (resetLoader_untracked frag (Some l) w Htr).
    rewrite resetLoader_untracked by (wred; exact Htr).
    apply Hidle. apply Hnull.
Qed.

End Protocol.

(** ** The theorems at the sample data

    The constants of '../errors' are given the values hls.js exports. *)

Local Abbreviation run' := (run "networkError" "fragLoadError" "fragLoadTimeOut" "aborted").
Local Abbreviation step' := (step "networkError" "fragLoadError" "fragLoadTimeOut" "aborted").
Local Abbreviation load' := (load "networkError" "fragLoadError").
Local Abbreviation ex_after' :=
  (ex_after "networkError" "fragLoadError" "fragLoadTimeOut" "aborted").

(** At the sample operands, the four operations on [number] return the
    double the machine computes. *)
Example arithmetic_agrees_with_binary64 :
  forallb (fun x =>
    forallb (fun y =>
      agrees add PrimFloat.add x y && agrees sub PrimFloat.sub x y
      && agrees mul PrimFloat.mul x y && agrees div PrimFloat.div x y)
      ex_floats) ex_floats = true.
Proof. vm_compute. reflexivity. Qed.

(** The quotient of the durations 2.5 and 0.2 is the double 12.5, which
    [Math.round] takes to 13: a loaded count of 1000 with a part total of
    1000 gives the total 1000 + 1000 + 12 * 1000. *)
Example updateStats_rounds_quotient :
  div (of_decimal 2.5) (of_decimal 0.2) = Num (25 # 2) /\
  Math_round (div (of_decimal 2.5) (of_decimal 0.2)) = of_Z 13 /\
  LoaderStats.total
    (updateStats ex_stats (ex_part_stats 1000 1000) (of_decimal 2.5) (of_decimal 0.2))
  = of_Z 14000.
Proof. repeat split; vm_compute; reflexivity. Qed.

Example findIndependentPart_times :
  findIndependentPart ex_partList_times 0%nat (of_Z 5) = 1
  /\ findIndependentPart ex_partList_times 0%nat (of_Z 6) = 3
  /\ findIndependentPart ex_partList_times 0%nat (of_Z 2) = 1
  /\ findIndependentPart ex_partList_times 0%nat (of_Z 1) = -1.
Proof. repeat split; reflexivity. Qed.



Lemma watchdog_spans_chain_witness :
  (tracked_has_context ex_world = true
   /\ findIndependentPart ex_partList 0%nat (Math_max (Zero false) (or_zero None)) = 0
   /\ HlsConfig.fragLoadingTimeOut ex_config
      <= elapsed_total [ex_completion 2000 1; ex_completion 2000 2] + 1500) /\
  exists w1 w2 w3,
    step' ex_world (CallLoad 0%nat (ex_details ex_partList) None true) = Some w1 /\
    filter (fun e => timer_effect e = true) (effects w1) = [SetTimeout 1 5000] /\
    run' w1 (parts_done 0%nat [ex_completion 2000 1; ex_completion 2000 2]) = Some w2 /\
    filter (fun e => timer_effect e = true) (effects w2) = [SetTimeout 1 5000] /\
    timers w2 !! 1
      = Some (Timer.mk 5000 (Watchdog (chain_of ex_world ex_partList 0 0%nat))) /\
    promises w2 !! 0%nat = Some Pending /\
    run' w2 [Tick 1500; TimerFire 1] = Some w3 /\
    promises w3 !! 0%nat
      = Some (Rejected (ReasonLoadError (LoadError.mk
           (FragLoadFailResult.mk "networkError" "fragLoadTimeOut" false 0%nat
              (Some (ex_part 0 0 0 true 10)%nat) None (loader_native 0%nat w2))
           None))) /\
    released w3 0%nat /\
    is_Some (in_flight 0%nat w3).
Proof.
  split; [split; [reflexivity | split; [reflexivity | vm_compute; discriminate]]|].
  assert (Hsame : forall j, (j < 2)%nat ->
            exists p, ex_partList !! (1 + j)%nat = Some p /\ Part.fragment p = 0%nat).
  { intros [|[|j]] Hj; [eexists; split; reflexivity .. | simpl in Hj; lia]. }
  destruct (watchdog_spans_chain
              "networkError" "fragLoadError" "fragLoadTimeOut" "aborted"
              ex_world 0%nat
              (Fragment.mk None (Zero false) (of_Z 4) None None 0%nat None)
              (ex_details ex_partList) None ex_partList 0%nat
              [ex_completion 2000 1; ex_completion 2000 2] 1500
              eq_refl eq_refl eq_refl eq_refl Hsame)
    as (w1 & w2 & w3 & H1 & H2 & H3 & H4 & H5 & H6 & H7 & H8 & H9 & H10 & H11 & H12 & _).
  { repeat constructor; simpl; lia. }
  { lia. }
  { vm_compute. discriminate. }
  exists w1, w2, w3. repeat split; try assumption; apply H10.
Defined.

Lemma load_hint_resolves_null_witness :
  (fragments ex_world !! 0%nat
     = Some (Fragment.mk None (Zero false) (of_Z 4) None None 0%nat None)
   /\ tracked_has_context ex_world = true
   /\ findIndependentPart ex_partList_hint 0%nat (Math_max (Zero false) (or_zero None))
      = -1
   /\ falsy_url None = true) /\
  exists w',
    load' 0%nat (ex_details ex_partList_hint) None true ex_world = Some (Returned (0%nat, w')) /\
    promises w' !! 0%nat = Some (Resolved None) /\
    released w' 0%nat /\
    effects w' = [NewLoader 7%nat 0%nat; ClearTimeout (-1)].
Proof.
  split; [repeat split; reflexivity|].
  destruct (load_hint_resolves_null "networkError" "fragLoadError"
              ex_world 0%nat
              (Fragment.mk None (Zero false) (of_Z 4) None None 0%nat None)
              (ex_details ex_partList_hint) None ex_partList_hint
              eq_refl eq_refl eq_refl eq_refl eq_refl)
    as (w' & Hload & Hp & Hrel & Heff & _).
  exists w'. repeat split; try assumption; apply Hrel.
Defined.

Lemma load_without_url_instantiates_counterexample :
  exists w',
    load' 0%nat None None false ex_world = Some (Returned (0%nat, w')) /\
    promises w' !! 0%nat
      = Some (Rejected (no_url_error "networkError" "fragLoadError" 0%nat)) /\
    filter (fun e => new_effect e = true) (effects_since ex_world w')
      = [NewLoader 7%nat 0%nat] /\
    filter (fun e => new_effect e = true) (effects_since ex_world w') <> [] /\
    is_Some (transports w' !! 0%nat) /\
    FragmentLoader.loader (this w') = Some 0%nat.
Proof.
  eexists. split; [reflexivity|].
  split; [reflexivity|]. split; [reflexivity|]. split; [discriminate|].
  split; [eexists|]; reflexivity.
Qed.

Lemma load_without_url_rejects_witness :
  (fragments ex_world !! 0%nat
     = Some (Fragment.mk None (Zero false) (of_Z 4) None None 0%nat None)
   /\ tracked_has_context ex_world = true
   /\ falsy_url None = true) /\
  exists w',
    load' 0%nat None None false ex_world = Some (Returned (0%nat, w')) /\
    promises w' !! 0%nat
      = Some (Rejected (no_url_error "networkError" "fragLoadError" 0%nat)) /\
    effects_since ex_world w' = [NewLoader 7%nat 0%nat] /\
    filter (fun e => request_effect e = true) (effects_since ex_world w') = [].
Proof.
  split; [repeat split; reflexivity|].
  destruct (load_without_url_rejects "networkError" "fragLoadError"
              ex_world 0%nat
              (Fragment.mk None (Zero false) (of_Z 4) None None 0%nat None)
              None None false eq_refl eq_refl eq_refl (or_introl eq_refl))
    as (w' & Hload & Hp & Heff & Hreq & _).
  exists w'. repeat split; assumption.
Defined.

Lemma rejected_promises_carry_envelope_witness :
  run' (init ex_config ex_frags ex_heap) [CallLoad 0%nat None None false]
    = Some (ex_after' [CallLoad 0%nat None None false]) /\
  exists e,
    promises (ex_after' [CallLoad 0%nat None None false]) !! 0%nat
      = Some (Rejected (ReasonLoadError e)) /\
    FragLoadFailResult.type (LoadError.data e) = "networkError"%string /\
    (FragLoadFailResult.details (LoadError.data e) = "fragLoadError"%string \/
     FragLoadFailResult.details (LoadError.data e) = "fragLoadTimeOut"%string \/
     FragLoadFailResult.details (LoadError.data e) = "aborted"%string) /\
    FragLoadFailResult.fatal (LoadError.data e) = false.
Proof.
  assert (Hrun : run' (init ex_config ex_frags ex_heap) [CallLoad 0%nat None None false]
                 = Some (ex_after' [CallLoad 0%nat None None false]))
    by reflexivity.
  split; [exact Hrun|].
  destruct (rejected_promises_carry_envelope
              "networkError" "fragLoadError" "fragLoadTimeOut" "aborted"
              ex_config ex_frags ex_heap [CallLoad 0%nat None None false] _ Hrun
              0%nat (no_url_error "networkError" "fragLoadError" 0%nat) eq_refl)
    as (e & He & Hty & Hde & Hfa).
  exists e. rewrite <- He. split; [reflexivity|]. auto.
Defined.


Lemma updateStatsFromPart_total_counterexample :
  exists r,
    statsHeap (updateStatsFromPart 0%nat (ex_part 0 0 0 true 10)%nat (ex_merge_world 4000))
      !! 0%nat = Some r /\
    LoaderStats.loaded r = of_Z 1000 /\
    Math_round (div (LoaderStats.loaded r) (of_Z 4000)) = Zero false /\
    LoaderStats.total r = Infinity false /\
    LoaderStats.total r <> of_Z 5000.
Proof.
  eexists. split; [vm_compute; reflexivity|].
  repeat split; try (vm_compute; reflexivity). vm_compute. discriminate.
Qed.

Lemma updateStatsFromPart_total_witness :
  (fragments (ex_merge_world 1000) !! 0%nat
     = Some (Fragment.mk None (Zero false) (of_Z 4) None None 0%nat None)
   /\ statsHeap (ex_merge_world 1000) !! 0%nat = Some ex_stats
   /\ statsHeap (ex_merge_world 1000) !! 10%nat = Some (ex_part_stats 1000 1000)
   /\ truthy (of_Z 1000) = true) /\
  exists r,
    statsHeap (updateStatsFromPart 0%nat (ex_part 0 0 0 true 10)%nat (ex_merge_world 1000))
      !! 0%nat = Some r /\
    LoaderStats.loaded r = of_Z 1000 /\
    LoaderStats.total r = of_Z 5000.
Proof.
  split; [repeat split; reflexivity|].
  destruct (updateStatsFromPart_total (ex_merge_world 1000) 0%nat
              (ex_part 0 0 0 true 10)%nat
              (Fragment.mk None (Zero false) (of_Z 4) None None 0%nat None)
              ex_stats (ex_part_stats 1000 1000) eq_refl eq_refl eq_refl eq_refl)
    as (r & Hr & Hl & _ & Hex).
  exists r. split; [exact Hr|]. split; [rewrite Hl; reflexivity|].
  apply Hex; try reflexivity. rewrite Hl. reflexivity.
Defined.

Lemma updateStatsFromPart_total_not_finite_witness :
  (statsHeap (ex_merge_world 4000) !! 10%nat = Some (ex_part_stats 1000 4000)
   /\ truthy (of_Z 4000) = true
   /\ is_zero (Math_round (div (add (Zero false) (of_Z 1000)) (of_Z 4000))) = true
   /\ 0 <= 1000 /\ 0 < 4000 < 2 ^ 53) /\
  exists r,
    statsHeap (updateStatsFromPart 0%nat (ex_part 0 0 0 true 10)%nat (ex_merge_world 4000))
      !! 0%nat = Some r /\
    is_finite (LoaderStats.total r) = false /\
    2 * 1000 < 4000.
Proof.
  split; [repeat split; try reflexivity; lia|].
  destruct (updateStatsFromPart_total_not_finite (ex_merge_world 4000) 0%nat
              (ex_part 0 0 0 true 10)%nat
              (Fragment.mk None (Zero false) (of_Z 4) None None 0%nat None)
              ex_stats (ex_part_stats 1000 4000) eq_refl eq_refl eq_refl eq_refl)
    as (r & Hr & Hinf & Hcounters).
  exists r. split; [exact Hr|]. split; [apply Hinf; reflexivity|].
  destruct (Hcounters 1000 4000) as [[Hiff _] _];
    [lia | lia | reflexivity | reflexivity |].
  apply Hiff. reflexivity.
Defined.

(** ** The further properties at the sample data *)

Lemma createLoaderContext_range_witness :
  fragments ex_world !! 0%nat
    = Some (Fragment.mk None (Zero false) (of_Z 4) None None 0%nat None) /\
  (let ctx := createLoaderContext 0%nat (Some ex_part_ranged) ex_world in
   FragmentLoaderContext.url ctx = Some "part.m4s"%string /\
   FragmentLoaderContext.rangeStart ctx = of_Z 100 /\
   FragmentLoaderContext.rangeEnd ctx = of_Z 200) /\
  (let ctx := createLoaderContext 0%nat (Some ex_part_half_range) ex_world in
   FragmentLoaderContext.rangeStart ctx = Zero false /\
   FragmentLoaderContext.rangeEnd ctx = Zero false).
Proof.
  split; [reflexivity|]. split.
  - destruct (createLoaderContext_range ex_world 0%nat _ (Some ex_part_ranged) eq_refl)
      as (_ & _ & _ & Hurl & _ & _ & [(s & e & Hr & _ & _ & Hs & He) | (Hno & _)]).
    + injection Hr as <- <-. repeat split; assumption.
    + discriminate Hno.
  - destruct (createLoaderContext_range ex_world 0%nat _ (Some ex_part_half_range)
                eq_refl)
      as (_ & _ & _ & _ & _ & _ & [(s & e & Hr & _) | (_ & Hs & He)]).
    + discriminate Hr.
    + split; assumption.
Defined.

Lemma updateStatsFromPart_loading_witness :
  (fragments ex_timing_world !! 0%nat
     = Some (Fragment.mk None (Zero false) (of_Z 4) None None 0%nat None)
   /\ truthy (of_Z 100) = true
   /\ Forall (fun z => Z.abs z < 2 ^ 51) [100; 120; 200; 250; 260]) /\
  exists r,
    statsHeap (updateStatsFromPart 0%nat (ex_part 0 0 0 true 10)%nat ex_timing_world)
      !! 0%nat = Some r /\
    is_int (Loading.start (LoaderStats.loading r)) 150 /\
    is_int (Loading.first (LoaderStats.loading r)) 180 /\
    Loading.end_ (LoaderStats.loading r) = of_Z 300.
Proof.
  assert (Hb : Forall (fun z => Z.abs z < 2 ^ 51) [100; 120; 200; 250; 260])
    by (repeat constructor; simpl; lia).
  assert (Hint : forall z : Z, is_int (of_Z z) z).
  { intros z. unfold is_int, of_Z, of_Q.
    destruct (Qeq_bool (inject_Z z) 0) eqn:E.
    - exists 0%Q. split; [reflexivity|]. apply Qeq_bool_eq in E. symmetry. exact E.
    - eexists. split; [reflexivity|]. apply Qred_correct. }
  split; [split; [reflexivity | split; [reflexivity | exact Hb]]|].
  destruct (updateStatsFromPart_loading ex_timing_world 0%nat
              (ex_part 0 0 0 true 10)%nat _ _ _ eq_refl eq_refl eq_refl)
    as (r & Hr & Hend & _ & Hmove).
  destruct (Hmove eq_refl 100 120 200 250 260
              (Hint 100) (Hint 120) (Hint 200) (Hint 250) (Hint 260) Hb)
    as (s' & b' & Hs & Hb' & Es & Eb & _).
  subst s' b'.
  exists r. split; [exact Hr|]. split; [exact Hs|]. split; [exact Hb' | exact Hend].
Defined.

Lemma updateStatsFromPart_unknown_total_witness :
  (statsHeap ex_timing_world !! 10%nat
     = Some (LoaderStats.mk false (of_Z 500) (Zero false)
               (Loading.mk (of_Z 250) (of_Z 260) (of_Z 300)))
   /\ truthy (Zero false) = false) /\
  exists r,
    statsHeap (updateStatsFromPart 0%nat (ex_part 0 0 0 true 10)%nat ex_timing_world)
      !! 0%nat = Some r /\
    LoaderStats.loaded r = of_Z 1500 /\ LoaderStats.total r = of_Z 4000.
Proof.
  split; [split; reflexivity|].
  destruct (updateStatsFromPart_unknown_total ex_timing_world 0%nat
              (ex_part 0 0 0 true 10)%nat _ _ _ eq_refl eq_refl eq_refl)
    as (_ & _ & _ & _ & _ & _ & _ & r & Hr & _ & Hl & Ht).
  exists r. split; [exact Hr|]. split; [rewrite Hl; reflexivity|].
  rewrite (Ht eq_refl). reflexivity.
Defined.

Lemma findIndependentPart_monotone_witness :
  (2 <= 5)%Q /\
  findIndependentPart ex_partList_times 0%nat (of_Q false 2)
  <= findIndependentPart ex_partList_times 0%nat (of_Q false 5).
Proof.
  assert (H : (2 <= 5)%Q) by (unfold Qle; simpl; lia).
  split; [exact H|]. apply (findIndependentPart_monotone _ _ 2%Q 5%Q H).
Defined.

Lemma findIndependentPart_whole_list_witness :
  (forall p, p ∈ ex_partList_times -> lt NaN (Part.start p) = false) /\
  findIndependentPart ex_partList_times 0%nat NaN = 3.
Proof.
  assert (H : forall p, p ∈ ex_partList_times -> lt NaN (Part.start p) = false)
    by (intros p _; reflexivity).
  split; [exact H|].
  destruct (findIndependentPart_whole_list ex_partList_times 0%nat NaN H)
    as [[E _] | (k & p & E & _)]; reflexivity.
Defined.

Lemma settled_promise_is_final_witness :
  (run' (init ex_config ex_frags ex_heap)
     [CallLoad 1%nat None None false; CallAbort; OnAbort 0%nat JsNull]
     = Some (ex_after' [CallLoad 1%nat None None false; CallAbort; OnAbort 0%nat JsNull])
   /\ run' (ex_after' [CallLoad 1%nat None None false; CallAbort; OnAbort 0%nat JsNull])
        [CallLoad 0%nat None None false]
      = Some (ex_after' [CallLoad 1%nat None None false; CallAbort; OnAbort 0%nat JsNull;
                         CallLoad 0%nat None None false])) /\
  promises (ex_after' [CallLoad 1%nat None None false; CallAbort; OnAbort 0%nat JsNull;
                       CallLoad 0%nat None None false]) !! 0%nat
  = Some (Rejected (ReasonLoadError (LoadError.mk
      (FragLoadFailResult.mk "networkError" "aborted" false 1%nat None None JsNull) None))).
Proof.
  assert (H1 : run' (init ex_config ex_frags ex_heap)
                 [CallLoad 1%nat None None false; CallAbort; OnAbort 0%nat JsNull]
               = Some (ex_after' [CallLoad 1%nat None None false; CallAbort;
                                  OnAbort 0%nat JsNull])) by (vm_compute; reflexivity).
  assert (H2 : run' (ex_after' [CallLoad 1%nat None None false; CallAbort;
                                OnAbort 0%nat JsNull])
                 [CallLoad 0%nat None None false]
               = Some (ex_after' [CallLoad 1%nat None None false; CallAbort;
                                  OnAbort 0%nat JsNull; CallLoad 0%nat None None false]))
    by (vm_compute; reflexivity).
  split; [split; [exact H1 | exact H2]|].
  destruct (settled_promise_is_final "networkError" "fragLoadError" "fragLoadTimeOut"
              "aborted" ex_config ex_frags ex_heap _ _ _ _ H1 H2) as (Hfinal & _).
  apply Hfinal; [vm_compute; reflexivity | discriminate].
Defined.

Lemma load_whole_fragment_witness :
  (fragments ex_world !! 1%nat
     = Some (Fragment.mk (Some "seg1.m4s"%string) (of_Z 4) (of_Z 4) None None 1%nat None)
   /\ tracked_has_context ex_world = true
   /\ falsy_url (Some "seg1.m4s"%string) = false) /\
  exists w',
    load' 1%nat None None false ex_world = Some (Returned (0%nat, w')) /\
    effects w'
      = [NewLoader 7%nat 0%nat;
         LoaderLoad 0%nat
           (FragmentLoaderContext.mk 1%nat None "arraybuffer" (Some "seg1.m4s"%string)
              (Zero false) (Zero false))
           (LoaderConfiguration.mk 5000 0 0 64000 131072)] /\
    promises w' !! 0%nat = Some Pending /\
    timers w' = ∅.
Proof.
  split; [repeat split; reflexivity|].
  destruct (load_whole_fragment "networkError" "fragLoadError" ex_world 1%nat _
              None None false eq_refl eq_refl eq_refl (or_introl eq_refl))
    as (w' & Hload & Hat & Heff & _ & _ & Hti & _).
  exists w'. split; [exact Hload|]. split; [exact Heff|].
  split; [exact (wa_pending _ _ _ _ _ Hat) | exact Hti].
Defined.

Lemma whole_fragment_settles_witness :
  whole_at (ex_after' [CallLoad 1%nat None None false]) 0%nat 1%nat 0%nat false /\
  (exists w',
     step' (ex_after' [CallLoad 1%nat None None false]) (OnSuccess 0%nat [] JsNull)
       = Some w' /\
     promises w' !! 0%nat = Some (Resolved (Some (FragLoadedEndData.mk 1%nat None ∅))) /\
     released w' 1%nat) /\
  (exists w' e,
     step' (ex_after' [CallLoad 1%nat None None false])
       (OnError 0%nat (Response.mk 404 "Not Found") (JsRef 5)) = Some w' /\
     promises w' !! 0%nat = Some (Rejected (ReasonLoadError e)) /\
     FragLoadFailResult.details (LoadError.data e) = "fragLoadError"%string /\
     FragLoadFailResult.response (LoadError.data e) = Some (Response.mk 404 "Not Found") /\
     FragLoadFailResult.part (LoadError.data e) = None).
Proof.
  assert (Hat : whole_at (ex_after' [CallLoad 1%nat None None false])
                  0%nat 1%nat 0%nat false).
  { constructor; [eexists; split; [reflexivity|]; split; [reflexivity|];
                  split; [reflexivity | eexists; reflexivity]
                 | reflexivity | reflexivity | eexists; reflexivity]. }
  split; [exact Hat|].
  destruct (whole_fragment_settles "networkError" "fragLoadError" "fragLoadTimeOut"
              "aborted" _ _ _ _ _ Hat) as (Hok & Herr & _ & _).
  split.
  - destruct (Hok [] JsNull) as (w' & Hs & Hp & Hr & _).
    exists w'. auto.
  - destruct (Herr (Response.mk 404 "Not Found") (JsRef 5)) as (w' & Hs & Hp & _).
    exists w'. eexists. split; [exact Hs|]. split; [exact Hp|]. repeat split.
Defined.

Lemma whole_fragment_progress_witness :
  whole_at (ex_after' [CallLoad 1%nat None None true]) 0%nat 1%nat 0%nat true /\
  exists w',
    step' (ex_after' [CallLoad 1%nat None None true]) (OnProgress 0%nat [] (JsRef 5))
      = Some w' /\
    effects w'
      = effects (ex_after' [CallLoad 1%nat None None true])
        ++ [Progress (FragLoadedData.mk 1%nat None [] (JsRef 5))] /\
    promises w' !! 0%nat = Some Pending.
Proof.
  assert (Hat : whole_at (ex_after' [CallLoad 1%nat None None true])
                  0%nat 1%nat 0%nat true).
  { constructor; [eexists; split; [reflexivity|]; split; [reflexivity|];
                  split; [reflexivity | eexists; reflexivity]
                 | reflexivity | reflexivity | eexists; reflexivity]. }
  split; [exact Hat|].
  destruct (whole_fragment_progress "networkError" "fragLoadError" "fragLoadTimeOut"
              "aborted" _ _ _ _ _ [] (JsRef 5) Hat) as (w' & Hs & He & Hat' & _).
  exists w'. split; [exact Hs|]. split; [exact He|]. exact (wa_pending _ _ _ _ _ Hat').
Defined.

Local Abbreviation ex_frag0 :=
  (Fragment.mk None (Zero false) (of_Z 4) None None 0%nat None).

Lemma part_failure_ends_chain_witness :
  (fragments ex_world !! 0%nat = Some ex_frag0
   /\ tracked_has_context ex_world = true
   /\ findIndependentPart ex_partList 0%nat (Math_max (Zero false) (or_zero None)) = 0) /\
  exists w2 w3 e,
    run' ex_world (CallLoad 0%nat (ex_details ex_partList) None true
                   :: parts_done 0%nat [ex_completion 100 1]) = Some w2 /\
    step' w2 (OnError 0%nat (Response.mk 503 "Unavailable") (JsRef 9)) = Some w3 /\
    promises w3 !! 0%nat = Some (Rejected (ReasonLoadError e)) /\
    FragLoadFailResult.details (LoadError.data e) = "fragLoadError"%string /\
    FragLoadFailResult.part (LoadError.data e) = Some (ex_part 0 1 1 false 11)%nat /\
    released w3 0%nat /\
    effects w3 = effects w2 ++ [ClearTimeout 1].
Proof.
  split; [repeat split; reflexivity|].
  assert (Hsame : forall j, (j < 1)%nat ->
            exists p, ex_partList !! (1 + j)%nat = Some p /\ Part.fragment p = 0%nat).
  { intros [|j] Hj; [eexists; split; reflexivity | simpl in Hj; lia]. }
  destruct (part_failure_ends_chain
              "networkError" "fragLoadError" "fragLoadTimeOut" "aborted"
              ex_world 0%nat ex_frag0 (ex_details ex_partList) None ex_partList 0%nat
              [ex_completion 100 1] eq_refl eq_refl eq_refl eq_refl Hsame)
    as (w2 & part & Hrun & Hpart & Herr & _).
  { repeat constructor; simpl; lia. }
  injection Hpart as <-.
  destruct (Herr (Response.mk 503 "Unavailable") (JsRef 9)) as (w3 & Hs & Hp & Hr & _ & He).
  exists w2, w3. eexists. split; [exact Hrun|]. split; [exact Hs|].
  split; [exact Hp|]. repeat split; try assumption; apply Hr.
Defined.

Lemma abort_ends_chain_witness :
  (fragments ex_world !! 0%nat = Some ex_frag0
   /\ tracked_has_context ex_world = true
   /\ statsHeap ex_world !! 0%nat = Some ex_stats
   /\ findIndependentPart ex_partList 0%nat (Math_max (Zero false) (or_zero None)) = 0) /\
  exists w2 w3 w4 e,
    run' ex_world (CallLoad 0%nat (ex_details ex_partList) None true
                   :: parts_done 0%nat [ex_completion 100 1]) = Some w2 /\
    step' w2 CallAbort = Some w3 /\
    effects w3 = effects w2 ++ [LoaderAbort 0%nat] /\
    promises w3 !! 0%nat = Some Pending /\
    step' w3 (OnAbort 0%nat (JsRef 9)) = Some w4 /\
    promises w4 !! 0%nat = Some (Rejected (ReasonLoadError e)) /\
    FragLoadFailResult.details (LoadError.data e) = "aborted"%string /\
    FragLoadFailResult.part (LoadError.data e) = Some (ex_part 0 1 1 false 11)%nat /\
    released w4 0%nat.
Proof.
  split; [repeat split; reflexivity|].
  assert (Hsame : forall j, (j < 1)%nat ->
            exists p, ex_partList !! (1 + j)%nat = Some p /\ Part.fragment p = 0%nat).
  { intros [|j] Hj; [eexists; split; reflexivity | simpl in Hj; lia]. }
  destruct (abort_ends_chain
              "networkError" "fragLoadError" "fragLoadTimeOut" "aborted"
              ex_world 0%nat ex_frag0 (ex_details ex_partList) None ex_partList 0%nat
              [ex_completion 100 1] eq_refl eq_refl (ex_intro _ ex_stats eq_refl)
              eq_refl eq_refl Hsame)
    as (w2 & part & w3 & Hrun & Hpart & Hs3 & He3 & Hp3 & _ & _ & Hcb).
  { repeat constructor; simpl; lia. }
  injection Hpart as <-.
  destruct (Hcb (JsRef 9)) as (w4 & Hs4 & Hp4 & Hr4 & _).
  exists w2, w3, w4. eexists. split; [exact Hrun|]. split; [exact Hs3|].
  split; [exact He3|]. split; [exact Hp3|]. split; [exact Hs4|]. split; [exact Hp4|].
  repeat split; apply Hr4.
Defined.

Lemma chain_requests_in_order_witness :
  (fragments ex_world !! 0%nat = Some ex_frag0
   /\ tracked_has_context ex_world = true
   /\ findIndependentPart ex_partList 0%nat (Math_max (Zero false) (or_zero None)) = 0
   /\ ex_partList !! 3%nat = Some (ex_part 1 0 3 true 10)%nat) /\
  exists w',
    run' ex_world
      (CallLoad 0%nat (ex_details ex_partList) None true
       :: parts_done 0%nat
            [ex_completion 100 1; ex_completion 100 2; ex_completion 100 3])
      = Some w' /\
    let c := chain_of ex_world ex_partList 0 0%nat in
    let result p n := Progress (FragLoadedData.mk 0%nat (Some p) [] (JsRef n)) in
    effects w'
    = [NewLoader 7%nat 0%nat; SetTimeout 1 5000;
       part_request ex_world c 0%nat (ex_part 0 0 0 true 10)%nat;
       result (ex_part 0 0 0 true 10)%nat 1%nat;
       part_request ex_world c 0%nat (ex_part 0 1 1 false 11)%nat;
       result (ex_part 0 1 1 false 11)%nat 2%nat;
       part_request ex_world c 0%nat (ex_part 0 2 2 false 12)%nat;
       result (ex_part 0 2 2 false 12)%nat 3%nat;
       ClearTimeout 1].
Proof.
  split; [repeat split; reflexivity|].
  assert (Hsame : forall j, (j < 2)%nat ->
            exists p, ex_partList !! (1 + j)%nat = Some p /\ Part.fragment p = 0%nat).
  { intros [|[|j]] Hj; [eexists; split; reflexivity .. | simpl in Hj; lia]. }
  destruct (chain_requests_in_order
              "networkError" "fragLoadError" "fragLoadTimeOut" "aborted"
              ex_world 0%nat ex_frag0 (ex_details ex_partList) None ex_partList 0%nat
              [ex_completion 100 1; ex_completion 100 2] (ex_completion 100 3)
              (ex_part 1 0 3 true 10)%nat eq_refl eq_refl eq_refl eq_refl Hsame eq_refl)
    as (w' & R & Hrun & Heff & _).
  { discriminate. }
  { repeat constructor; simpl; lia. }
  exists w'. split; [exact Hrun|]. exact Heff.
Defined.

Lemma chain_outlives_watchdog_witness :
  (fragments ex_world !! 0%nat = Some ex_frag0
   /\ tracked_has_context ex_world = true
   /\ findIndependentPart ex_partList 0%nat (Math_max (Zero false) (or_zero None)) = 0
   /\ HlsConfig.fragLoadingTimeOut ex_config
      <= elapsed_total [ex_completion 2000 1] + 3000
   /\ ex_partList !! 2%nat = Some (ex_part 0 2 2 false 12)%nat) /\
  exists w3 r w4,
    run' ex_world
      (CallLoad 0%nat (ex_details ex_partList) None true
       :: parts_done 0%nat [ex_completion 2000 1] ++ [Tick 3000; TimerFire 1])
      = Some w3 /\
    promises w3 !! 0%nat = Some (Rejected r) /\
    FragmentLoader.loader (this w3) = None /\
    step' w3 (OnSuccess 0%nat [] (JsRef 2)) = Some w4 /\
    effects w4
      = effects w3
        ++ [Progress (FragLoadedData.mk 0%nat (Some (ex_part 0 1 1 false 11)%nat) []
                        (JsRef 2));
            part_request ex_world (chain_of ex_world ex_partList 0 0%nat) 0%nat
              (ex_part 0 2 2 false 12)%nat] /\
    promises w4 !! 0%nat = Some (Rejected r).
Proof.
  split; [repeat split; try reflexivity; vm_compute; discriminate|].
  assert (Hsame : forall j, (j < 1)%nat ->
            exists p, ex_partList !! (1 + j)%nat = Some p /\ Part.fragment p = 0%nat).
  { intros [|j] Hj; [eexists; split; reflexivity | simpl in Hj; lia]. }
  assert (Hxs : Forall (fun y => 0 <= Completion.elapsed y) [ex_completion 2000 1])
    by (repeat constructor; simpl; lia).
  assert (Hdt : 0 <= 3000) by lia.
  assert (Hdue : HlsConfig.fragLoadingTimeOut (FragmentLoader.config (this ex_world))
                 <= elapsed_total [ex_completion 2000 1] + 3000)
    by (vm_compute; discriminate).
  destruct (chain_outlives_watchdog
              "networkError" "fragLoadError" "fragLoadTimeOut" "aborted"
              ex_world 0%nat ex_frag0 (ex_details ex_partList) None ex_partList 0%nat
              [ex_completion 2000 1] 3000 (ex_part 0 2 2 false 12)%nat
              eq_refl eq_refl eq_refl eq_refl Hsame Hxs Hdt Hdue eq_refl eq_refl)
    as (w3 & part & r & Hrun & Hpart & Hp & Hl & Hnext).
  injection Hpart as <-.
  destruct (Hnext [] (JsRef 2)) as (w4 & Hs4 & He4 & Hp4 & _).
  exists w3, r, w4. split; [exact Hrun|]. split; [exact Hp|]. split; [exact Hl|].
  split; [exact Hs4|]. split; [exact He4|]. rewrite Hp4. exact Hp.
Defined.

Lemma late_abort_clears_fragment_loader_witness :
  (run' ex_world [CallLoad 1%nat None None false; CallLoad 1%nat None None false]
     = Some (ex_after' [CallLoad 1%nat None None false; CallLoad 1%nat None None false])
   /\ FragmentLoader.loader
        (this (ex_after' [CallLoad 1%nat None None false; CallLoad 1%nat None None false]))
      = Some 1%nat
   /\ frag_loader
        (ex_after' [CallLoad 1%nat None None false; CallLoad 1%nat None None false]) 1%nat
      = Some (Some 1%nat)) /\
  exists w',
    step' (ex_after' [CallLoad 1%nat None None false; CallLoad 1%nat None None false])
      (OnAbort 0%nat JsNull) = Some w' /\
    FragmentLoader.loader (this w') = Some 1%nat /\
    frag_loader w' 1%nat = Some None /\
    is_Some (in_flight 1%nat w').
Proof.
  split; [split; [vm_compute; reflexivity | split; vm_compute; reflexivity]|].
  destruct (late_abort_clears_fragment_loader
              "networkError" "fragLoadError" "fragLoadTimeOut" "aborted"
              (ex_after' [CallLoad 1%nat None None false; CallLoad 1%nat None None false])
              0%nat
              (Transport.mk (Some 1%nat) (Some (FragCallbacks 1%nat 0%nat 0%nat false))
                 true JsUndefined
                 (Some (FragmentLoaderContext.mk 1%nat None "arraybuffer"
                          (Some "seg1.m4s"%string) (Zero false) (Zero false))))
              (FragCallbacks 1%nat 0%nat 0%nat false)
              (Fragment.mk (Some "seg1.m4s"%string) (of_Z 4) (of_Z 4) None None 1%nat
                 (Some 1%nat))
              JsNull)
    as (w' & Hs & Hthis & _ & _ & Hother & _ & Hfl).
  { vm_compute. reflexivity. }
  { reflexivity. }
  { reflexivity. }
  { vm_compute. discriminate. }
  { vm_compute. reflexivity. }
  exists w'. split; [exact Hs|]. split; [rewrite Hthis; vm_compute; reflexivity|].
  split; [exact Hfl|].
  unfold in_flight. rewrite Hother by discriminate. vm_compute. eauto.
Defined.

Lemma load_target_not_before_start_witness :
  (fragments ex_world !! 1%nat
     = Some (Fragment.mk (Some "seg1.m4s"%string) (of_Z 4) (of_Z 4) None None 1%nat None)
   /\ of_Z 4 = of_Q false 4 /\ (0 <= 4)%Q /\ (2 <= 4)%Q) /\
  Math_max (of_Z 4) (or_zero (Some (of_Q false 2))) = of_Z 4 /\
  load' 1%nat (ex_details ex_partList) (Some (of_Q false 2)) true ex_world
  = load' 1%nat (ex_details ex_partList) (Some (of_Z 4)) true ex_world.
Proof.
  assert (H0 : (0 <= 4)%Q) by (unfold Qle; simpl; lia).
  assert (H2 : (2 <= 4)%Q) by (unfold Qle; simpl; lia).
  split; [repeat split; try reflexivity; assumption|].
  apply (load_target_not_before_start "networkError" "fragLoadError" ex_world 1%nat
           (Fragment.mk (Some "seg1.m4s"%string) (of_Z 4) (of_Z 4) None None 1%nat None)
           (ex_details ex_partList) true 4%Q 2%Q (Some (of_Q false 2))
           eq_refl eq_refl H0 H2).
  right. right. reflexivity.
Defined.

Lemma part_success_merges_statistics_witness :
  (fragments ex_world !! 0%nat
     = Some (Fragment.mk None (Zero false) (of_Z 4) None None 0%nat None)
   /\ tracked_has_context ex_world = true
   /\ findIndependentPart ex_partList 0%nat (Math_max (Zero false) (or_zero None)) = 0) /\
  exists w2 w3 w4 r,
    run' ex_world [CallLoad 0%nat (ex_details ex_partList) None true] = Some w2 /\
    step' w2 (TransportUpdate 0%nat (ex_part_stats 700 0) (JsRef 100)) = Some w3 /\
    statsHeap w3 !! 0%nat = Some ex_stats /\
    step' w3 (OnSuccess 0%nat [] (JsRef 1)) = Some w4 /\
    statsHeap w4 !! 0%nat = Some r /\
    LoaderStats.loaded r = of_Z 700 /\
    LoaderStats.loading r = Loading.mk (of_Z 10) (of_Z 20) (of_Z 30).
Proof.
  split; [repeat split; reflexivity|].
  assert (Hsame : forall j, (j < 0)%nat ->
            exists p, ex_partList !! (1 + j)%nat = Some p /\ Part.fragment p = 0%nat).
  { intros j Hj. lia. }
  destruct (part_success_merges_statistics
              "networkError" "fragLoadError" "fragLoadTimeOut" "aborted"
              ex_world 0%nat
              (Fragment.mk None (Zero false) (of_Z 4) None None 0%nat None)
              (ex_details ex_partList) None ex_partList 0%nat []
              (ex_part_stats 700 0) (JsRef 100) [] (JsRef 1)
              eq_refl eq_refl eq_refl eq_refl Hsame (Forall_nil_2 _))
    as (w2 & part & Hrun & Hpart & Hmerge).
  injection Hpart as <-.
  assert (Ew : Some w2
               = Some (ex_after' [CallLoad 0%nat (ex_details ex_partList) None true]))
    by (rewrite <- Hrun; vm_compute; reflexivity).
  injection Ew as Ew.
  destruct (Hmerge ex_stats) as (w3 & w4 & r & Hs3 & _ & Hf3 & Hs4 & Hr & Hl & _ & Hlo & _).
  { rewrite Ew. vm_compute. reflexivity. }
  { discriminate. }
  exists w2, w3, w4, r. split; [exact Hrun|].
  split; [exact Hs3|]. split; [exact Hf3|]. split; [exact Hs4|]. split; [exact Hr|].
  split; [rewrite Hl; reflexivity | rewrite Hlo; reflexivity].
Defined.
